(** * The fagvalg presentation controller (js/presentation.js)

    A shallow embedding of the slide navigator, the click-reveal
    sequencer, the two "fordypning" widgets of slides 10 and 11 and the
    Escape dispatch of [js/presentation.js], with the properties the
    specification states about them.

    The script lives in one closure: its variables ([currentSlide],
    [clickRevealState], [interactiveState], ...) and the classes it
    toggles on the page are one mutable store, the record [state] below.
    Handlers are functions on that store.  The page itself (index.html)
    is not part of the sources: what the script reads from it is the
    record [markup], a parameter of the whole development. *)

From stdpp Require Import gmap strings list.
From Stdlib Require Import ZArith Lia.

Open Scope string_scope.
Open Scope Z_scope.

(** ** The page as the script sees it *)

(** A slide: an element carrying [data-slide].  [click_reveal] is
    [dataset.clickReveal === 'true']; [delays] lists, in document
    order, [parseInt(el.dataset.delay)] of the slide's [[data-delay]]
    elements ([None] when the attribute does not parse: NaN). *)
Record slide_el := Slide {
  click_reveal : bool;
  delays : list (option Z)
}.

(** An element carrying [data-fag].  [cell_slide] is the number of the
    slide that contains it, [clickable] says whether it matches
    [.fag-cell.clickable], [requires] is [dataset.requires]
    ([None]: attribute absent). *)
Record cell_el := Cell {
  cell_slide : Z;
  clickable : bool;
  fag : string;
  requires : option string
}.

(** The page: slides by their [data-slide] number (every slide carries
    its own number, so [[data-slide="n"]] is a lookup), and the
    [data-fag] elements of the whole document in document order. *)
Record markup := Markup {
  slides : gmap Z slide_el;
  cells : list cell_el
}.

(** ** The store *)

(** Deferred callbacks handed to [setTimeout] that touch the store.
    [TInitAnimate]: [init]'s [animateSlide(document.querySelector('.slide.active'))];
    [TAnimate n]: [goToSlide]'s [animateSlide(activeSlide)] for slide [n];
    [TShow n i]: [animateSlide]'s [el.classList.add('visible')] for the
    [i]-th [[data-delay]] element of slide [n]. *)
Inductive timer :=
| TInitAnimate
| TAnimate (n : Z)
| TShow (n : Z) (i : nat).

(** The four overlay elements of a widget: arrow and result box of the
    first pair, arrow and result box of the second pair; [true] when the
    element carries class [visible]. *)
Record overlay := Overlay {
  arrow_a : bool;
  result_a : bool;
  arrow_b : bool;
  result_b : bool
}.

Definition hidden_overlay : overlay := Overlay false false false false.

Record state := State {
  currentSlide : Z;
  clickRevealState : gmap Z Z;
  active : option Z;              (* the slide carrying class [active] *)
  visible : gset (Z * nat);       (* [data-delay] elements carrying [visible]: slide, position *)
  indicator : bool;               (* [#clickRevealIndicator] carries [visible] *)
  interactiveState : list (string * bool);
  interactiveState11 : list (string * bool);
  selected : gset nat;            (* cells carrying class [selected], by position in [cells] *)
  overlay10 : overlay;
  overlay11 : overlay;
  positioned : list string;       (* calls of [updateArrowPosition*], oldest first *)
  bubbles : gset nat;             (* speech bubbles carrying [visible] *)
  imageModal : bool;
  qrModal : bool;
  pending : list timer;
  touchStartX : Z;
  touchEndX : Z
}.

Definition set_currentSlide (v : Z) (s : state) : state :=
  State v (clickRevealState s) (active s) (visible s) (indicator s)
    (interactiveState s) (interactiveState11 s) (selected s) (overlay10 s)
    (overlay11 s) (positioned s) (bubbles s) (imageModal s) (qrModal s)
    (pending s) (touchStartX s) (touchEndX s).

Definition set_clickRevealState (v : gmap Z Z) (s : state) : state :=
  State (currentSlide s) v (active s) (visible s) (indicator s)
    (interactiveState s) (interactiveState11 s) (selected s) (overlay10 s)
    (overlay11 s) (positioned s) (bubbles s) (imageModal s) (qrModal s)
    (pending s) (touchStartX s) (touchEndX s).

Definition set_active (v : option Z) (s : state) : state :=
  State (currentSlide s) (clickRevealState s) v (visible s) (indicator s)
    (interactiveState s) (interactiveState11 s) (selected s) (overlay10 s)
    (overlay11 s) (positioned s) (bubbles s) (imageModal s) (qrModal s)
    (pending s) (touchStartX s) (touchEndX s).

Definition set_visible (v : gset (Z * nat)) (s : state) : state :=
  State (currentSlide s) (clickRevealState s) (active s) v (indicator s)
    (interactiveState s) (interactiveState11 s) (selected s) (overlay10 s)
    (overlay11 s) (positioned s) (bubbles s) (imageModal s) (qrModal s)
    (pending s) (touchStartX s) (touchEndX s).

Definition set_indicator (v : bool) (s : state) : state :=
  State (currentSlide s) (clickRevealState s) (active s) (visible s) v
    (interactiveState s) (interactiveState11 s) (selected s) (overlay10 s)
    (overlay11 s) (positioned s) (bubbles s) (imageModal s) (qrModal s)
    (pending s) (touchStartX s) (touchEndX s).

Definition set_interactiveState (v : list (string * bool)) (s : state) : state :=
  State (currentSlide s) (clickRevealState s) (active s) (visible s) (indicator s)
    v (interactiveState11 s) (selected s) (overlay10 s)
    (overlay11 s) (positioned s) (bubbles s) (imageModal s) (qrModal s)
    (pending s) (touchStartX s) (touchEndX s).

Definition set_interactiveState11 (v : list (string * bool)) (s : state) : state :=
  State (currentSlide s) (clickRevealState s) (active s) (visible s) (indicator s)
    (interactiveState s) v (selected s) (overlay10 s)
    (overlay11 s) (positioned s) (bubbles s) (imageModal s) (qrModal s)
    (pending s) (touchStartX s) (touchEndX s).

Definition set_selected (v : gset nat) (s : state) : state :=
  State (currentSlide s) (clickRevealState s) (active s) (visible s) (indicator s)
    (interactiveState s) (interactiveState11 s) v (overlay10 s)
    (overlay11 s) (positioned s) (bubbles s) (imageModal s) (qrModal s)
    (pending s) (touchStartX s) (touchEndX s).

Definition set_overlay10 (v : overlay) (s : state) : state :=
  State (currentSlide s) (clickRevealState s) (active s) (visible s) (indicator s)
    (interactiveState s) (interactiveState11 s) (selected s) v
    (overlay11 s) (positioned s) (bubbles s) (imageModal s) (qrModal s)
    (pending s) (touchStartX s) (touchEndX s).

Definition set_overlay11 (v : overlay) (s : state) : state :=
  State (currentSlide s) (clickRevealState s) (active s) (visible s) (indicator s)
    (interactiveState s) (interactiveState11 s) (selected s) (overlay10 s)
    v (positioned s) (bubbles s) (imageModal s) (qrModal s)
    (pending s) (touchStartX s) (touchEndX s).

Definition set_positioned (v : list string) (s : state) : state :=
  State (currentSlide s) (clickRevealState s) (active s) (visible s) (indicator s)
    (interactiveState s) (interactiveState11 s) (selected s) (overlay10 s)
    (overlay11 s) v (bubbles s) (imageModal s) (qrModal s)
    (pending s) (touchStartX s) (touchEndX s).

Definition set_bubbles (v : gset nat) (s : state) : state :=
  State (currentSlide s) (clickRevealState s) (active s) (visible s) (indicator s)
    (interactiveState s) (interactiveState11 s) (selected s) (overlay10 s)
    (overlay11 s) (positioned s) v (imageModal s) (qrModal s)
    (pending s) (touchStartX s) (touchEndX s).

Definition set_imageModal (v : bool) (s : state) : state :=
  State (currentSlide s) (clickRevealState s) (active s) (visible s) (indicator s)
    (interactiveState s) (interactiveState11 s) (selected s) (overlay10 s)
    (overlay11 s) (positioned s) (bubbles s) v (qrModal s)
    (pending s) (touchStartX s) (touchEndX s).

Definition set_qrModal (v : bool) (s : state) : state :=
  State (currentSlide s) (clickRevealState s) (active s) (visible s) (indicator s)
    (interactiveState s) (interactiveState11 s) (selected s) (overlay10 s)
    (overlay11 s) (positioned s) (bubbles s) (imageModal s) v
    (pending s) (touchStartX s) (touchEndX s).

Definition set_pending (v : list timer) (s : state) : state :=
  State (currentSlide s) (clickRevealState s) (active s) (visible s) (indicator s)
    (interactiveState s) (interactiveState11 s) (selected s) (overlay10 s)
    (overlay11 s) (positioned s) (bubbles s) (imageModal s) (qrModal s)
    v (touchStartX s) (touchEndX s).

Definition set_touchStartX (v : Z) (s : state) : state :=
  State (currentSlide s) (clickRevealState s) (active s) (visible s) (indicator s)
    (interactiveState s) (interactiveState11 s) (selected s) (overlay10 s)
    (overlay11 s) (positioned s) (bubbles s) (imageModal s) (qrModal s)
    (pending s) v (touchEndX s).

Definition set_touchEndX (v : Z) (s : state) : state :=
  State (currentSlide s) (clickRevealState s) (active s) (visible s) (indicator s)
    (interactiveState s) (interactiveState11 s) (selected s) (overlay10 s)
    (overlay11 s) (positioned s) (bubbles s) (imageModal s) (qrModal s)
    (pending s) (touchStartX s) v.

(** [setTimeout(cb, _)]: the callback joins the pending ones. *)
Definition schedule (t : timer) (s : state) : state :=
  set_pending (pending s ++ [t]) s.

(** ** Objects used as maps *)

(** A state object is written down as its own properties, in insertion
    order.  The reads and writes below are those of JavaScript for every
    key that [Object.prototype] does not define ([object_prototype_keys]
    further down): for such a key nothing is inherited, and an
    assignment creates an own property.  The theorems that read or
    write keys taken from the page assume that the page uses no other
    key ([plain_ids], [named_cells]). *)

(** [obj[key]] read as a condition: a missing key is [undefined], falsy. *)
Fixpoint get_flag (obj : list (string * bool)) (key : string) : bool :=
  match obj with
  | [] => false
  | (k, v) :: rest => if String.eqb k key then v else get_flag rest key
  end.

(** [obj[key] = v]: an own key keeps its place, a new one is appended. *)
Fixpoint set_flag (key : string) (v : bool) (obj : list (string * bool))
  : list (string * bool) :=
  match obj with
  | [] => [(key, v)]
  | (k, w) :: rest =>
      if String.eqb k key then (k, v) :: rest else (k, w) :: set_flag key v rest
  end.

(** [Object.keys(obj)], in insertion order (JavaScript lists
    integer-like keys first; the cascade, the one place that walks the
    keys, treats each key on its own). *)
Definition keys (obj : list (string * bool)) : list string := map fst obj.

(** The names every object inherits from [Object.prototype].  For one of
    them [obj[key]] finds the inherited member, which is truthy, unless
    [obj] has an own property of that name, and an assignment to
    [__proto__] creates no own property. *)
Definition object_prototype_keys : list string :=
  ["constructor"; "__defineGetter__"; "__defineSetter__"; "hasOwnProperty";
   "__lookupGetter__"; "__lookupSetter__"; "isPrototypeOf";
   "propertyIsEnumerable"; "toString"; "valueOf"; "__proto__";
   "toLocaleString"].

(** The characters that do not stand for themselves between the double
    quotes of a selector: NUL, the line breaks (line feed, form feed,
    carriage return), the double quote and the backslash. *)
Definition selector_special : list Ascii.ascii :=
  Ascii.ascii_of_nat <$> [0; 10; 12; 13; 34; 92]%nat.

(** A key that can be spliced as it is into [[data-fag="..."]]. *)
Definition selector_safe (key : string) : bool :=
  forallb (λ a, bool_decide (a ∉ selector_special))
    (String.list_ascii_of_string key).

(** A key for which the state objects and the selectors of this script
    behave as plain maps and plain comparisons. *)
Definition plain_key (key : string) : Prop :=
  (key ∉ object_prototype_keys) ∧ selector_safe key = true.

(** [a === id] for a [dataset] value [a] and a string [id]. *)
Definition same_string (a : option string) (id : string) : bool :=
  match a with
  | Some r => String.eqb r id
  | None => false
  end.

(** ** Results of a call *)

(** A call either returns or dies on a [TypeError] (a property read on
    [null]); either way it leaves a store behind. *)
Inductive outcome :=
| Returned (s : state)
| Threw (s : state).

Definition state_of (o : outcome) : state :=
  match o with
  | Returned s => s
  | Threw s => s
  end.

Definition totalSlides : Z := 14.

(** Modelled from the spec: the classes of the page at load, the page
    not being among the sources: slide 1 is the active one, no unit is
    selected, and the arrows, result boxes, click-reveal indicator,
    bubbles and modals are hidden.  The rest is the store once the
    [DOMContentLoaded] callback has run: the script's own initial
    values, no [data-delay] element visible ([preloadAnimations]), and
    [init]'s first animation pending. *)
Definition init_state : state :=
  {| currentSlide := 1;
     clickRevealState := ∅;
     active := Some 1;
     visible := ∅;
     indicator := false;
     interactiveState :=
       [("fysikk1", false); ("fysikk2", false); ("r1", false); ("r2", false)];
     interactiveState11 :=
       [("okonomi1", false); ("okonomi2", false);
        ("samfunn1", false); ("samfunn2", false)];
     selected := ∅;
     overlay10 := hidden_overlay;
     overlay11 := hidden_overlay;
     positioned := [];
     bubbles := ∅;
     imageModal := false;
     qrModal := false;
     pending := [TInitAnimate];
     touchStartX := 0;
     touchEndX := 0 |}.

(** The two widgets.  [handleFagClick], [updateFordypningVisuals],
    [updateArrowPosition] and [resetInteractiveSlide10] reappear in the
    script as [...Slide11] with the same text up to: the state object,
    the slide, the scope of the cascade's element lookup, and the names
    of the two pairs.  The embedding writes each function once, over
    the widget it serves. *)
Inductive widget := Slide10 | Slide11.

#[global] Instance widget_eq_dec : EqDecision widget.
Proof. solve_decision. Defined.

Definition widget_slide (w : widget) : Z :=
  match w with Slide10 => 10 | Slide11 => 11 end.

Definition flags_of (w : widget) (s : state) : list (string * bool) :=
  match w with Slide10 => interactiveState s | Slide11 => interactiveState11 s end.

Definition set_flags_of (w : widget) (v : list (string * bool)) (s : state) : state :=
  match w with Slide10 => set_interactiveState v s | Slide11 => set_interactiveState11 v s end.

Definition overlay_of (w : widget) (s : state) : overlay :=
  match w with Slide10 => overlay10 s | Slide11 => overlay11 s end.

Definition set_overlay_of (w : widget) (v : overlay) (s : state) : state :=
  match w with Slide10 => set_overlay10 v s | Slide11 => set_overlay11 v s end.

(** The flags each [updateFordypningVisuals*] reads, pair by pair. *)
Definition first_pair (w : widget) : string * string :=
  match w with
  | Slide10 => ("fysikk1", "fysikk2")
  | Slide11 => ("okonomi1", "okonomi2")
  end.

Definition second_pair (w : widget) : string * string :=
  match w with
  | Slide10 => ("r1", "r2")
  | Slide11 => ("samfunn1", "samfunn2")
  end.

(** The [type] each pair hands to [updateArrowPosition*]. *)
Definition first_arrow (w : widget) : string :=
  match w with Slide10 => "fysikk" | Slide11 => "okonomi" end.

Definition second_arrow (w : widget) : string :=
  match w with Slide10 => "matte" | Slide11 => "samfunn" end.

(** Where the cascade looks an element up: [handleFagClick] asks the
    whole document ([[data-fag="key"]]), [handleFagClickSlide11] asks
    slide 11 only ([[data-slide="11"] [data-fag="key"]]). *)
Definition in_lookup_scope (w : widget) (c : cell_el) : Prop :=
  match w with
  | Slide10 => True
  | Slide11 => cell_slide c = 11
  end.

#[global] Instance in_lookup_scope_dec w c : Decision (in_lookup_scope w c).
Proof. destruct w; simpl; apply _. Defined.

(** The keys of the keyboard handler's [switch]. *)
Inductive key :=
| ArrowRight | ArrowDown | Space | PageDown
| ArrowLeft | ArrowUp | PageUp
| Home | End_ | KeyF | Escape | OtherKey.

Definition is_escape (k : key) : bool :=
  match k with Escape => true | _ => false end.

(** The keys that share the first [case] group of [handleKeydown]. *)
Definition forward_key (k : key) : bool :=
  match k with
  | ArrowRight | ArrowDown | Space | PageDown => true
  | _ => false
  end.

(** One listener invocation each.  A click that bubbles runs several
    listeners in a row and so is a run of several events.
    [ClickMenu g]: [g] is [parseInt(item.dataset.goto)];
    [ClickContainer b]: [b] says whether the target sits inside
    [a, button, input, .fag-cell.clickable, .has-info];
    [ClickDocument b]: [b] says whether it sits inside [.fag-cell.has-info];
    [Fire k]: the [k]-th pending timer goes off. *)
Inductive event :=
| Keydown (k : key)
| TouchStart (x : Z)
| TouchEnd (x : Z)
| ClickPrev
| ClickNext
| ClickMenu (goto : option Z)
| ClickContainer (interactive : bool)
| ClickCell (i : nat)
| ToggleBubble (b : nat)
| CloseBubble (b : nat)
| ClickDocument (inside_info : bool)
| OpenImage
| CloseImage
| OpenQr
| CloseQr
| Fire (k : nat).

(** [elements.forEach(el => { if (parseInt(el.dataset.delay) === idx)
    found = el; })]: the last match wins. *)
Fixpoint scan_delays (i : nat) (ds : list (option Z)) (idx : Z)
    (found : option nat) : option nat :=
  match ds with
  | [] => found
  | d :: rest =>
      scan_delays (S i) rest idx (if decide (d = Some idx) then Some i else found)
  end.

Definition find_delay (ds : list (option Z)) (idx : Z) : option nat :=
  scan_delays 0 ds idx None.

(** [requires && !obj[requires]] *)
Definition unmet (req : option string) (obj : list (string * bool)) : bool :=
  match req with
  | Some r => negb (String.eqb r "") && negb (get_flag obj r)
  | None => false
  end.

(** ** The handlers *)

Section Controller.

Variable page : markup.

(** *** Click-reveal *)

(** [clickRevealState[currentSlide] || 0] *)
Definition counter (s : state) : Z :=
  default 0 (clickRevealState s !! currentSlide s).

Definition isCurrentSlideClickReveal (s : state) : bool :=
  match slides page !! currentSlide s with
  | Some sl => click_reveal sl
  | None => false
  end.

Definition allElementsRevealed (s : state) : bool :=
  match slides page !! currentSlide s with
  | None => true
  | Some sl => Z.of_nat (length (delays sl)) <=? counter s
  end.

Definition revealNextElement (s : state) : bool * state :=
  match slides page !! currentSlide s with
  | None => (false, s)
  | Some sl =>
      let currentIndex := counter s in
      if Z.of_nat (length (delays sl)) <=? currentIndex then (false, s)
      else
        let s1 :=
          match find_delay (delays sl) currentIndex with
          | Some j => set_visible (visible s ∪ {[ (currentSlide s, j) ]}) s
          | None => s
          end in
        (true,
         set_clickRevealState
           (<[currentSlide s := currentIndex + 1]> (clickRevealState s)) s1)
  end.

(** The slide found by [document.querySelector('.slide.active')]. *)
Definition active_slide (s : state) : option (Z * slide_el) :=
  match active s with
  | Some a =>
      match slides page !! a with
      | Some sl => Some (a, sl)
      | None => None
      end
  | None => None
  end.

Definition hideLastRevealedElement (s : state) : bool * state :=
  match active_slide s with
  | None => (false, s)
  | Some (a, sl) =>
      if negb (click_reveal sl) then (false, s)
      else
        let currentIndex := counter s in
        if currentIndex <=? 0 then (false, s)
        else
          let s1 :=
            match find_delay (delays sl) (currentIndex - 1) with
            | Some j => set_visible (visible s ∖ {[ (a, j) ]}) s
            | None => s
            end in
          (true,
           set_clickRevealState
             (<[currentSlide s := currentIndex - 1]> (clickRevealState s)) s1)
  end.

Definition updateClickRevealIndicator (s : state) : state :=
  set_indicator (isCurrentSlideClickReveal s && negb (allElementsRevealed s)) s.

(** [animateSlide(slide)] for the slide numbered [n].  On a click-reveal
    slide it only makes sure the counter exists; otherwise it schedules
    one [visible] per [data-delay] element.  A [null] slide dies on
    [slide.dataset] before any effect. *)
Definition animateSlide (n : Z) (s : state) : state :=
  match slides page !! n with
  | None => s
  | Some sl =>
      if click_reveal sl then
        match clickRevealState s !! n with
        | None => set_clickRevealState (<[n := 0]> (clickRevealState s)) s
        | Some _ => s
        end
      else set_pending (pending s ++ imap (λ i _, TShow n i) (delays sl)) s
  end.

(** *** The widgets of slides 10 and 11 *)

(** [document.querySelector] for a [data-fag] value, in the widget's
    lookup scope: the first match in document order, with its position.
    The script splices the key into the selector [[data-fag="key"]];
    for a [selector_safe] key that selector matches exactly the elements
    whose [data-fag] is the key, which is what is written here.  A key
    with a quote, a backslash or a line break makes another selector, or
    none (the call then throws); such keys are not modelled, and the
    theorems about the cascade assume that the keys are plain. *)
Definition query_fag (w : widget) (key : string) : option (nat * cell_el) :=
  list_find (λ c, in_lookup_scope w c ∧ fag c = key) (cells page).

Definition mark (i : nat) (s : state) : state :=
  set_selected (selected s ∪ {[ i ]}) s.

Definition unmark (i : nat) (s : state) : state :=
  set_selected (selected s ∖ {[ i ]}) s.

(** [updateArrowPosition(type)] / [updateArrowPositionSlide11(type)].
    The coordinates come from live screen rectangles, which the model
    does not hold; the call itself is recorded. *)
Definition updateArrowPositionOn (w : widget) (type : string) (s : state) : state :=
  set_positioned (positioned s ++ [type]) s.

(** [updateFordypningVisuals] / [updateFordypningVisualsSlide11].  The
    arrows and result boxes are dereferenced unguarded: the page has
    them. *)
Definition updateFordypningVisualsOn (w : widget) (s : state) : state :=
  match slides page !! widget_slide w with
  | None => s
  | Some _ =>
      let obj := flags_of w s in
      let s1 :=
        if get_flag obj (first_pair w).1 && get_flag obj (first_pair w).2 then
          let s' :=
            if negb (arrow_a (overlay_of w s))
            then updateArrowPositionOn w (first_arrow w) s else s in
          set_overlay_of w
            (Overlay true true (arrow_b (overlay_of w s')) (result_b (overlay_of w s'))) s'
        else
          set_overlay_of w
            (Overlay false false (arrow_b (overlay_of w s)) (result_b (overlay_of w s))) s in
      if get_flag obj (second_pair w).1 && get_flag obj (second_pair w).2 then
        let s' :=
          if negb (arrow_b (overlay_of w s1))
          then updateArrowPositionOn w (second_arrow w) s1 else s1 in
        set_overlay_of w
          (Overlay (arrow_a (overlay_of w s')) (result_a (overlay_of w s')) true true) s'
      else
        set_overlay_of w
          (Overlay (arrow_a (overlay_of w s1)) (result_a (overlay_of w s1)) false false) s1
  end.

Definition updateArrowPosition : string → state → state :=
  updateArrowPositionOn Slide10.

Definition updateArrowPositionSlide11 : string → state → state :=
  updateArrowPositionOn Slide11.

Definition updateFordypningVisuals : state → state :=
  updateFordypningVisualsOn Slide10.

Definition updateFordypningVisualsSlide11 : state → state :=
  updateFordypningVisualsOn Slide11.

(** The body of the cascade's [forEach], for one key. *)
Definition deselect_if_requires (w : widget) (fagId : string) (st : state)
    (key : string) : state :=
  match query_fag w key with
  | Some (j, otherCell) =>
      if same_string (requires otherCell) fagId
      then unmark j (set_flags_of w (set_flag key false (flags_of w st)) st)
      else st
  | None => st
  end.

(** [handleFagClick(cell)] / [handleFagClickSlide11(cell)] for the cell
    at position [i].  The shake animation of a rejected click and the
    [just-selected] class are never read back and are left out. *)
Definition handleFagClickOn (w : widget) (i : nat) (cell : cell_el) (s : state) : state :=
  let fagId := fag cell in
  if unmet (requires cell) (flags_of w s) then s
  else
    let s1 :=
      if get_flag (flags_of w s) fagId then
        let s' := unmark i (set_flags_of w (set_flag fagId false (flags_of w s)) s) in
        foldl (deselect_if_requires w fagId) s' (keys (flags_of w s'))
      else
        mark i (set_flags_of w (set_flag fagId true (flags_of w s)) s) in
    updateFordypningVisualsOn w s1.

Definition handleFagClick : nat → cell_el → state → state :=
  handleFagClickOn Slide10.

Definition handleFagClickSlide11 : nat → cell_el → state → state :=
  handleFagClickOn Slide11.

(** The cells [initInteractiveSlide10] / [initInteractiveSlide11] put a
    listener on: [.fag-cell.clickable] inside the widget's slide. *)
Definition widget_cell (w : widget) (i : nat) : bool :=
  match cells page !! i with
  | Some c => (cell_slide c =? widget_slide w) && clickable c
  | None => false
  end.

(** Modelled from the spec: the page, which is not among the sources,
    gives the two arrows of a widget's slide the class [arrow-line] and
    its two result boxes the class [fordypning-result] (leaving the
    slide "hides all indicators/results"), so removing [visible] from
    every such element of the slide hides the whole overlay. *)
Definition hide_arrows_and_results (w : widget) (s : state) : state :=
  set_overlay_of w hidden_overlay s.

(** [resetInteractiveSlide10] / [resetInteractiveSlide11]. *)
Definition resetInteractiveOn (w : widget) (s : state) : state :=
  let obj :=
    set_flag (second_pair w).2 false
      (set_flag (second_pair w).1 false
         (set_flag (first_pair w).2 false
            (set_flag (first_pair w).1 false (flags_of w s)))) in
  let s1 := set_flags_of w obj s in
  match slides page !! widget_slide w with
  | None => s1
  | Some _ =>
      hide_arrows_and_results w
        (set_selected (filter (λ i, widget_cell w i = false) (selected s1)) s1)
  end.

Definition resetInteractiveSlide10 : state → state := resetInteractiveOn Slide10.
Definition resetInteractiveSlide11 : state → state := resetInteractiveOn Slide11.

(** *** Navigation *)

(** The function declared as [goToSlide].  The exit classes, the
    [data-direction] attribute, the progress bar and the buttons'
    [disabled] are written and never read back; they are left out.
    Without an element for [slideNum] the call dies on
    [activeSlide.classList], after [currentSlide] is assigned. *)
Definition originalGoToSlide (slideNum : Z) (s : state) : outcome :=
  if (slideNum <? 1) || (totalSlides <? slideNum) then Returned s
  else
    let s1 := set_currentSlide slideNum (set_active None s) in
    match slides page !! slideNum with
    | None => Threw s1
    | Some _ => Returned (schedule (TAnimate slideNum) (set_active (Some slideNum) s1))
    end.

(** The function [goToSlide] names once the script has loaded: the
    wrapper that resets a widget whose slide is being left.
    [updateSlideMenuActive] only rewrites the menu's [active] classes
    from [currentSlide]. *)
Definition goToSlide (slideNum : Z) (s : state) : outcome :=
  let s1 :=
    if (currentSlide s =? 10) && negb (slideNum =? 10)
    then resetInteractiveSlide10 s else s in
  let s2 :=
    if (currentSlide s1 =? 11) && negb (slideNum =? 11)
    then resetInteractiveSlide11 s1 else s1 in
  match originalGoToSlide slideNum s2 with
  | Returned s3 => Returned (updateClickRevealIndicator s3)
  | Threw s3 => Threw s3
  end.

Definition nextSlide (s : state) : outcome := goToSlide (currentSlide s + 1) s.
Definition prevSlide (s : state) : outcome := goToSlide (currentSlide s - 1) s.

(** The branch shared by the forward keys and the left swipe. *)
Definition reveal_or_advance (s : state) : state :=
  if isCurrentSlideClickReveal s && negb (allElementsRevealed s)
  then (revealNextElement s).2
  else state_of (nextSlide s).

Definition handleKeydown (k : key) (s : state) : state :=
  match k with
  | ArrowRight | ArrowDown | Space | PageDown => reveal_or_advance s
  | ArrowLeft | ArrowUp | PageUp => state_of (prevSlide s)
  | Home => state_of (goToSlide 1 s)
  | End_ => state_of (goToSlide totalSlides s)
  | KeyF => s
  | Escape =>
      if isCurrentSlideClickReveal s then
        let r := hideLastRevealedElement s in
        if r.1 then updateClickRevealIndicator r.2 else r.2
      else s
  | OtherKey => s
  end.

Definition handleSlideContainerClick (interactive : bool) (s : state) : state :=
  if negb (isCurrentSlideClickReveal s) then s
  else if interactive then s
  else if negb (allElementsRevealed s)
       then updateClickRevealIndicator (revealNextElement s).2
       else s.

Definition handleSwipe (s : state) : state :=
  let swipeThreshold := 50 in
  let diff := touchStartX s - touchEndX s in
  if swipeThreshold <? Z.abs diff then
    if 0 <? diff then reveal_or_advance s else state_of (prevSlide s)
  else s.

Definition handleTouchStart (x : Z) (s : state) : state := set_touchStartX x s.
Definition handleTouchEnd (x : Z) (s : state) : state := handleSwipe (set_touchEndX x s).

(** *** Bubbles and modals *)

Definition closeAllSpeechBubbles (s : state) : state := set_bubbles ∅ s.

Definition closeSpeechBubble (b : nat) (s : state) : state :=
  set_bubbles (bubbles s ∖ {[ b ]}) s.

Definition toggleSpeechBubble (b : nat) (s : state) : state :=
  if decide (b ∈ bubbles s) then closeSpeechBubble b s
  else set_bubbles {[ b ]} (closeAllSpeechBubbles s).

Definition openImageModal (s : state) : state := set_imageModal true s.
Definition closeImageModal (s : state) : state := set_imageModal false s.
Definition openQrModal (s : state) : state := set_qrModal true s.
Definition closeQrModal (s : state) : state := set_qrModal false s.

(** The [keydown] listeners of [document], in the order the script
    registers them: [handleKeydown], then the Escape listeners of the
    speech bubbles, of the image modal and of the QR modal. *)
Definition keydown_listeners : list (key → state → state) :=
  [ handleKeydown;
    (λ k s, if is_escape k then closeAllSpeechBubbles s else s);
    (λ k s, if is_escape k && imageModal s then closeImageModal s else s);
    (λ k s, if is_escape k && qrModal s then closeQrModal s else s) ].

(** A listener that throws does not keep the later ones from running. *)
Definition keydown (k : key) (s : state) : state :=
  foldl (λ st listener, listener k st) s keydown_listeners.

(** *** Timers *)

Definition run_timer (t : timer) (s : state) : state :=
  match t with
  | TInitAnimate =>
      match active s with
      | Some n => animateSlide n s
      | None => s
      end
  | TAnimate n => animateSlide n s
  | TShow n i => set_visible (visible s ∪ {[ (n, i) ]}) s
  end.

Definition fire (k : nat) (s : state) : state :=
  match pending s !! k with
  | Some t => run_timer t (set_pending (delete k (pending s)) s)
  | None => s
  end.

(** *** The event loop *)

Definition click_cell (i : nat) (s : state) : state :=
  match cells page !! i with
  | Some c =>
      if widget_cell Slide10 i then handleFagClick i c s
      else if widget_cell Slide11 i then handleFagClickSlide11 i c s
      else s
  | None => s
  end.

Definition step (e : event) (s : state) : state :=
  match e with
  | Keydown k => keydown k s
  | TouchStart x => handleTouchStart x s
  | TouchEnd x => handleTouchEnd x s
  | ClickPrev => state_of (prevSlide s)
  | ClickNext => state_of (nextSlide s)
  | ClickMenu g =>
      match g with
      | Some slideNum =>
          if (1 <=? slideNum) && (slideNum <=? totalSlides)
          then state_of (goToSlide slideNum s) else s
      | None => s
      end
  | ClickContainer b => handleSlideContainerClick b s
  | ClickCell i => click_cell i s
  | ToggleBubble b => toggleSpeechBubble b s
  | CloseBubble b => closeSpeechBubble b s
  | ClickDocument inside => if inside then s else closeAllSpeechBubbles s
  | OpenImage => openImageModal s
  | CloseImage => closeImageModal s
  | OpenQr => openQrModal s
  | CloseQr => closeQrModal s
  | Fire k => fire k s
  end.

(** Handlers run to completion, one after the other. *)
Definition run (es : list event) (s : state) : state :=
  foldl (λ st e, step e st) s es.

Definition reachable (s : state) : Prop :=
  ∃ es, s = run es init_state.

End Controller.

(** ** A page to run the script on *)

(** Modelled from the spec: the page, which is not among the sources.
    Fourteen slides; slides 10 and 11 hold the two widgets, each with
    two prerequisite pairs of selectable units named after the flags of
    its state object.  The spec leaves open which slides are
    reveal-enabled: here slide 2 (ordinals 0, 1, 2), slide 5 (ordinals
    0 and 2, a gap at 1), slide 10 (ordinals 0, 1) and the last slide
    (one element) are. *)
Definition sample_page : markup :=
  {| slides :=
       list_to_map
         [ (1, Slide false [Some 0; Some 1]);
           (2, Slide true [Some 0; Some 1; Some 2]);
           (3, Slide false []);
           (4, Slide false [Some 0]);
           (5, Slide true [Some 0; Some 2]);
           (6, Slide false []);
           (7, Slide false []);
           (8, Slide false []);
           (9, Slide false []);
           (10, Slide true [Some 0; Some 1]);
           (11, Slide false []);
           (12, Slide false []);
           (13, Slide false []);
           (14, Slide true [Some 0]) ];
     cells :=
       [ Cell 10 true "fysikk1" None;
         Cell 10 true "fysikk2" (Some "fysikk1");
         Cell 10 true "r1" None;
         Cell 10 true "r2" (Some "r1");
         Cell 11 true "okonomi1" None;
         Cell 11 true "okonomi2" (Some "okonomi1");
         Cell 11 true "samfunn1" None;
         Cell 11 true "samfunn2" (Some "samfunn1") ] |}.

(** Two variants of it: one from which slide 3 is missing, and one
    whose first slide is reveal-enabled with two elements that carry
    the same ordinal 0. *)
Definition page_missing_slide : markup :=
  {| slides := delete 3 (slides sample_page); cells := cells sample_page |}.

Definition page_shared_ordinal : markup :=
  {| slides := <[1 := Slide true [Some 0; Some 0; Some 1]]> (slides sample_page);
     cells := cells sample_page |}.

(** ** Properties *)

(** What the widgets own, and the rest of the store. *)
Definition widgets (s : state) :=
  (interactiveState s, interactiveState11 s, selected s,
   overlay10 s, overlay11 s, positioned s).

Definition reveal_part (s : state) := (clickRevealState s, visible s).

Definition popups (s : state) := (bubbles s, imageModal s, qrModal s).

(** The number of [data-delay] elements of slide [n], as
    [elements.length] gives it. *)
Definition element_count (page : markup) (n : Z) : Z :=
  match slides page !! n with
  | Some sl => Z.of_nat (length (delays sl))
  | None => 0
  end.

(** Every counter of [clickRevealState] lies between 0 and the number
    of tagged elements of its slide. *)
Definition counters_in_range (page : markup) (s : state) : Prop :=
  ∀ n v, clickRevealState s !! n = Some v → 0 ≤ v ≤ element_count page n.

(** A forward input: a forward key, or a touch that ends more than the
    threshold to the left of where it started. *)
Definition is_forward (e : event) (s : state) : bool :=
  match e with
  | Keydown k => forward_key k
  | TouchEnd x => 50 <? touchStartX s - x
  | _ => false
  end.

(** Everything but the widgets' part of the store. *)
Definition outside_widgets (s : state) :=
  (currentSlide s, reveal_part s, active s, indicator s, popups s,
   pending s, touchStartX s, touchEndX s).

(** The store the wrapper hands to the original function. *)
Definition after_resets (page : markup) (slideNum : Z) (s : state) : state :=
  let s1 :=
    if (currentSlide s =? 10) && negb (slideNum =? 10)
    then resetInteractiveSlide10 page s else s in
  if (currentSlide s1 =? 11) && negb (slideNum =? 11)
  then resetInteractiveSlide11 page s1 else s1.

(** The two operations of the sequencer, called directly. *)
Inductive reveal_op := RevealNext | RevealPrevious.

Definition apply_reveal_op (page : markup) (s : state) (o : reveal_op) : state :=
  match o with
  | RevealNext => (revealNextElement page s).2
  | RevealPrevious => (hideLastRevealedElement page s).2
  end.

(** Within the scope the cascade searches, no two elements share a
    [data-fag] value: every unit has its own id. *)
Definition unique_in_scope (page : markup) (w : widget) : Prop :=
  ∀ i j c d,
    cells page !! i = Some c → cells page !! j = Some d →
    in_lookup_scope w c → in_lookup_scope w d →
    fag c = fag d → i = j.

(** Prerequisites are one level deep: the prerequisite of a selectable
    unit of the widget declares no prerequisite of its own. *)
Definition two_levels (page : markup) (w : widget) : Prop :=
  ∀ i j c d p,
    cells page !! i = Some c → widget_cell page w i = true →
    requires c = Some p → p ≠ "" →
    cells page !! j = Some d → in_lookup_scope w d → fag d = p →
    requires d = None.

(** The ids of the page are plain: the [data-fag] of every selectable
    unit of the two widgets is a plain key, and no [data-requires] of
    such a unit names a member of [Object.prototype]. *)
Definition plain_ids (page : markup) : Prop :=
  ∀ w i c,
    cells page !! i = Some c → widget_cell page w i = true →
    plain_key (fag c) ∧ ∀ p, requires c = Some p → p ∉ object_prototype_keys.

(** A selectable unit of the widget carries [selected] only while its
    flag is set. *)
Definition marks_follow_flags (page : markup) (w : widget) (s : state) : Prop :=
  ∀ i c,
    cells page !! i = Some c → widget_cell page w i = true →
    i ∈ selected s → get_flag (flags_of w s) (fag c) = true.

(** The flag of a selectable unit with a prerequisite is set only while
    the prerequisite's flag is. *)
Definition flags_respect_prerequisites (page : markup) (w : widget) (s : state) : Prop :=
  ∀ i c p,
    cells page !! i = Some c → widget_cell page w i = true →
    requires c = Some p → p ≠ "" →
    get_flag (flags_of w s) (fag c) = true → get_flag (flags_of w s) p = true.

(** Whether the cascade for [fagId] hits [key]: the element found for
    [key] declares [fagId] as its prerequisite. *)
Definition depends_on (page : markup) (w : widget) (fagId key : string) : bool :=
  match query_fag page w key with
  | Some (_, otherCell) => same_string (requires otherCell) fagId
  | None => false
  end.

(** Both flags of a pair are set. *)
Definition pair_complete (obj : list (string * bool)) (pr : string * string) : bool :=
  get_flag obj pr.1 && get_flag obj pr.2.

(** Arrow and result box of each pair are visible exactly when the pair
    is complete. *)
Definition overlay_matches (w : widget) (s : state) : Prop :=
  overlay_of w s =
  Overlay (pair_complete (flags_of w s) (first_pair w))
          (pair_complete (flags_of w s) (first_pair w))
          (pair_complete (flags_of w s) (second_pair w))
          (pair_complete (flags_of w s) (second_pair w)).

(** The arrows of the pairs that are complete in [s'] and were not in
    [s], first pair first. *)
Definition newly_complete (w : widget) (s s' : state) : list string :=
  (if pair_complete (flags_of w s') (first_pair w)
      && negb (pair_complete (flags_of w s) (first_pair w))
   then [first_arrow w] else []) ++
  (if pair_complete (flags_of w s') (second_pair w)
      && negb (pair_complete (flags_of w s) (second_pair w))
   then [second_arrow w] else []).

(** What a widget shows and remembers: its flags, the marks on its
    selectable units, its overlay. *)
Definition widget_view (page : markup) (w : widget) (s : state) :=
  (flags_of w s,
   filter (λ i, widget_cell page w i = true) (selected s),
   overlay_of w s).

(** The four flags a widget's reset assigns. *)
Definition named_flags (w : widget) : list string :=
  [(first_pair w).1; (first_pair w).2; (second_pair w).1; (second_pair w).2].

(** The toggle of [handleFagClick*]: everything between the
    prerequisite check and the overlay update. *)
Definition toggle_cell (page : markup) (w : widget) (i : nat) (cell : cell_el)
    (s : state) : state :=
  let fagId := fag cell in
  if get_flag (flags_of w s) fagId then
    let s' := unmark i (set_flags_of w (set_flag fagId false (flags_of w s)) s) in
    foldl (deselect_if_requires page w fagId) s' (keys (flags_of w s'))
  else
    mark i (set_flags_of w (set_flag fagId true (flags_of w s)) s).

(** A check that implies [two_levels] for both widgets: whatever a cell
    names as its prerequisite declares none itself. *)
Definition two_levelsb (page : markup) : bool :=
  forallb
    (λ c, match requires c with
          | Some p =>
              String.eqb p ""
              || forallb
                   (λ d, negb (String.eqb (fag d) p) || bool_decide (requires d = None))
                   (cells page)
          | None => true
          end)
    (cells page).

(** A backward input: a backward key, the previous button, or a touch
    that ends more than the threshold to the right of where it started. *)
Definition is_backward (e : event) (s : state) : bool :=
  match e with
  | Keydown ArrowLeft | Keydown ArrowUp | Keydown PageUp => true
  | ClickPrev => true
  | TouchEnd x => touchStartX s - x <? -50
  | _ => false
  end.

(** The class [active] sits on no slide or on the current one. *)
Definition active_is_current (s : state) : Prop :=
  active s = None ∨ active s = Some (currentSlide s).

(** Every pending [visible] timer belongs to a slide that animates on
    entry. *)
Definition shows_only_auto (page : markup) (s : state) : Prop :=
  ∀ n i, TShow n i ∈ pending s →
         ∃ sl, slides page !! n = Some sl ∧ click_reveal sl = false.

(** On a reveal-enabled slide the visible elements are those the
    sequencer finds for the ordinals below the slide's counter. *)
Definition revealed_below_counter (page : markup) (s : state) : Prop :=
  ∀ n sl j,
    slides page !! n = Some sl → click_reveal sl = true →
    ((n, j) ∈ visible s ↔
     ∃ d, 0 ≤ d < default 0 (clickRevealState s !! n)
          ∧ find_delay (delays sl) d = Some j).

(** What the sequencer and the navigator share. *)
Definition sequencer_view (s : state) :=
  (currentSlide s, clickRevealState s, active s, visible s, pending s).

Definition sequencer_ok (page : markup) (s : state) : Prop :=
  counters_in_range page s ∧ active_is_current s ∧
  shows_only_auto page s ∧ revealed_below_counter page s.

(** No two speech bubbles are open. *)
Definition at_most_one_bubble (s : state) : Prop :=
  ∀ a b, a ∈ bubbles s → b ∈ bubbles s → a = b.

(** The selectable units of the widget are named after its four flags. *)
Definition named_cells (page : markup) (w : widget) : Prop :=
  ∀ i c, cells page !! i = Some c → widget_cell page w i = true →
         fag c ∈ named_flags w.

(** A flag is set only for the id of a selectable unit of the widget. *)
Definition flags_have_cells (page : markup) (w : widget) (s : state) : Prop :=
  ∀ k, get_flag (flags_of w s) k = true →
       ∃ j o, cells page !! j = Some o ∧ widget_cell page w j = true ∧ fag o = k.

(** The [data-delay] elements of slide [n], all of them. *)
Definition slide_elements (n : Z) (ds : list (option Z)) : gset (Z * nat) :=
  list_to_set ((λ i, (n, i)) <$> seq 0 (length ds)).

(** The value a counter reads as: [clickRevealState[n] || 0]. *)
Definition counter_of (s : state) (n : Z) : Z :=
  default 0 (clickRevealState s !! n).

Section Properties.

Variable page : markup.

(** *** Objects used as maps *)

Lemma get_set_flag_eq key v obj : get_flag (set_flag key v obj) key = v.
Proof.
  induction obj as [|[k w] rest IH]; simpl.
  - by rewrite String.eqb_refl.
  - destruct (String.eqb k key) eqn:E; simpl; rewrite E; auto.
Qed.

Lemma get_set_flag_ne key key' v obj :
  key ≠ key' → get_flag (set_flag key v obj) key' = get_flag obj key'.
Proof.
  intros Hne. induction obj as [|[k w] rest IH]; simpl.
  - destruct (String.eqb_spec key key'); congruence.
  - destruct (String.eqb_spec k key) as [->|Hk]; simpl.
    + destruct (String.eqb_spec key key'); congruence.
    + by rewrite IH.
Qed.

Lemma get_set_flag key key' v obj :
  get_flag (set_flag key v obj) key' =
  if decide (key = key') then v else get_flag obj key'.
Proof.
  case_decide as E.
  - subst. apply get_set_flag_eq.
  - by apply get_set_flag_ne.
Qed.

Lemma get_flag_all_false obj key :
  Forall (λ kv, kv.2 = false) obj → get_flag obj key = false.
Proof.
  induction 1 as [|[k v] rest Hv _ IH]; simpl; [done|].
  simpl in Hv. subst v. by case_match.
Qed.

Lemma get_flag_true_key obj key : get_flag obj key = true → key ∈ keys obj.
Proof.
  induction obj as [|[k w] rest IH]; simpl; [done|].
  destruct (String.eqb_spec k key) as [->|Hk]; intros H.
  - apply list_elem_of_here.
  - apply list_elem_of_further. by apply IH.
Qed.

Lemma keys_set_flag_in key v obj : key ∈ keys obj → keys (set_flag key v obj) = keys obj.
Proof.
  unfold keys. induction obj as [|[k w] rest IH]; simpl.
  - by intros ?%elem_of_nil.
  - destruct (String.eqb_spec k key) as [->|Hk]; simpl; [done|].
    intros [?|Hin]%elem_of_cons; [congruence|]. by rewrite IH.
Qed.

(** *** The last element with a given ordinal *)

Lemma scan_delays_none i ds idx :
  Some idx ∉ ds → ∀ found, scan_delays i ds idx found = found.
Proof.
  revert i. induction ds as [|d rest IH]; intros i Hnot found; simpl; [done|].
  apply not_elem_of_cons in Hnot as [Hd Hrest].
  rewrite decide_False by congruence. by apply IH.
Qed.

Lemma find_delay_none ds idx : Some idx ∉ ds → find_delay ds idx = None.
Proof. intros H. by apply scan_delays_none. Qed.

Lemma scan_delays_range i ds idx found j :
  scan_delays i ds idx found = Some j →
  found = Some j ∨ (i ≤ j < i + length ds)%nat ∧ ds !! (j - i)%nat = Some (Some idx).
Proof.
  revert i found. induction ds as [|d rest IH]; intros i found; simpl.
  - auto.
  - intros H. apply IH in H as [H|[Hr Hl]].
    + case_decide as E; [|by left].
      right. injection H as <-. split; [lia|]. by rewrite Nat.sub_diag, E.
    + right. split; [lia|].
      replace (j - i)%nat with (S (j - S i)) by lia. done.
Qed.

Lemma find_delay_some ds idx j :
  find_delay ds idx = Some j → ds !! j = Some (Some idx).
Proof.
  intros H. apply scan_delays_range in H as [H|[_ H]]; [done|].
  by rewrite Nat.sub_0_r in H.
Qed.

Lemma scan_delays_last i ds idx found (j : nat) :
  ds !! j = Some (Some idx) →
  (∀ k, (j < k)%nat → ds !! k ≠ Some (Some idx)) →
  scan_delays i ds idx found = Some (i + j)%nat.
Proof.
  revert i found j. induction ds as [|d rest IH]; intros i found j Hj Hlast; [done|].
  simpl. destruct j as [|j]; simpl in Hj.
  - injection Hj as ->. rewrite decide_True by done.
    rewrite scan_delays_none; [f_equal; lia|].
    intros (k & Hk)%list_elem_of_lookup_1. by apply (Hlast (S k)); [lia|].
  - rewrite (IH (S i) _ j); [f_equal; lia|done|].
    intros k Hk. apply (Hlast (S k)). lia.
Qed.

Lemma find_delay_last ds idx (j : nat) :
  ds !! j = Some (Some idx) →
  (∀ k, (j < k)%nat → ds !! k ≠ Some (Some idx)) →
  find_delay ds idx = Some j.
Proof. intros. unfold find_delay. by rewrite (scan_delays_last 0 ds idx None j). Qed.

(** *** What a handler leaves alone *)

Lemma outside_fields s s' :
  outside_widgets s' = outside_widgets s →
  currentSlide s' = currentSlide s ∧ reveal_part s' = reveal_part s ∧
  active s' = active s ∧ indicator s' = indicator s ∧
  popups s' = popups s ∧ pending s' = pending s ∧
  touchStartX s' = touchStartX s ∧ touchEndX s' = touchEndX s.
Proof.
  unfold outside_widgets, reveal_part, popups. intros H.
  injection H. intros. repeat split; congruence.
Qed.

Lemma updateFordypningVisualsOn_outside w s :
  outside_widgets (updateFordypningVisualsOn page w s) = outside_widgets s.
Proof.
  unfold updateFordypningVisualsOn, updateArrowPositionOn.
  destruct w; repeat case_match; reflexivity.
Qed.

Lemma updateFordypningVisualsOn_flags w w' s :
  flags_of w' (updateFordypningVisualsOn page w s) = flags_of w' s.
Proof.
  unfold updateFordypningVisualsOn, updateArrowPositionOn.
  destruct w, w'; repeat case_match; reflexivity.
Qed.

Lemma updateFordypningVisualsOn_selected w s :
  selected (updateFordypningVisualsOn page w s) = selected s.
Proof.
  unfold updateFordypningVisualsOn, updateArrowPositionOn.
  destruct w; repeat case_match; reflexivity.
Qed.

Lemma deselect_if_requires_outside w fagId st key :
  outside_widgets (deselect_if_requires page w fagId st key) = outside_widgets st.
Proof.
  unfold deselect_if_requires. destruct w; repeat case_match; reflexivity.
Qed.

Lemma cascade_outside w fagId ks st :
  outside_widgets (foldl (deselect_if_requires page w fagId) st ks) = outside_widgets st.
Proof.
  revert st. induction ks as [|k ks IH]; intros st; simpl; [done|].
  by rewrite IH, deselect_if_requires_outside.
Qed.

Lemma handleFagClickOn_outside w i c s :
  outside_widgets (handleFagClickOn page w i c s) = outside_widgets s.
Proof.
  unfold handleFagClickOn. case_match; [done|].
  rewrite updateFordypningVisualsOn_outside. case_match.
  - rewrite cascade_outside. by destruct w.
  - by destruct w.
Qed.

Lemma click_cell_outside i s :
  outside_widgets (click_cell page i s) = outside_widgets s.
Proof.
  unfold click_cell, handleFagClick, handleFagClickSlide11.
  repeat case_match; auto using handleFagClickOn_outside.
Qed.

Lemma resetInteractiveOn_outside w s :
  outside_widgets (resetInteractiveOn page w s) = outside_widgets s.
Proof. unfold resetInteractiveOn. destruct w; case_match; reflexivity. Qed.

(** *** Navigation *)

Lemma originalGoToSlide_out_of_range n s :
  n < 1 ∨ totalSlides < n → originalGoToSlide page n s = Returned s.
Proof.
  intros H. unfold originalGoToSlide.
  destruct (n <? 1) eqn:E1; [done|]. destruct (totalSlides <? n) eqn:E2; [done|]. lia.
Qed.

Lemma originalGoToSlide_reveal_part n s :
  reveal_part (state_of (originalGoToSlide page n s)) = reveal_part s.
Proof. unfold originalGoToSlide. repeat case_match; reflexivity. Qed.

Lemma originalGoToSlide_widgets n s :
  widgets (state_of (originalGoToSlide page n s)) = widgets s.
Proof. unfold originalGoToSlide. repeat case_match; reflexivity. Qed.

Lemma originalGoToSlide_popups n s :
  popups (state_of (originalGoToSlide page n s)) = popups s.
Proof. unfold originalGoToSlide. repeat case_match; reflexivity. Qed.

Lemma after_resets_outside n s :
  outside_widgets (after_resets page n s) = outside_widgets s.
Proof.
  unfold after_resets, resetInteractiveSlide10, resetInteractiveSlide11.
  repeat case_match; rewrite ?resetInteractiveOn_outside; done.
Qed.

Lemma goToSlide_unfold n s :
  goToSlide page n s =
  match originalGoToSlide page n (after_resets page n s) with
  | Returned s3 => Returned (updateClickRevealIndicator page s3)
  | Threw s3 => Threw s3
  end.
Proof. reflexivity. Qed.

Lemma goToSlide_reveal_part n s :
  reveal_part (state_of (goToSlide page n s)) = reveal_part s.
Proof.
  rewrite goToSlide_unfold.
  pose proof (originalGoToSlide_reveal_part n (after_resets page n s)) as H.
  pose proof (after_resets_outside n s) as H'.
  apply outside_fields in H' as (_ & H' & _).
  destruct (originalGoToSlide page n (after_resets page n s)); simpl in *;
    (etrans; [|exact H']); (etrans; [|exact H]); reflexivity.
Qed.

Lemma goToSlide_popups n s :
  popups (state_of (goToSlide page n s)) = popups s.
Proof.
  rewrite goToSlide_unfold.
  pose proof (originalGoToSlide_popups n (after_resets page n s)) as H.
  pose proof (after_resets_outside n s) as H'.
  apply outside_fields in H' as (_ & _ & _ & _ & H' & _).
  destruct (originalGoToSlide page n (after_resets page n s)); simpl in *;
    (etrans; [|exact H']); (etrans; [|exact H]); reflexivity.
Qed.

Lemma goToSlide_current n s :
  currentSlide (state_of (goToSlide page n s)) =
  if (n <? 1) || (totalSlides <? n) then currentSlide s else n.
Proof.
  rewrite goToSlide_unfold.
  pose proof (after_resets_outside n s) as H'.
  apply outside_fields in H' as (H' & _).
  unfold originalGoToSlide.
  destruct ((n <? 1) || (totalSlides <? n)); [exact H'|].
  destruct (slides page !! n); reflexivity.
Qed.

(** *** The reveal counter *)

Lemma element_count_nonneg n : 0 ≤ element_count page n.
Proof. unfold element_count. case_match; lia. Qed.

Lemma counters_in_range_same s s' :
  clickRevealState s' = clickRevealState s →
  counters_in_range page s → counters_in_range page s'.
Proof. unfold counters_in_range. by intros ->. Qed.

Lemma counters_in_range_insert s s' n v :
  clickRevealState s' = <[n := v]> (clickRevealState s) →
  0 ≤ v ≤ element_count page n →
  counters_in_range page s → counters_in_range page s'.
Proof.
  unfold counters_in_range. intros -> Hv Hs m w.
  rewrite lookup_insert. case_decide; [|by apply Hs].
  intros [= <-]. by subst.
Qed.

Lemma counter_in_range s :
  counters_in_range page s →
  0 ≤ counter s ≤ element_count page (currentSlide s).
Proof.
  intros H. unfold counter.
  destruct (clickRevealState s !! currentSlide s) as [v|] eqn:E; simpl.
  - by apply H.
  - pose proof (element_count_nonneg (currentSlide s)). lia.
Qed.

Lemma revealNextElement_exhausted s :
  element_count page (currentSlide s) ≤ counter s →
  revealNextElement page s = (false, s).
Proof.
  unfold revealNextElement, element_count.
  destruct (slides page !! currentSlide s) as [sl|]; [|done].
  intros H. by rewrite (proj2 (Z.leb_le _ _) H).
Qed.

Lemma hideLastRevealedElement_at_zero s :
  counter s ≤ 0 → hideLastRevealedElement page s = (false, s).
Proof.
  unfold hideLastRevealedElement. intros H.
  destruct (active_slide page s) as [[a sl]|]; [|done].
  destruct (click_reveal sl); simpl; [|done].
  by rewrite (proj2 (Z.leb_le _ _) H).
Qed.

Lemma revealNextElement_steps s sl :
  slides page !! currentSlide s = Some sl →
  counter s < Z.of_nat (length (delays sl)) →
  revealNextElement page s =
  (true,
   set_clickRevealState
     (<[currentSlide s := counter s + 1]> (clickRevealState s))
     match find_delay (delays sl) (counter s) with
     | Some j => set_visible (visible s ∪ {[ (currentSlide s, j) ]}) s
     | None => s
     end).
Proof.
  intros Hsl Hlt. unfold revealNextElement. rewrite Hsl.
  by rewrite (proj2 (Z.leb_gt _ _) Hlt).
Qed.

Lemma revealNextElement_in_range s :
  counters_in_range page s → counters_in_range page (revealNextElement page s).2.
Proof.
  intros H. pose proof (counter_in_range s H) as Hc.
  unfold revealNextElement, element_count in *.
  destruct (slides page !! currentSlide s) as [sl|] eqn:Hsl; [|done].
  destruct (Z.leb_spec (Z.of_nat (length (delays sl))) (counter s)); [done|].
  simpl. eapply counters_in_range_insert, H.
  - by case_match.
  - unfold element_count. rewrite Hsl. lia.
Qed.

Lemma hideLastRevealedElement_in_range s :
  counters_in_range page s → counters_in_range page (hideLastRevealedElement page s).2.
Proof.
  intros H. pose proof (counter_in_range s H) as Hc.
  unfold hideLastRevealedElement.
  destruct (active_slide page s) as [[a sl]|]; [|done].
  destruct (click_reveal sl); simpl; [|done].
  destruct (Z.leb_spec (counter s) 0); [done|].
  simpl. eapply counters_in_range_insert, H.
  - by case_match.
  - lia.
Qed.

Lemma animateSlide_in_range n s :
  counters_in_range page s → counters_in_range page (animateSlide page n s).
Proof.
  intros H. unfold animateSlide. repeat case_match; try done.
  eapply counters_in_range_insert, H; [reflexivity|].
  pose proof (element_count_nonneg n). lia.
Qed.

Lemma goToSlide_in_range n s :
  counters_in_range page s → counters_in_range page (state_of (goToSlide page n s)).
Proof.
  apply counters_in_range_same.
  pose proof (goToSlide_reveal_part n s) as H. by injection H.
Qed.

Lemma reveal_or_advance_in_range s :
  counters_in_range page s → counters_in_range page (reveal_or_advance page s).
Proof.
  intros H. unfold reveal_or_advance, nextSlide.
  case_match; [by apply revealNextElement_in_range|by apply goToSlide_in_range].
Qed.

Lemma handleKeydown_in_range k s :
  counters_in_range page s → counters_in_range page (handleKeydown page k s).
Proof.
  intros H. unfold handleKeydown, prevSlide.
  destruct k; try done;
    try (by apply reveal_or_advance_in_range); try (by apply goToSlide_in_range).
  case_match; [|done].
  pose proof (hideLastRevealedElement_in_range s H).
  by case_match.
Qed.

Lemma keydown_after_handleKeydown k s :
  keydown page k s =
  if is_escape k
  then closeQrModal (closeImageModal (closeAllSpeechBubbles (handleKeydown page k s)))
  else handleKeydown page k s.
Proof.
  unfold keydown, keydown_listeners. simpl.
  destruct (is_escape k); simpl; [|done].
  destruct (handleKeydown page k s) as [? ? ? ? ? ? ? ? ? ? ? ? im qr ? ? ?].
  by destruct im, qr.
Qed.

Lemma step_in_range e s :
  counters_in_range page s → counters_in_range page (step page e s).
Proof.
  intros H. destruct e; simpl; try done.
  - rewrite keydown_after_handleKeydown.
    pose proof (handleKeydown_in_range k s H). by case_match.
  - unfold handleTouchEnd, handleSwipe, prevSlide. repeat case_match; try done.
    + by apply reveal_or_advance_in_range.
    + by apply goToSlide_in_range.
  - by apply goToSlide_in_range.
  - by apply goToSlide_in_range.
  - repeat case_match; try done. by apply goToSlide_in_range.
  - unfold handleSlideContainerClick. repeat case_match; try done.
    by apply (revealNextElement_in_range s).
  - eapply counters_in_range_same, H.
    pose proof (click_cell_outside i s) as (_ & Hr & _)%outside_fields.
    by injection Hr.
  - unfold toggleSpeechBubble. by case_match.
  - by case_match.
  - unfold fire. case_match; [|done].
    destruct t; simpl; try done.
    + case_match; [|done]. by apply animateSlide_in_range.
    + by apply animateSlide_in_range.
Qed.

Lemma run_snoc es e s : run page (es ++ [e]) s = step page e (run page es s).
Proof. unfold run. by rewrite foldl_snoc. Qed.

Lemma reachable_in_range s : reachable page s → counters_in_range page s.
Proof.
  intros [es ->]. induction es as [|e es IH] using rev_ind.
  - intros n v. simpl. by rewrite lookup_empty.
  - rewrite run_snoc. by apply step_in_range.
Qed.

Lemma apply_reveal_ops_in_range ops s :
  counters_in_range page s → counters_in_range page (foldl (apply_reveal_op page) s ops).
Proof.
  revert s. induction ops as [|o ops IH]; intros s H; simpl; [done|].
  apply IH. destruct o; simpl.
  - by apply revealNextElement_in_range.
  - by apply hideLastRevealedElement_in_range.
Qed.

(** *** Forward input *)

Lemma forward_step e s :
  is_forward e s = true →
  ∃ s0, step page e s = reveal_or_advance page s0 ∧
        currentSlide s0 = currentSlide s ∧ reveal_part s0 = reveal_part s.
Proof.
  destruct e; simpl; try done; intros H.
  - exists s. rewrite keydown_after_handleKeydown. by destruct k.
  - exists (set_touchEndX x s). split; [|done].
    unfold handleTouchEnd, handleSwipe. simpl.
    apply Z.ltb_lt in H.
    rewrite (proj2 (Z.ltb_lt 50 (Z.abs (touchStartX s - x)))) by lia.
    by rewrite (proj2 (Z.ltb_lt 0 (touchStartX s - x))) by lia.
Qed.

Lemma counter_same s s0 :
  currentSlide s0 = currentSlide s → reveal_part s0 = reveal_part s →
  counter s0 = counter s.
Proof. unfold counter. intros -> [= -> _]. done. Qed.

Lemma reveal_or_advance_reveals s sl :
  slides page !! currentSlide s = Some sl →
  click_reveal sl = true →
  counter s < Z.of_nat (length (delays sl)) →
  let s' := reveal_or_advance page s in
  currentSlide s' = currentSlide s ∧
  clickRevealState s' = <[currentSlide s := counter s + 1]> (clickRevealState s) ∧
  visible s' =
    match find_delay (delays sl) (counter s) with
    | Some j => visible s ∪ {[ (currentSlide s, j) ]}
    | None => visible s
    end.
Proof.
  intros Hsl Hcr Hlt. unfold reveal_or_advance, isCurrentSlideClickReveal, allElementsRevealed.
  rewrite Hsl, Hcr, (proj2 (Z.leb_gt _ _) Hlt). simpl.
  rewrite (revealNextElement_steps s sl Hsl Hlt). simpl.
  by destruct (find_delay (delays sl) (counter s)).
Qed.

Lemma reveal_or_advance_advances s sl :
  slides page !! currentSlide s = Some sl →
  Z.of_nat (length (delays sl)) ≤ counter s →
  reveal_or_advance page s = state_of (nextSlide page s).
Proof.
  intros Hsl Hle. unfold reveal_or_advance, isCurrentSlideClickReveal, allElementsRevealed.
  rewrite Hsl, (proj2 (Z.leb_le _ _) Hle). by rewrite andb_false_r.
Qed.

Lemma find_delay_NoDup ds idx (j : nat) :
  NoDup ds → ds !! j = Some (Some idx) → find_delay ds idx = Some j.
Proof.
  intros Hnd Hj. apply find_delay_last; [done|].
  intros k Hk Hk'. pose proof (NoDup_lookup ds j k _ Hnd Hj Hk'). lia.
Qed.

(** C3: along every run of the presentation, followed by any sequence of
    direct reveal-next and reveal-previous calls, every per-slide reveal
    counter stays within [0, number of tagged elements of the slide];
    [revealNextElement] changes nothing and returns [false] once the
    counter has reached the element count, and
    [hideLastRevealedElement] changes nothing and returns [false] when
    the counter is 0. *)
Theorem reveal_counter_within_bounds (es : list event) (ops : list reveal_op) :
  let s := foldl (apply_reveal_op page) (run page es init_state) ops in
  counters_in_range page s ∧
  0 ≤ counter s ≤ element_count page (currentSlide s) ∧
  (counter s = element_count page (currentSlide s) →
   revealNextElement page s = (false, s)) ∧
  (counter s = 0 → hideLastRevealedElement page s = (false, s)).
Proof.
  intros s.
  assert (counters_in_range page s) as H.
  { apply apply_reveal_ops_in_range, reachable_in_range. by eexists. }
  split; [done|]. split; [by apply counter_in_range|]. split.
  - intros E. apply revealNextElement_exhausted. lia.
  - intros E. apply hideLastRevealedElement_at_zero. lia.
Qed.

(** C10: whenever the counter of the current slide is strictly below
    the number of its tagged elements, [revealNextElement] returns [true]
    and raises the counter by one; when no tagged element carries the
    counter's value as its ordinal, no element becomes visible, so a
    forward input on such a reveal-enabled slide is used up (counter up
    by one, same slide) without showing anything. *)
Theorem reveal_consumes_gap (s : state) (sl : slide_el) :
  slides page !! currentSlide s = Some sl →
  counter s < Z.of_nat (length (delays sl)) →
  (revealNextElement page s).1 = true ∧
  counter (revealNextElement page s).2 = counter s + 1 ∧
  currentSlide (revealNextElement page s).2 = currentSlide s ∧
  (Some (counter s) ∉ delays sl →
   visible (revealNextElement page s).2 = visible s ∧
   ∀ e, is_forward e s = true → click_reveal sl = true →
        currentSlide (step page e s) = currentSlide s ∧
        counter (step page e s) = counter s + 1 ∧
        visible (step page e s) = visible s).
Proof.
  intros Hsl Hlt. rewrite (revealNextElement_steps s sl Hsl Hlt). simpl.
  split; [done|]. split.
  { unfold counter at 1. simpl.
    destruct (find_delay (delays sl) (counter s)); simpl; by rewrite lookup_insert_eq. }
  split; [by destruct (find_delay (delays sl) (counter s))|].
  intros Hgap. rewrite (find_delay_none _ _ Hgap). split; [done|].
  intros e He Hcr.
  destruct (forward_step e s He) as (s0 & -> & Hc & Hr).
  pose proof (counter_same s s0 Hc Hr) as Hk.
  destruct (reveal_or_advance_reveals s0 sl) as (H1 & H2 & H3).
  { by rewrite Hc. } { done. } { by rewrite Hk. }
  injection Hr as Hr1 Hr2.
  split; [congruence|]. split.
  - unfold counter at 1. rewrite H1, H2, Hc, Hk. by rewrite lookup_insert_eq.
  - rewrite H3, Hk, (find_delay_none _ _ Hgap). done.
Qed.

Lemma forward_reveal e s sl :
  is_forward e s = true →
  slides page !! currentSlide s = Some sl →
  click_reveal sl = true →
  counter s < Z.of_nat (length (delays sl)) →
  currentSlide (step page e s) = currentSlide s ∧
  counter (step page e s) = counter s + 1 ∧
  visible (step page e s) =
    match find_delay (delays sl) (counter s) with
    | Some j => visible s ∪ {[ (currentSlide s, j) ]}
    | None => visible s
    end.
Proof.
  intros He Hsl Hcr Hlt.
  destruct (forward_step e s He) as (s0 & -> & Hc & Hr).
  pose proof (counter_same s s0 Hc Hr) as Hk.
  destruct (reveal_or_advance_reveals s0 sl) as (H1 & H2 & H3).
  { by rewrite Hc. } { done. } { by rewrite Hk. }
  injection Hr as Hr1 Hr2.
  split; [congruence|]. split.
  - unfold counter at 1. rewrite H1, H2, Hc, Hk. by rewrite lookup_insert_eq.
  - rewrite H3, Hk, Hc, Hr2. done.
Qed.

Lemma forward_advance e s sl :
  is_forward e s = true →
  slides page !! currentSlide s = Some sl →
  Z.of_nat (length (delays sl)) ≤ counter s →
  currentSlide (step page e s) =
    (if (currentSlide s + 1 <? 1) || (totalSlides <? currentSlide s + 1)
     then currentSlide s else currentSlide s + 1) ∧
  reveal_part (step page e s) = reveal_part s.
Proof.
  intros He Hsl Hle.
  destruct (forward_step e s He) as (s0 & -> & Hc & Hr).
  pose proof (counter_same s s0 Hc Hr) as Hk.
  rewrite (reveal_or_advance_advances s0 sl) by (by rewrite ?Hc, ?Hk).
  unfold nextSlide. rewrite goToSlide_current, goToSlide_reveal_part, Hc. done.
Qed.

Lemma nextSlide_on_last_slide s sl :
  slides page !! currentSlide s = Some sl →
  Z.of_nat (length (delays sl)) ≤ counter s →
  totalSlides ≤ currentSlide s →
  reveal_or_advance page s = set_indicator false s.
Proof.
  intros Hsl Hle Hlast. rewrite (reveal_or_advance_advances s sl Hsl Hle).
  unfold nextSlide. rewrite goToSlide_unfold.
  rewrite originalGoToSlide_out_of_range by lia. simpl.
  assert (after_resets page (currentSlide s + 1) s = s) as ->.
  { unfold after_resets, totalSlides in *.
    rewrite (proj2 (Z.eqb_neq (currentSlide s) 10)) by lia. simpl.
    by rewrite (proj2 (Z.eqb_neq (currentSlide s) 11)) by lia. }
  unfold updateClickRevealIndicator, allElementsRevealed.
  rewrite Hsl, (proj2 (Z.leb_le _ _) Hle). by rewrite andb_false_r.
Qed.

Lemma forward_on_last_slide e s sl :
  is_forward e s = true →
  slides page !! currentSlide s = Some sl →
  Z.of_nat (length (delays sl)) ≤ counter s →
  totalSlides ≤ currentSlide s →
  step page e s =
    set_indicator false
      match e with
      | TouchEnd x => set_touchEndX x s
      | _ => s
      end.
Proof.
  intros He Hsl Hle Hlast. destruct e; simpl in He; try done.
  - simpl. rewrite keydown_after_handleKeydown.
    assert (handleKeydown page k s = reveal_or_advance page s) as -> by by destruct k.
    assert (is_escape k = false) as -> by by destruct k.
    by apply (nextSlide_on_last_slide s sl).
  - simpl. unfold handleTouchEnd, handleSwipe. simpl.
    apply Z.ltb_lt in He.
    rewrite (proj2 (Z.ltb_lt 50 (Z.abs (touchStartX s - x)))) by lia.
    rewrite (proj2 (Z.ltb_lt 0 (touchStartX s - x))) by lia.
    by apply (nextSlide_on_last_slide (set_touchEndX x s) sl).
Qed.

(** C4 (amended): a forward input (a forward key, or a swipe to the
    left beyond the threshold) on a reveal-enabled slide whose counter is
    below the tagged-element count performs exactly one reveal step and
    keeps the current slide; once the counter has reached the count the
    same input calls [nextSlide], which advances by one slide when the
    current slide is not the last.  On the last slide the call is out
    of range: the current slide and the reveal state stay as they are,
    and the one thing that changes is the click-reveal indicator, which
    the wrapper refreshes and which is then off (a swipe records its
    end position as always).  On a slide with ordinals 0, 1, 2 and a
    counter at 0, three forward inputs show the elements tagged 0, 1, 2
    in that order and a fourth advances, the slide not being the
    last. *)
Theorem forward_input_reveals_before_advancing (e : event) (s : state) (sl : slide_el) :
  is_forward e s = true →
  slides page !! currentSlide s = Some sl →
  click_reveal sl = true →
  (counter s < Z.of_nat (length (delays sl)) →
   currentSlide (step page e s) = currentSlide s ∧
   counter (step page e s) = counter s + 1 ∧
   visible (step page e s) =
     match find_delay (delays sl) (counter s) with
     | Some j => visible s ∪ {[ (currentSlide s, j) ]}
     | None => visible s
     end) ∧
  (Z.of_nat (length (delays sl)) ≤ counter s →
   reveal_part (step page e s) = reveal_part s ∧
   (0 ≤ currentSlide s < totalSlides →
    currentSlide (step page e s) = currentSlide s + 1) ∧
   (totalSlides ≤ currentSlide s →
    currentSlide (step page e s) = currentSlide s ∧
    step page e s =
      set_indicator false
        match e with
        | TouchEnd x => set_touchEndX x s
        | _ => s
        end)) ∧
  (∀ e2 e3 e4 (p0 p1 p2 : nat),
     delays sl ≡ₚ [Some 0; Some 1; Some 2] →
     counter s = 0 →
     delays sl !! p0 = Some (Some 0) →
     delays sl !! p1 = Some (Some 1) →
     delays sl !! p2 = Some (Some 2) →
     let s1 := step page e s in
     let s2 := step page e2 s1 in
     let s3 := step page e3 s2 in
     let s4 := step page e4 s3 in
     is_forward e2 s1 = true → is_forward e3 s2 = true → is_forward e4 s3 = true →
     visible s1 = visible s ∪ {[ (currentSlide s, p0) ]} ∧
     visible s2 = visible s1 ∪ {[ (currentSlide s, p1) ]} ∧
     visible s3 = visible s2 ∪ {[ (currentSlide s, p2) ]} ∧
     currentSlide s3 = currentSlide s ∧
     (0 ≤ currentSlide s < totalSlides → currentSlide s4 = currentSlide s + 1)).
Proof.
  intros He Hsl Hcr. split; [by apply forward_reveal|]. split.
  { intros Hle. destruct (forward_advance e s sl He Hsl Hle) as [Hc Hr].
    split; [done|]. rewrite Hc. split; intros Hrange.
    - rewrite (proj2 (Z.ltb_ge _ _)), (proj2 (Z.ltb_ge _ _)) by lia. done.
    - split; [by rewrite (proj2 (Z.ltb_lt totalSlides _)), orb_true_r by lia|].
      by apply (forward_on_last_slide e s sl). }
  intros e2 e3 e4 p0 p1 p2 Hperm H0 Hp0 Hp1 Hp2 s1 s2 s3 s4 He2 He3 He4.
  assert (NoDup (delays sl)) as Hnd.
  { rewrite Hperm. compute_done. }
  assert (length (delays sl) = 3%nat) as Hlen by by rewrite Hperm.
  destruct (forward_reveal e s sl He Hsl Hcr) as (C1 & K1 & V1); [lia|].
  fold s1 in C1, K1, V1.
  rewrite H0, (find_delay_NoDup _ _ p0 Hnd Hp0) in V1.
  destruct (forward_reveal e2 s1 sl He2) as (C2 & K2 & V2);
    [by rewrite C1|done|lia|].
  fold s2 in C2, K2, V2. rewrite K1, H0, C1 in V2. change (0 + 1) with 1 in V2.
  rewrite (find_delay_NoDup _ _ p1 Hnd Hp1) in V2.
  destruct (forward_reveal e3 s2 sl He3) as (C3 & K3 & V3);
    [by rewrite C2, C1|done|lia|].
  fold s3 in C3, K3, V3. rewrite K2, K1, H0, C2, C1 in V3. change (0 + 1 + 1) with 2 in V3.
  rewrite (find_delay_NoDup _ _ p2 Hnd Hp2) in V3.
  destruct (forward_advance e4 s3 sl He4) as [C4 _];
    [by rewrite C3, C2, C1|lia|].
  fold s4 in C4.
  repeat split; try done.
  - by rewrite C3, C2, C1.
  - intros Hrange. rewrite C4, C3, C2, C1.
    rewrite (proj2 (Z.ltb_ge _ _)), (proj2 (Z.ltb_ge _ _)) by lia. done.
Qed.

(** *** Creation and persistence of the reveal counter *)

Lemma goToSlide_pending n s :
  1 ≤ n ≤ totalSlides → is_Some (slides page !! n) →
  pending (state_of (goToSlide page n s)) = (pending s ++ [TAnimate n])%list.
Proof.
  intros Hn [sl Hsl]. rewrite goToSlide_unfold.
  pose proof (after_resets_outside n s) as (_ & _ & _ & _ & _ & Hq & _)%outside_fields.
  unfold originalGoToSlide.
  rewrite (proj2 (Z.ltb_ge _ _)), (proj2 (Z.ltb_ge _ _)), Hsl by lia.
  simpl. by rewrite Hq.
Qed.

(** C9 (amended): the per-slide reveal counter does not exist at load;
    entering a reveal-enabled slide leaves the counters alone and
    schedules the entry animation, which creates the slide's counter at
    0 if it does not exist yet and keeps it otherwise; no navigation
    resets a counter, so a slide's counter is the same after leaving
    the slide and returning to it. *)
Theorem reveal_counter_lazy_and_kept (n : Z) (s : state) (sl : slide_el) :
  slides page !! n = Some sl →
  click_reveal sl = true →
  1 ≤ n ≤ totalSlides →
  clickRevealState init_state !! n = None ∧
  (let entered := state_of (goToSlide page n s) in
   clickRevealState entered = clickRevealState s ∧
   pending entered = (pending s ++ [TAnimate n])%list ∧
   clickRevealState (fire page (length (pending s)) entered) =
     match clickRevealState s !! n with
     | None => <[n := 0]> (clickRevealState s)
     | Some _ => clickRevealState s
     end) ∧
  (∀ m, clickRevealState (state_of (goToSlide page m s)) = clickRevealState s) ∧
  (∀ m, clickRevealState
          (state_of (goToSlide page n (state_of (goToSlide page m s)))) =
        clickRevealState s).
Proof.
  intros Hsl Hcr Hn.
  assert (∀ m t, clickRevealState (state_of (goToSlide page m t)) = clickRevealState t)
    as Hkeep.
  { intros m t. pose proof (goToSlide_reveal_part m t) as H. by injection H. }
  split; [apply lookup_empty|]. split; [|split].
  - intros entered. split; [apply Hkeep|].
    pose proof (goToSlide_pending n s Hn (mk_is_Some _ _ Hsl)) as Hp.
    fold entered in Hp. split; [done|].
    unfold fire. rewrite Hp, lookup_app_r, Nat.sub_diag by lia. simpl.
    unfold animateSlide. rewrite Hsl, Hcr. simpl.
    unfold entered. rewrite Hkeep.
    destruct (clickRevealState s !! n); simpl; by rewrite ?Hkeep.
  - intros m. apply Hkeep.
  - intros m. by rewrite !Hkeep.
Qed.

(** *** Escape *)

Lemma handleKeydown_popups k s : popups (handleKeydown page k s) = popups s.
Proof.
  unfold handleKeydown, reveal_or_advance, nextSlide, prevSlide.
  destruct k; try done; try apply goToSlide_popups.
  - case_match; [|apply goToSlide_popups].
    unfold revealNextElement. by repeat case_match.
  - case_match; [|apply goToSlide_popups].
    unfold revealNextElement. by repeat case_match.
  - case_match; [|apply goToSlide_popups].
    unfold revealNextElement. by repeat case_match.
  - case_match; [|apply goToSlide_popups].
    unfold revealNextElement. by repeat case_match.
  - unfold hideLastRevealedElement. by repeat case_match.
Qed.

(** C8 (amended): on an Escape press the keyboard handler runs first and
    leaves bubbles and modals as they are; on a reveal-enabled active
    slide with a positive counter it takes one reveal step back, whether
    or not a bubble or a modal is open; the later listeners of the same
    keypress then close every speech bubble, the image modal and the QR
    modal, and touch nothing else. *)
Theorem escape_steps_back_then_closes_popups (s : state) (sl : slide_el) :
  let h := handleKeydown page Escape s in
  let s' := keydown page Escape s in
  popups h = popups s ∧
  s' = closeQrModal (closeImageModal (closeAllSpeechBubbles h)) ∧
  popups s' = (∅, false, false) ∧
  currentSlide s' = currentSlide s ∧
  (active s = Some (currentSlide s) →
   slides page !! currentSlide s = Some sl →
   click_reveal sl = true →
   0 < counter s →
   counter s' = counter s - 1 ∧
   visible s' =
     match find_delay (delays sl) (counter s - 1) with
     | Some j => visible s ∖ {[ (currentSlide s, j) ]}
     | None => visible s
     end).
Proof.
  intros h s'. split; [apply handleKeydown_popups|].
  split; [apply keydown_after_handleKeydown|].
  unfold s'. rewrite keydown_after_handleKeydown. simpl.
  split; [done|]. split.
  { unfold h, handleKeydown, hideLastRevealedElement. by repeat case_match. }
  intros Ha Hsl Hcr Hpos.
  unfold h, handleKeydown, isCurrentSlideClickReveal, hideLastRevealedElement, active_slide.
  rewrite Ha, Hsl, Hcr. simpl.
  rewrite (proj2 (Z.leb_gt _ _)) by lia. simpl. split.
  - unfold counter at 1. simpl.
    destruct (find_delay (delays sl) (counter s - 1)); simpl; by rewrite lookup_insert_eq.
  - by destruct (find_delay (delays sl) (counter s - 1)).
Qed.

(** *** The widgets: element lookup *)

Lemma query_fag_Some w key j o :
  query_fag page w key = Some (j, o) →
  cells page !! j = Some o ∧ in_lookup_scope w o ∧ fag o = key.
Proof.
  unfold query_fag. intros (H1 & [H2 H3] & _)%list_find_Some. done.
Qed.

Lemma query_fag_unique w i c :
  unique_in_scope page w →
  cells page !! i = Some c → in_lookup_scope w c →
  query_fag page w (fag c) = Some (i, c).
Proof.
  intros HU Hi Hsc. unfold query_fag. apply list_find_Some.
  split; [done|]. split; [done|].
  intros j d Hj Hlt [Hd1 Hd2].
  pose proof (HU j i d c Hj Hi Hd1 Hsc Hd2). lia.
Qed.

Lemma widget_cell_in_scope w i c :
  cells page !! i = Some c → widget_cell page w i = true → in_lookup_scope w c.
Proof.
  unfold widget_cell. intros ->. intros [H _]%andb_true_iff.
  destruct w; simpl in *; [done|]. by apply Z.eqb_eq in H.
Qed.

Lemma widget_cell_exclusive w w' i :
  widget_cell page w i = true → widget_cell page w' i = true → w = w'.
Proof.
  unfold widget_cell. destruct (cells page !! i); [|done].
  intros [H _]%andb_true_iff [H' _]%andb_true_iff.
  apply Z.eqb_eq in H, H'. destruct w, w'; simpl in *; congruence.
Qed.

(** *** The widgets: reading the store back after a write *)

Lemma flags_of_set_flags_of w v s : flags_of w (set_flags_of w v s) = v.
Proof. by destruct w. Qed.

Lemma selected_set_flags_of w v s : selected (set_flags_of w v s) = selected s.
Proof. by destruct w. Qed.

(** *** The cascade *)

Lemma deselect_if_requires_flags w fagId st key k :
  get_flag (flags_of w (deselect_if_requires page w fagId st key)) k =
  get_flag (flags_of w st) k
  && negb (bool_decide (k = key) && depends_on page w fagId k).
Proof.
  unfold deselect_if_requires, depends_on.
  case_bool_decide as E.
  - subst k. destruct (query_fag page w key) as [[j o]|]; [|by rewrite andb_true_r].
    destruct (same_string (requires o) fagId); simpl; [|by rewrite andb_true_r].
    unfold unmark. simpl.
    change (flags_of w (set_selected ?v ?s)) with (flags_of w s).
    rewrite flags_of_set_flags_of, get_set_flag_eq. by rewrite andb_false_r.
  - simpl. rewrite andb_true_r.
    destruct (query_fag page w key) as [[j o]|]; [|done].
    destruct (same_string (requires o) fagId); [|done].
    unfold unmark.
    replace (flags_of w (set_selected _ _))
      with (set_flag key false (flags_of w st)); [by apply get_set_flag_ne|].
    destruct w; simpl; done.
Qed.

Lemma cascade_flags w fagId ks st k :
  get_flag (flags_of w (foldl (deselect_if_requires page w fagId) st ks)) k =
  get_flag (flags_of w st) k
  && negb (bool_decide (k ∈ ks) && depends_on page w fagId k).
Proof.
  revert st. induction ks as [|key ks IH]; intros st; cbn [foldl].
  - rewrite bool_decide_eq_false_2 by apply not_elem_of_nil. by rewrite andb_true_r.
  - rewrite IH, deselect_if_requires_flags.
    destruct (get_flag (flags_of w st) k); [|done]. simpl.
    destruct (depends_on page w fagId k); [|by rewrite !andb_false_r].
    rewrite !andb_true_r, <- negb_orb, <- bool_decide_or. f_equal.
    apply bool_decide_ext. by rewrite elem_of_cons.
Qed.

Lemma deselect_if_requires_selected w fagId st key j :
  j ∈ selected (deselect_if_requires page w fagId st key) ↔
  j ∈ selected st ∧
  ¬ ∃ o, query_fag page w key = Some (j, o) ∧ same_string (requires o) fagId = true.
Proof.
  unfold deselect_if_requires.
  destruct (query_fag page w key) as [[j' o]|] eqn:Hq.
  2: { split; [|by intros [H _]].
       intros H. split; [done|]. by intros (o & [=] & _). }
  destruct (same_string (requires o) fagId) eqn:E.
  2: { split; [|by intros [H _]].
       intros H. split; [done|]. intros (o' & [= <- <-] & Hr). congruence. }
  unfold unmark. simpl.
  rewrite selected_set_flags_of, elem_of_difference, elem_of_singleton.
  split.
  - intros [H Hne]. split; [done|]. by intros (o' & [= <- <-] & _).
  - intros [H Hn]. split; [done|]. intros ->. apply Hn. by exists o.
Qed.

Lemma cascade_selected w fagId ks st j :
  j ∈ selected (foldl (deselect_if_requires page w fagId) st ks) ↔
  j ∈ selected st ∧
  ¬ ∃ key o, key ∈ ks ∧ query_fag page w key = Some (j, o)
             ∧ same_string (requires o) fagId = true.
Proof.
  revert st. induction ks as [|key ks IH]; intros st; cbn [foldl].
  - split; [|by intros [H _]]. intros H. split; [done|].
    intros (key & o & []%elem_of_nil & _).
  - rewrite IH, deselect_if_requires_selected. split.
    + intros [[H1 H2] H3]. split; [done|].
      intros (key' & o & [->|Hin]%elem_of_cons & Hq & Hr).
      * apply H2. by exists o.
      * apply H3. by exists key', o.
    + intros [H1 H2]. split; [split; [done|]|].
      * intros (o & Hq & Hr). apply H2. exists key, o.
        split; [apply list_elem_of_here|done].
      * intros (key' & o & Hin & Hq & Hr). apply H2. exists key', o.
        split; [by apply list_elem_of_further|done].
Qed.

Lemma deselect_if_requires_rest w fagId st key :
  overlay10 (deselect_if_requires page w fagId st key) = overlay10 st ∧
  overlay11 (deselect_if_requires page w fagId st key) = overlay11 st ∧
  positioned (deselect_if_requires page w fagId st key) = positioned st ∧
  ∀ w', w ≠ w' →
    flags_of w' (deselect_if_requires page w fagId st key) = flags_of w' st.
Proof.
  unfold deselect_if_requires.
  destruct (query_fag page w key) as [[j o]|]; [|done].
  destruct (same_string (requires o) fagId); [|done].
  repeat split; try by destruct w.
  intros w' Hne. by destruct w, w'.
Qed.

Lemma cascade_rest w fagId ks st :
  overlay10 (foldl (deselect_if_requires page w fagId) st ks) = overlay10 st ∧
  overlay11 (foldl (deselect_if_requires page w fagId) st ks) = overlay11 st ∧
  positioned (foldl (deselect_if_requires page w fagId) st ks) = positioned st ∧
  ∀ w', w ≠ w' →
    flags_of w' (foldl (deselect_if_requires page w fagId) st ks) = flags_of w' st.
Proof.
  revert st. induction ks as [|key ks IH]; intros st; cbn [foldl]; [done|].
  destruct (IH (deselect_if_requires page w fagId st key)) as (H1 & H2 & H3 & H4).
  destruct (deselect_if_requires_rest w fagId st key) as (G1 & G2 & G3 & G4).
  repeat split; try congruence.
  intros w' Hne. by rewrite H4, G4.
Qed.

(** *** One click *)

(** The store a click leaves before the overlay is brought up to date. *)
Lemma handleFagClickOn_unfold w i c s :
  handleFagClickOn page w i c s =
  if unmet (requires c) (flags_of w s) then s
  else updateFordypningVisualsOn page w (toggle_cell page w i c s).
Proof. reflexivity. Qed.

Lemma toggle_cell_rest w i c s :
  overlay10 (toggle_cell page w i c s) = overlay10 s ∧
  overlay11 (toggle_cell page w i c s) = overlay11 s ∧
  positioned (toggle_cell page w i c s) = positioned s ∧
  ∀ w', w ≠ w' → flags_of w' (toggle_cell page w i c s) = flags_of w' s.
Proof.
  unfold toggle_cell. case_match.
  - destruct (cascade_rest w (fag c)
      (keys (flags_of w (unmark i (set_flags_of w (set_flag (fag c) false (flags_of w s)) s))))
      (unmark i (set_flags_of w (set_flag (fag c) false (flags_of w s)) s)))
      as (H1 & H2 & H3 & H4).
    rewrite H1, H2, H3. repeat split; try by destruct w.
    intros w' Hne. rewrite H4 by done. by destruct w, w'.
  - repeat split; try by destruct w.
    intros w' Hne. by destruct w, w'.
Qed.

Lemma toggle_cell_select w i c s :
  get_flag (flags_of w s) (fag c) = false →
  flags_of w (toggle_cell page w i c s) = set_flag (fag c) true (flags_of w s) ∧
  selected (toggle_cell page w i c s) = selected s ∪ {[ i ]}.
Proof. unfold toggle_cell. intros ->. by destruct w. Qed.

Lemma toggle_cell_deselect_flag w i c s k :
  get_flag (flags_of w s) (fag c) = true →
  get_flag (flags_of w (toggle_cell page w i c s)) k = true ↔
  k ≠ fag c ∧ get_flag (flags_of w s) k = true ∧ depends_on page w (fag c) k = false.
Proof.
  unfold toggle_cell. intros ->. rewrite cascade_flags.
  replace (flags_of w (unmark i (set_flags_of w (set_flag (fag c) false (flags_of w s)) s)))
    with (set_flag (fag c) false (flags_of w s)) by by destruct w.
  rewrite get_set_flag. case_decide as E.
  - subst k. simpl. split; [done|]. by intros [? _].
  - rewrite andb_true_iff, negb_true_iff, andb_false_iff. split.
    + intros [H1 [H2|H2]]; [|done].
      apply bool_decide_eq_false in H2. destruct H2.
      apply get_flag_true_key. by rewrite get_set_flag_ne.
    + intros (_ & H1 & H2). auto.
Qed.

Lemma toggle_cell_deselect_selected w i c s j :
  get_flag (flags_of w s) (fag c) = true →
  j ∈ selected (toggle_cell page w i c s) ↔
  j ≠ i ∧ j ∈ selected s ∧
  ¬ ∃ key o, key ∈ keys (set_flag (fag c) false (flags_of w s))
             ∧ query_fag page w key = Some (j, o)
             ∧ same_string (requires o) (fag c) = true.
Proof.
  unfold toggle_cell. intros ->. rewrite cascade_selected.
  replace (flags_of w (unmark i (set_flags_of w (set_flag (fag c) false (flags_of w s)) s)))
    with (set_flag (fag c) false (flags_of w s)) by by destruct w.
  unfold unmark. simpl.
  rewrite selected_set_flags_of, elem_of_difference, elem_of_singleton.
  split; [intros [[? ?] ?]|intros (? & ? & ?)]; done.
Qed.

Lemma updateFordypningVisualsOn_spec w s :
  is_Some (slides page !! widget_slide w) →
  let s' := updateFordypningVisualsOn page w s in
  let ca := pair_complete (flags_of w s) (first_pair w) in
  let cb := pair_complete (flags_of w s) (second_pair w) in
  overlay_of w s' = Overlay ca ca cb cb ∧
  positioned s' =
    (positioned s
     ++ (if ca && negb (arrow_a (overlay_of w s)) then [first_arrow w] else [])
     ++ (if cb && negb (arrow_b (overlay_of w s)) then [second_arrow w] else []))%list ∧
  ∀ w', w ≠ w' → overlay_of w' s' = overlay_of w' s.
Proof.
  intros [sl Hsl]. unfold updateFordypningVisualsOn, pair_complete. rewrite Hsl.
  destruct (get_flag (flags_of w s) (first_pair w).1 && get_flag (flags_of w s) (first_pair w).2);
    destruct (get_flag (flags_of w s) (second_pair w).1
              && get_flag (flags_of w s) (second_pair w).2);
    destruct (overlay_of w s) as [a1 r1 a2 r2] eqn:Ho; simpl.
  all: destruct a1, a2; simpl.
  all: repeat split.
  all: destruct w; simpl in *; rewrite ?Ho; simpl;
    rewrite ?app_nil_r, <- ?app_assoc; try done.
  all: intros w' Hne; destruct w'; first [congruence | reflexivity].
Qed.

Lemma toggle_cell_selected_subset w i c s j :
  j ∈ selected (toggle_cell page w i c s) → j ∈ selected s ∨ j = i.
Proof.
  destruct (get_flag (flags_of w s) (fag c)) eqn:E.
  - rewrite toggle_cell_deselect_selected by done. intros (_ & H & _). by left.
  - destruct (toggle_cell_select w i c s E) as [_ ->].
    rewrite elem_of_union, elem_of_singleton. done.
Qed.

(** *** The prerequisite invariant *)

Lemma toggle_cell_keeps_prerequisites w i c s :
  unique_in_scope page w → two_levels page w →
  cells page !! i = Some c → widget_cell page w i = true →
  unmet (requires c) (flags_of w s) = false →
  marks_follow_flags page w s → flags_respect_prerequisites page w s →
  marks_follow_flags page w (toggle_cell page w i c s) ∧
  flags_respect_prerequisites page w (toggle_cell page w i c s).
Proof.
  intros HU HD Hi Hw Hmet Hmarks Hpre.
  pose proof (widget_cell_in_scope w i c Hi Hw) as Hsc.
  destruct (get_flag (flags_of w s) (fag c)) eqn:E.
  - (* the unit is deselected and its dependents with it *)
    split.
    + intros i' c' Hi' Hw' Hsel.
      apply (toggle_cell_deselect_selected w i c s i' E) in Hsel as (Hne & Hsel & Hnot).
      pose proof (widget_cell_in_scope w i' c' Hi' Hw') as Hsc'.
      pose proof (Hmarks i' c' Hi' Hw' Hsel) as Hflag.
      assert (fag c' ≠ fag c) as Hfag.
      { intros Heq. apply Hne. by apply (HU i' i c' c). }
      apply toggle_cell_deselect_flag; [done|].
      split; [done|]. split; [done|].
      unfold depends_on. rewrite (query_fag_unique w i' c' HU Hi' Hsc').
      destruct (same_string (requires c') (fag c)) eqn:Hreq; [|done].
      destruct Hnot. exists (fag c'), c'. split; [|split; [|done]].
      * apply get_flag_true_key. by rewrite get_set_flag_ne.
      * by apply query_fag_unique.
    + intros i' c' p Hi' Hw' Hreq Hp Hflag.
      apply (toggle_cell_deselect_flag w i c s (fag c') E) in Hflag as (Hfag & Hflag & Hdep).
      pose proof (widget_cell_in_scope w i' c' Hi' Hw') as Hsc'.
      unfold depends_on in Hdep.
      rewrite (query_fag_unique w i' c' HU Hi' Hsc'), Hreq in Hdep. simpl in Hdep.
      apply toggle_cell_deselect_flag; [done|].
      split; [|split].
      * intros ->. by rewrite String.eqb_refl in Hdep.
      * by apply (Hpre i' c' p).
      * unfold depends_on.
        destruct (query_fag page w p) as [[j o]|] eqn:Hq; [|done].
        apply query_fag_Some in Hq as (Hj & Hsj & Hfj).
        rewrite (HD i' j c' o p Hi' Hw' Hreq Hp Hj Hsj Hfj). reflexivity.
  - (* the unit is selected *)
    destruct (toggle_cell_select w i c s E) as [Hf Hs]. split.
    + intros i' c' Hi' Hw' Hsel. rewrite Hf, get_set_flag.
      case_decide as Hfag; [done|].
      rewrite Hs, elem_of_union, elem_of_singleton in Hsel.
      destruct Hsel as [Hsel| ->]; [by apply (Hmarks i' c')|].
      congruence.
    + intros i' c' p Hi' Hw' Hreq Hp. rewrite Hf, !get_set_flag.
      destruct (decide (fag c = p)) as [Hcp|Hcp]; [done|].
      destruct (decide (fag c = fag c')) as [Hfag|Hfag].
      * intros _.
        pose proof (widget_cell_in_scope w i' c' Hi' Hw') as Hsc'.
        assert (i = i') as <- by by apply (HU i i' c c').
        assert (c' = c) as -> by congruence.
        unfold unmet in Hmet. rewrite Hreq in Hmet.
        apply andb_false_iff in Hmet as [Hmet|Hmet].
        -- apply negb_false_iff, String.eqb_eq in Hmet. done.
        -- by apply negb_false_iff in Hmet.
      * by apply (Hpre i' c' p).
Qed.

Lemma handleFagClickOn_keeps_prerequisites w i c s :
  unique_in_scope page w → two_levels page w →
  cells page !! i = Some c → widget_cell page w i = true →
  marks_follow_flags page w s → flags_respect_prerequisites page w s →
  marks_follow_flags page w (handleFagClickOn page w i c s) ∧
  flags_respect_prerequisites page w (handleFagClickOn page w i c s).
Proof.
  intros HU HD Hi Hw Hmarks Hpre. rewrite handleFagClickOn_unfold.
  destruct (unmet (requires c) (flags_of w s)) eqn:Hmet; [done|].
  destruct (toggle_cell_keeps_prerequisites w i c s) as [H1 H2]; try done.
  unfold marks_follow_flags, flags_respect_prerequisites.
  rewrite updateFordypningVisualsOn_flags, updateFordypningVisualsOn_selected. done.
Qed.

Lemma handleFagClickOn_other_widget w w' i c s :
  w ≠ w' → widget_cell page w' i = true →
  marks_follow_flags page w s → flags_respect_prerequisites page w s →
  marks_follow_flags page w (handleFagClickOn page w' i c s) ∧
  flags_respect_prerequisites page w (handleFagClickOn page w' i c s).
Proof.
  intros Hne Hw' Hmarks Hpre. rewrite handleFagClickOn_unfold.
  destruct (unmet (requires c) (flags_of w' s)); [done|].
  unfold marks_follow_flags, flags_respect_prerequisites.
  rewrite updateFordypningVisualsOn_flags, updateFordypningVisualsOn_selected.
  destruct (toggle_cell_rest w' i c s) as (_ & _ & _ & Hf).
  rewrite Hf by done. split; [|done].
  intros j d Hj Hwj Hsel.
  apply toggle_cell_selected_subset in Hsel as [Hsel| ->]; [by apply (Hmarks j d)|].
  destruct Hne. by apply (widget_cell_exclusive w w' i).
Qed.

Lemma click_cell_keeps_prerequisites w i s :
  unique_in_scope page w → two_levels page w →
  marks_follow_flags page w s → flags_respect_prerequisites page w s →
  marks_follow_flags page w (click_cell page i s) ∧
  flags_respect_prerequisites page w (click_cell page i s).
Proof.
  intros HU HD Hmarks Hpre. unfold click_cell, handleFagClick, handleFagClickSlide11.
  destruct (cells page !! i) as [c|] eqn:Hi; [|done].
  destruct (widget_cell page Slide10 i) eqn:H10.
  - destruct w.
    + by apply handleFagClickOn_keeps_prerequisites.
    + by apply handleFagClickOn_other_widget.
  - destruct (widget_cell page Slide11 i) eqn:H11; [|done].
    destruct w.
    + by apply handleFagClickOn_other_widget.
    + by apply handleFagClickOn_keeps_prerequisites.
Qed.

Lemma clicks_keep_prerequisites w (clicks : list nat) :
  unique_in_scope page w → two_levels page w →
  marks_follow_flags page w (run page (ClickCell <$> clicks) init_state) ∧
  flags_respect_prerequisites page w (run page (ClickCell <$> clicks) init_state).
Proof.
  intros HU HD. induction clicks as [|i clicks IH] using rev_ind.
  - split.
    + intros i c _ _ []%elem_of_empty.
    + intros i c p _ _ _ _ H. exfalso. revert H.
      rewrite get_flag_all_false; [done|].
      destruct w; repeat constructor.
  - rewrite fmap_app. simpl. rewrite run_snoc. simpl.
    destruct IH. by apply click_cell_keeps_prerequisites.
Qed.

(** *** The keys of the state objects *)

Lemma keys_set_flag_Forall (P : string → Prop) key v obj :
  P key → Forall P (keys obj) → Forall P (keys (set_flag key v obj)).
Proof.
  intros Hk. unfold keys. induction obj as [|[k b] rest IH]; simpl.
  - intros _. by constructor.
  - intros [Hh Ht]%Forall_cons. destruct (String.eqb k key); simpl.
    + by constructor.
    + constructor; [done|]. by apply IH.
Qed.

Lemma deselect_if_requires_keys (P : string → Prop) w fagId st key :
  P key → Forall P (keys (flags_of w st)) →
  Forall P (keys (flags_of w (deselect_if_requires page w fagId st key))).
Proof.
  intros Hk H. unfold deselect_if_requires.
  destruct (query_fag page w key) as [[j o]|]; [|done].
  destruct (same_string (requires o) fagId); [|done].
  unfold unmark.
  replace (flags_of w (set_selected _ _))
    with (set_flag key false (flags_of w st)) by by destruct w.
  by apply keys_set_flag_Forall.
Qed.

Lemma cascade_keys_Forall (P : string → Prop) w fagId ks st :
  Forall P ks → Forall P (keys (flags_of w st)) →
  Forall P (keys (flags_of w (foldl (deselect_if_requires page w fagId) st ks))).
Proof.
  revert st. induction ks as [|key ks IH]; intros st Hks H; cbn [foldl]; [done|].
  apply Forall_cons in Hks as [Hk Hks].
  apply IH; [done|]. by apply deselect_if_requires_keys.
Qed.

Lemma toggle_cell_keys_Forall (P : string → Prop) w i c s :
  P (fag c) → Forall P (keys (flags_of w s)) →
  Forall P (keys (flags_of w (toggle_cell page w i c s))).
Proof.
  intros Hc H. unfold toggle_cell.
  assert (∀ v, Forall P (keys (set_flag (fag c) v (flags_of w s)))) as Hset
    by (intros v; by apply keys_set_flag_Forall).
  case_match.
  - replace (flags_of w (unmark i (set_flags_of w (set_flag (fag c) false (flags_of w s)) s)))
      with (set_flag (fag c) false (flags_of w s)) by by destruct w.
    apply cascade_keys_Forall; [done|].
    replace (flags_of w (unmark i (set_flags_of w (set_flag (fag c) false (flags_of w s)) s)))
      with (set_flag (fag c) false (flags_of w s)) by by destruct w.
    done.
  - replace (flags_of w (mark i (set_flags_of w (set_flag (fag c) true (flags_of w s)) s)))
      with (set_flag (fag c) true (flags_of w s)) by by destruct w.
    done.
Qed.

Lemma handleFagClickOn_keys_Forall (P : string → Prop) w w' i c s :
  P (fag c) → Forall P (keys (flags_of w s)) →
  Forall P (keys (flags_of w (handleFagClickOn page w' i c s))).
Proof.
  intros Hc H. rewrite handleFagClickOn_unfold.
  destruct (unmet (requires c) (flags_of w' s)); [done|].
  rewrite updateFordypningVisualsOn_flags.
  destruct (decide (w' = w)) as [->|Hne].
  - by apply toggle_cell_keys_Forall.
  - destruct (toggle_cell_rest w' i c s) as (_ & _ & _ & Hf). by rewrite Hf.
Qed.

Lemma click_cell_keys_plain w i s :
  plain_ids page →
  Forall plain_key (keys (flags_of w s)) →
  Forall plain_key (keys (flags_of w (click_cell page i s))).
Proof.
  intros Hplain H. unfold click_cell, handleFagClick, handleFagClickSlide11.
  destruct (cells page !! i) as [c|] eqn:Hi; [|done].
  destruct (widget_cell page Slide10 i) eqn:H10.
  { apply handleFagClickOn_keys_Forall; [|done]. by apply (Hplain Slide10 i c). }
  destruct (widget_cell page Slide11 i) eqn:H11; [|done].
  apply handleFagClickOn_keys_Forall; [|done]. by apply (Hplain Slide11 i c).
Qed.

Lemma named_flags_plain w : Forall plain_key (named_flags w).
Proof.
  destruct w; repeat constructor; try reflexivity;
    by apply (bool_decide_unpack _).
Qed.

Lemma init_keys_plain w : Forall plain_key (keys (flags_of w init_state)).
Proof.
  destruct w; [exact (named_flags_plain Slide10)|exact (named_flags_plain Slide11)].
Qed.

Lemma clicks_keep_keys_plain w (clicks : list nat) :
  plain_ids page →
  Forall plain_key (keys (flags_of w (run page (ClickCell <$> clicks) init_state))).
Proof.
  intros Hplain. induction clicks as [|i clicks IH] using rev_ind.
  - apply init_keys_plain.
  - rewrite fmap_app. simpl. rewrite run_snoc. simpl.
    by apply click_cell_keys_plain.
Qed.

Lemma rejected_click_changes_nothing w i c p s :
  cells page !! i = Some c → widget_cell page w i = true →
  requires c = Some p → p ≠ "" →
  get_flag (flags_of w s) p = false →
  handleFagClickOn page w i c s = s ∧ step page (ClickCell i) s = s.
Proof.
  intros Hi Hw Hreq Hp Hflag.
  assert (handleFagClickOn page w i c s = s) as Hrej.
  { rewrite handleFagClickOn_unfold. unfold unmet. rewrite Hreq, Hflag.
    by rewrite (proj2 (String.eqb_neq p "") Hp). }
  split; [done|]. simpl. unfold click_cell, handleFagClick, handleFagClickSlide11.
  rewrite Hi. destruct (widget_cell page Slide10 i) eqn:H10.
  - by rewrite <- (widget_cell_exclusive w Slide10 i Hw H10).
  - destruct w; [congruence|]. by rewrite Hw.
Qed.

(** C1: for each of the two widgets, after every sequence of clicks on
    cells from the initial all-false store, a selectable unit that
    declares a prerequisite has neither its flag set nor the [selected]
    mark while the prerequisite's flag is false; and a click on such a
    unit while the prerequisite's flag is false is rejected: the
    handler, and the whole click, leave the store as it was.  The page
    gives every unit its own id within the scope the cascade searches,
    keeps prerequisites one level deep and uses plain ids, so that every
    key the state object ever holds, and with it every key the cascade
    splices into a selector, is plain. *)
Theorem prerequisite_never_bypassed (w : widget) (clicks : list nat)
    (i : nat) (c : cell_el) (p : string) :
  unique_in_scope page w → two_levels page w → plain_ids page →
  cells page !! i = Some c → widget_cell page w i = true →
  requires c = Some p → p ≠ "" →
  let s := run page (ClickCell <$> clicks) init_state in
  Forall plain_key (keys (flags_of w s)) ∧
  (get_flag (flags_of w s) p = false →
   get_flag (flags_of w s) (fag c) = false ∧ i ∉ selected s) ∧
  (∀ s0, get_flag (flags_of w s0) p = false →
         handleFagClickOn page w i c s0 = s0 ∧ step page (ClickCell i) s0 = s0).
Proof.
  intros HU HD Hplain Hi Hw Hreq Hp s.
  split; [by apply clicks_keep_keys_plain|]. split.
  - intros Hflag.
    destruct (clicks_keep_prerequisites w clicks HU HD) as [Hmarks Hpre].
    fold s in Hmarks, Hpre.
    assert (get_flag (flags_of w s) (fag c) = false) as Hc.
    { destruct (get_flag (flags_of w s) (fag c)) eqn:E; [|done].
      rewrite (Hpre i c p Hi Hw Hreq Hp E) in Hflag. done. }
    split; [done|]. intros Hsel.
    rewrite (Hmarks i c Hi Hw Hsel) in Hc. done.
  - intros s0 Hflag. by apply (rejected_click_changes_nothing w i c p).
Qed.

(** C2: for either widget and any prior combination of its flags, a
    click that toggles a selected unit [x] to false (its own prerequisite,
    if it has one, being satisfied) leaves, in that same handler
    invocation, [x] unset and unmarked and every unit in the cascade's
    scope whose declared prerequisite is [x] with its flag false; such a
    unit loses its [selected] mark as well, the cascade walking the keys
    of the state object.  The page gives every unit its own id within
    that scope; the id of [x], the keys of the state object and the ids
    of the dependents are plain and the prerequisite of [x] names no
    inherited member, so that the reads and the cascade's selectors are
    those of a plain map; the keys are plain again afterwards. *)
Theorem deselecting_cascades_to_dependents (w : widget) (s : state)
    (i : nat) (c : cell_el) :
  unique_in_scope page w →
  cells page !! i = Some c →
  plain_key (fag c) →
  (∀ p, requires c = Some p → p ∉ object_prototype_keys) →
  Forall plain_key (keys (flags_of w s)) →
  get_flag (flags_of w s) (fag c) = true →
  unmet (requires c) (flags_of w s) = false →
  let s' := handleFagClickOn page w i c s in
  get_flag (flags_of w s') (fag c) = false ∧ (i ∉ selected s') ∧
  Forall plain_key (keys (flags_of w s')) ∧
  (∀ j d, cells page !! j = Some d → in_lookup_scope w d →
          requires d = Some (fag c) → plain_key (fag d) →
          get_flag (flags_of w s') (fag d) = false ∧
          (fag d ∈ keys (flags_of w s) → j ∉ selected s')).
Proof.
  intros HU Hi Hfag Hreqp Hkeys Hflag Hmet s'.
  assert (Forall plain_key (keys (flags_of w s'))) as Hkeys'
    by by apply handleFagClickOn_keys_Forall.
  unfold s'.
  rewrite handleFagClickOn_unfold, Hmet.
  rewrite updateFordypningVisualsOn_flags, updateFordypningVisualsOn_selected.
  split; [|split; [|split]].
  - apply not_true_is_false. rewrite toggle_cell_deselect_flag by done.
    by intros [? _].
  - rewrite toggle_cell_deselect_selected by done. by intros [? _].
  - revert Hkeys'. unfold s'. rewrite handleFagClickOn_unfold, Hmet.
    by rewrite updateFordypningVisualsOn_flags.
  - intros j d Hj Hsc Hreq _.
    assert (depends_on page w (fag c) (fag d) = true) as Hdep.
    { unfold depends_on. rewrite (query_fag_unique w j d HU Hj Hsc), Hreq.
      apply String.eqb_refl. }
    split.
    + apply not_true_is_false. rewrite toggle_cell_deselect_flag by done.
      intros (_ & _ & Hd). congruence.
    + intros Hkey. rewrite toggle_cell_deselect_selected by done.
      intros (_ & _ & Hnot). apply Hnot. exists (fag d), d.
      split; [|split].
      * rewrite keys_set_flag_in; [done|]. by apply get_flag_true_key.
      * by apply query_fag_unique.
      * rewrite Hreq. apply String.eqb_refl.
Qed.

(** *** Which events reach the widgets *)

Lemma revealNextElement_widgets s :
  widgets (revealNextElement page s).2 = widgets s.
Proof. unfold revealNextElement. by repeat case_match. Qed.

Lemma hideLastRevealedElement_widgets s :
  widgets (hideLastRevealedElement page s).2 = widgets s.
Proof. unfold hideLastRevealedElement. by repeat case_match. Qed.

Lemma animateSlide_widgets n s : widgets (animateSlide page n s) = widgets s.
Proof. unfold animateSlide. by repeat case_match. Qed.

Lemma goToSlide_widgets n s :
  widgets (state_of (goToSlide page n s)) = widgets (after_resets page n s).
Proof.
  rewrite goToSlide_unfold.
  pose proof (originalGoToSlide_widgets n (after_resets page n s)) as H.
  by destruct (originalGoToSlide page n (after_resets page n s)).
Qed.

Lemma reveal_or_advance_widgets s :
  widgets (reveal_or_advance page s) = widgets s ∨
  ∃ n, widgets (reveal_or_advance page s) = widgets (after_resets page n s).
Proof.
  unfold reveal_or_advance, nextSlide. case_match.
  - left. apply revealNextElement_widgets.
  - right. eexists. apply goToSlide_widgets.
Qed.

Lemma handleKeydown_widgets k s :
  widgets (handleKeydown page k s) = widgets s ∨
  ∃ n, widgets (handleKeydown page k s) = widgets (after_resets page n s).
Proof.
  unfold handleKeydown, prevSlide.
  destruct k; try (by left); try apply reveal_or_advance_widgets;
    try (right; eexists; apply goToSlide_widgets).
  left. case_match; [|done].
  pose proof (hideLastRevealedElement_widgets s). by case_match.
Qed.

Lemma after_resets_touchEndX n x s :
  widgets (after_resets page n (set_touchEndX x s)) = widgets (after_resets page n s).
Proof.
  unfold after_resets, resetInteractiveSlide10, resetInteractiveSlide11.
  assert (∀ w t, currentSlide (resetInteractiveOn page w t) = currentSlide t) as Hc.
  { intros w t. by pose proof (resetInteractiveOn_outside w t) as (H & _)%outside_fields. }
  change (currentSlide (set_touchEndX x s)) with (currentSlide s).
  destruct ((currentSlide s =? 10) && negb (n =? 10)).
  - rewrite !Hc. change (currentSlide (set_touchEndX x s)) with (currentSlide s).
    destruct ((currentSlide s =? 11) && negb (n =? 11));
      unfold resetInteractiveOn; simpl;
      destruct (slides page !! 10); try destruct (slides page !! 11); reflexivity.
  - change (currentSlide (set_touchEndX x s)) with (currentSlide s).
    destruct ((currentSlide s =? 11) && negb (n =? 11)); [|done].
    unfold resetInteractiveOn; simpl. destruct (slides page !! 11); reflexivity.
Qed.

Lemma step_widgets e s :
  widgets (step page e s) = widgets s ∨
  (∃ n, widgets (step page e s) = widgets (after_resets page n s)) ∨
  ∃ i, step page e s = click_cell page i s.
Proof.
  destruct e; simpl; try (by left).
  - rewrite keydown_after_handleKeydown.
    destruct (handleKeydown_widgets k s) as [H|H]; [left|right; left];
      by destruct (is_escape k).
  - unfold handleTouchEnd, handleSwipe, prevSlide. repeat case_match; try (by left).
    + destruct (reveal_or_advance_widgets (set_touchEndX x s)) as [Hw|[n Hw]];
        [left; exact Hw|right; left; exists n].
      by rewrite Hw, after_resets_touchEndX.
    + right; left. eexists.
      by rewrite (goToSlide_widgets _ (set_touchEndX x s)), after_resets_touchEndX.
  - right; left. eexists. apply goToSlide_widgets.
  - right; left. eexists. apply goToSlide_widgets.
  - repeat case_match; try (by left). right; left. eexists. apply goToSlide_widgets.
  - left. unfold handleSlideContainerClick. repeat case_match; try done.
    apply revealNextElement_widgets.
  - right; right. by eexists.
  - left. unfold toggleSpeechBubble. by case_match.
  - left. by case_match.
  - left. unfold fire. case_match; [|done].
    destruct t; simpl; try done.
    + case_match; [|done]. by rewrite animateSlide_widgets.
    + by rewrite animateSlide_widgets.
Qed.

(** A property of the widgets' part of the store that the resets of
    navigation and the cell clicks preserve holds along every run. *)
Lemma widgets_invariant (P : state → Prop) :
  (∀ s s', widgets s' = widgets s → P s → P s') →
  (∀ n s, P s → P (after_resets page n s)) →
  (∀ i s, P s → P (click_cell page i s)) →
  P init_state → ∀ s, reachable page s → P s.
Proof.
  intros Hsame Hreset Hclick Hinit s [es ->].
  induction es as [|e es IH] using rev_ind; [done|].
  rewrite run_snoc.
  destruct (step_widgets e (run page es init_state)) as [H|[[n H]| [i H]]].
  - by apply (Hsame (run page es init_state)).
  - apply (Hsame (after_resets page n (run page es init_state))); [done|].
    by apply Hreset.
  - rewrite H. by apply Hclick.
Qed.

Lemma widgets_fields w s s' :
  widgets s' = widgets s →
  flags_of w s' = flags_of w s ∧ selected s' = selected s ∧
  overlay_of w s' = overlay_of w s ∧ positioned s' = positioned s.
Proof. unfold widgets. intros [= ? ? ? ? ? ?]. by destruct w. Qed.

(** *** Reset *)

Lemma reset_flags_false w obj k :
  k ∈ named_flags w →
  get_flag
    (set_flag (second_pair w).2 false
       (set_flag (second_pair w).1 false
          (set_flag (first_pair w).2 false
             (set_flag (first_pair w).1 false obj)))) k = false.
Proof.
  unfold named_flags. rewrite !elem_of_cons, elem_of_nil, !get_set_flag.
  intros [->|[->|[->|[->|[]]]]]; destruct w; simpl; by repeat case_decide.
Qed.

Lemma reset_flags_init w obj :
  keys obj = keys (flags_of w init_state) →
  set_flag (second_pair w).2 false
    (set_flag (second_pair w).1 false
       (set_flag (first_pair w).2 false
          (set_flag (first_pair w).1 false obj))) = flags_of w init_state.
Proof.
  destruct obj as [|[k1 v1] [|[k2 v2] [|[k3 v3] [|[k4 v4] [|? ?]]]]];
    destruct w; simpl; intros [=]; subst; reflexivity.
Qed.

Lemma resetInteractiveOn_own w s :
  is_Some (slides page !! widget_slide w) →
  flags_of w (resetInteractiveOn page w s) =
    set_flag (second_pair w).2 false
      (set_flag (second_pair w).1 false
         (set_flag (first_pair w).2 false
            (set_flag (first_pair w).1 false (flags_of w s)))) ∧
  selected (resetInteractiveOn page w s) =
    filter (λ i, widget_cell page w i = false) (selected s) ∧
  overlay_of w (resetInteractiveOn page w s) = hidden_overlay.
Proof.
  intros [sl Hsl]. unfold resetInteractiveOn. rewrite Hsl. by destruct w.
Qed.

Lemma resetInteractiveOn_other w w' s :
  w ≠ w' →
  flags_of w' (resetInteractiveOn page w s) = flags_of w' s ∧
  overlay_of w' (resetInteractiveOn page w s) = overlay_of w' s ∧
  filter (λ i, widget_cell page w' i = true) (selected (resetInteractiveOn page w s)) =
    filter (λ i, widget_cell page w' i = true) (selected s).
Proof.
  intros Hne. unfold resetInteractiveOn.
  destruct (slides page !! widget_slide w).
  - repeat split; try by destruct w, w'.
    replace (selected (hide_arrows_and_results w _))
      with (filter (λ i, widget_cell page w i = false) (selected s))
      by by destruct w.
    apply set_eq. intros j. rewrite !elem_of_filter. split.
    + intros (? & ? & ?). done.
    + intros [Hj ?]. repeat split; try done.
      destruct (widget_cell page w j) eqn:E; [|done].
      destruct Hne. by apply (widget_cell_exclusive w w' j).
  - repeat split; by destruct w, w'.
Qed.

Lemma reset_keeps_overlay_matches w w' s :
  is_Some (slides page !! widget_slide w) →
  overlay_matches w s → overlay_matches w (resetInteractiveOn page w' s).
Proof.
  intros Hsl Hm. unfold overlay_matches. destruct (decide (w' = w)) as [->|Hne].
  - destruct (resetInteractiveOn_own w s Hsl) as (Hf & _ & Ho).
    rewrite Hf, Ho. unfold pair_complete, hidden_overlay.
    by rewrite !reset_flags_false
      by (unfold named_flags; rewrite !elem_of_cons; auto 10).
  - destruct (resetInteractiveOn_other w' w s Hne) as (Hf & Ho & _).
    by rewrite Hf, Ho.
Qed.

Lemma after_resets_keeps_overlay_matches w n s :
  is_Some (slides page !! widget_slide w) →
  overlay_matches w s → overlay_matches w (after_resets page n s).
Proof.
  intros Hsl Hm. unfold after_resets, resetInteractiveSlide10, resetInteractiveSlide11.
  repeat case_match; auto using reset_keeps_overlay_matches.
Qed.

(** *** The overlay *)

Lemma updateFordypningVisualsOn_other w w' s :
  w ≠ w' →
  overlay_of w' (updateFordypningVisualsOn page w s) = overlay_of w' s.
Proof.
  intros Hne. destruct (slides page !! widget_slide w) as [sl|] eqn:Hsl.
  - by apply (updateFordypningVisualsOn_spec w s (mk_is_Some _ _ Hsl)).
  - unfold updateFordypningVisualsOn. by rewrite Hsl.
Qed.

Lemma handleFagClickOn_overlay w i c s :
  is_Some (slides page !! widget_slide w) →
  overlay_matches w s →
  overlay_matches w (handleFagClickOn page w i c s) ∧
  positioned (handleFagClickOn page w i c s) =
    (positioned s ++ newly_complete w s (handleFagClickOn page w i c s))%list.
Proof.
  intros Hsl Hm. rewrite handleFagClickOn_unfold.
  destruct (unmet (requires c) (flags_of w s)).
  { split; [done|]. unfold newly_complete.
    rewrite !andb_negb_r. by rewrite app_nil_r. }
  destruct (updateFordypningVisualsOn_spec w (toggle_cell page w i c s) Hsl)
    as (Ho & Hp & _).
  destruct (toggle_cell_rest w i c s) as (T1 & T2 & T3 & _).
  split.
  - unfold overlay_matches. by rewrite updateFordypningVisualsOn_flags.
  - rewrite Hp, T3. unfold newly_complete.
    rewrite updateFordypningVisualsOn_flags.
    replace (overlay_of w (toggle_cell page w i c s)) with (overlay_of w s)
      by (destruct w; simpl; congruence).
    rewrite Hm. done.
Qed.

Lemma handleFagClickOn_overlay_other w w' i c s :
  w ≠ w' →
  overlay_matches w' s → overlay_matches w' (handleFagClickOn page w i c s).
Proof.
  intros Hne Hm. rewrite handleFagClickOn_unfold.
  destruct (unmet (requires c) (flags_of w s)); [done|].
  unfold overlay_matches.
  rewrite updateFordypningVisualsOn_flags, updateFordypningVisualsOn_other by done.
  destruct (toggle_cell_rest w i c s) as (T1 & T2 & _ & Tf).
  rewrite Tf by done.
  replace (overlay_of w' (toggle_cell page w i c s)) with (overlay_of w' s)
    by (destruct w'; simpl; congruence).
  done.
Qed.

Lemma click_cell_keeps_overlay_matches w i s :
  is_Some (slides page !! widget_slide w) →
  overlay_matches w s → overlay_matches w (click_cell page i s).
Proof.
  intros Hsl Hm. unfold click_cell, handleFagClick, handleFagClickSlide11.
  repeat case_match; try done; destruct w;
    first [ by apply handleFagClickOn_overlay
          | by apply handleFagClickOn_overlay_other ].
Qed.

Lemma reachable_overlay_matches w s :
  is_Some (slides page !! widget_slide w) →
  reachable page s → overlay_matches w s.
Proof.
  intros Hsl. apply widgets_invariant.
  - intros t t' H. destruct (widgets_fields w t t' H) as (Hf & _ & Ho & _).
    unfold overlay_matches. by rewrite Hf, Ho.
  - intros n t. by apply after_resets_keeps_overlay_matches.
  - intros i t. by apply click_cell_keeps_overlay_matches.
  - by destruct w.
Qed.

Lemma resetInteractiveOn_keys_plain w w' s :
  Forall plain_key (keys (flags_of w s)) →
  Forall plain_key (keys (flags_of w (resetInteractiveOn page w' s))).
Proof.
  intros H. destruct (decide (w' = w)) as [->|Hne].
  - assert (flags_of w (resetInteractiveOn page w s) =
            set_flag (second_pair w).2 false
              (set_flag (second_pair w).1 false
                 (set_flag (first_pair w).2 false
                    (set_flag (first_pair w).1 false (flags_of w s))))) as ->.
    { unfold resetInteractiveOn. destruct w; by case_match. }
    pose proof (named_flags_plain w) as Hn. unfold named_flags in Hn.
    apply Forall_cons in Hn as [H1 Hn]. apply Forall_cons in Hn as [H2 Hn].
    apply Forall_cons in Hn as [H3 Hn]. apply Forall_cons in Hn as [H4 _].
    by repeat apply keys_set_flag_Forall.
  - by destruct (resetInteractiveOn_other w' w s Hne) as (-> & _).
Qed.

Lemma reachable_keys_plain w s :
  plain_ids page → reachable page s → Forall plain_key (keys (flags_of w s)).
Proof.
  intros Hplain. revert s.
  apply (widgets_invariant (λ s, Forall plain_key (keys (flags_of w s)))).
  - intros t t' H. by destruct (widgets_fields w t t' H) as (-> & _).
  - intros n t Ht. unfold after_resets, resetInteractiveSlide10, resetInteractiveSlide11.
    repeat case_match; auto using resetInteractiveOn_keys_plain.
  - intros i t. by apply click_cell_keys_plain.
  - apply init_keys_plain.
Qed.

(** C6: for either widget whose slide is on the page, the ids of the
    page being plain, in every reachable store and again after any
    invocation of the widget's click handler on one of its selectable
    units, the arrow and the result box of each pair are visible exactly
    when both flags of the pair are true; and the handler calls
    [updateArrowPosition] for a pair exactly when the pair was not
    complete before the click and is complete after it, so not while
    the arrow stays visible.  The keys of the state object are plain
    before and after the click, so the cascade builds no selector that
    the page could break. *)
Theorem overlay_shows_complete_pairs (w : widget) (es : list event)
    (i : nat) (c : cell_el) :
  is_Some (slides page !! widget_slide w) →
  plain_ids page →
  cells page !! i = Some c → widget_cell page w i = true →
  let s := run page es init_state in
  let s' := handleFagClickOn page w i c s in
  Forall plain_key (keys (flags_of w s)) ∧
  Forall plain_key (keys (flags_of w s')) ∧
  overlay_matches w s ∧ overlay_matches w s' ∧
  positioned s' = (positioned s ++ newly_complete w s s')%list.
Proof.
  intros Hsl Hplain Hi Hw s s'.
  assert (Forall plain_key (keys (flags_of w s))) as Hk.
  { apply reachable_keys_plain; [done|]. by exists es. }
  split; [done|]. split.
  { apply handleFagClickOn_keys_Forall; [|done]. by apply (Hplain w i c). }
  assert (overlay_matches w s) as Hm.
  { apply reachable_overlay_matches; [done|]. by exists es. }
  split; [done|]. by apply handleFagClickOn_overlay.
Qed.

(** *** Leaving a widget's slide *)

Lemma widget_view_same w s s' :
  widgets s' = widgets s → widget_view page w s' = widget_view page w s.
Proof.
  intros H. destruct (widgets_fields w s s' H) as (Hf & Hs & Ho & _).
  unfold widget_view. by rewrite Hf, Hs, Ho.
Qed.

Lemma after_resets_leaving w n s :
  currentSlide s = widget_slide w → n ≠ widget_slide w →
  after_resets page n s = resetInteractiveOn page w s.
Proof.
  intros Hc Hn. unfold after_resets, resetInteractiveSlide10, resetInteractiveSlide11.
  destruct w; simpl in *.
  - rewrite Hc, (proj2 (Z.eqb_neq n 10) Hn). simpl.
    pose proof (resetInteractiveOn_outside Slide10 s) as (H & _)%outside_fields.
    by rewrite H, Hc.
  - rewrite Hc, (proj2 (Z.eqb_neq n 11) Hn).
    change (11 =? 10) with false. simpl. by rewrite Hc.
Qed.

Lemma after_resets_entering w s :
  widget_view page w (after_resets page (widget_slide w) s) = widget_view page w s.
Proof.
  unfold after_resets, resetInteractiveSlide10, resetInteractiveSlide11, widget_view.
  destruct w.
  - change (negb (widget_slide Slide10 =? 10)) with false.
    rewrite andb_false_r. cbv iota.
    destruct ((currentSlide s =? 11) && negb (widget_slide Slide10 =? 11)); [|done].
    destruct (resetInteractiveOn_other Slide11 Slide10 s) as (-> & -> & ->); done.
  - change (negb (widget_slide Slide11 =? 11)) with false.
    rewrite andb_false_r.
    destruct ((currentSlide s =? 10) && negb (widget_slide Slide11 =? 10)); [|done].
    destruct (resetInteractiveOn_other Slide10 Slide11 s) as (-> & -> & ->); done.
Qed.

(** C7: from any store whose current slide is a widget's slide (the
    slide being on the page), navigating to any other slide number sets
    the widget's four flags to false, leaves none of its selectable
    units marked and hides its arrows and result boxes; coming back
    changes nothing of that; and when the state object holds just its
    four flags, as it does at load, what the widget shows and remembers
    is then what it was at the first visit. *)
Theorem leaving_widget_slide_resets (w : widget) (s : state) (n : Z) :
  is_Some (slides page !! widget_slide w) →
  currentSlide s = widget_slide w →
  n ≠ widget_slide w →
  let left := state_of (goToSlide page n s) in
  let back := state_of (goToSlide page (widget_slide w) left) in
  (∀ k, k ∈ named_flags w → get_flag (flags_of w left) k = false) ∧
  (∀ i, widget_cell page w i = true → i ∉ selected left) ∧
  overlay_of w left = hidden_overlay ∧
  widget_view page w back = widget_view page w left ∧
  (keys (flags_of w s) = keys (flags_of w init_state) →
   widget_view page w left = widget_view page w init_state).
Proof.
  intros Hsl Hc Hn left back.
  pose proof (goToSlide_widgets n s) as Hleft. fold left in Hleft.
  rewrite (after_resets_leaving w n s Hc Hn) in Hleft.
  destruct (widgets_fields w _ _ Hleft) as (Hf & Hs & Ho & _).
  destruct (resetInteractiveOn_own w s Hsl) as (Rf & Rs & Ro).
  split; [|split; [|split; [|split]]].
  - intros k Hk. rewrite Hf, Rf. by apply reset_flags_false.
  - intros i Hi. rewrite Hs, Rs, elem_of_filter. intros [Hi' _]. congruence.
  - by rewrite Ho, Ro.
  - unfold back.
    rewrite (widget_view_same w _ _ (goToSlide_widgets (widget_slide w) left)).
    apply after_resets_entering.
  - intros Hkeys. unfold widget_view.
    rewrite Hf, Rf, Hs, Rs, Ho, Ro, (reset_flags_init w _ Hkeys).
    f_equal; [f_equal|by destruct w].
    apply set_eq. intros j. rewrite !elem_of_filter. split.
    + intros (? & ? & ?). congruence.
    + by intros [_ ?%elem_of_empty].
Qed.

(** C5 (amended): for every store and every [n] outside
    [1, totalSlides], the navigator as declared returns at once with the
    store as it was.  The [goToSlide] the callers reach, the wrapper,
    returns normally as well and leaves the current slide, the active
    slide, the reveal state, the timers and the pop-ups unchanged, but
    it is no no-op: it is the range-checked call wrapped between the
    widget resets and the refresh of the click-reveal indicator.  Away
    from the widget slides nothing but the refreshed indicator can
    differ; on a widget's slide the widget is reset (its four flags
    false, none of its selectable units marked, its overlay hidden)
    although the slide is not left. *)
Theorem goToSlide_out_of_range_keeps_slide (n : Z) (s : state) :
  n < 1 ∨ totalSlides < n →
  originalGoToSlide page n s = Returned s ∧
  ∃ s', goToSlide page n s = Returned s' ∧
        s' = updateClickRevealIndicator page (after_resets page n s) ∧
        currentSlide s' = currentSlide s ∧ active s' = active s ∧
        reveal_part s' = reveal_part s ∧ pending s' = pending s ∧
        popups s' = popups s ∧
        (currentSlide s ≠ 10 → currentSlide s ≠ 11 →
         s' = updateClickRevealIndicator page s) ∧
        (∀ w, currentSlide s = widget_slide w →
              is_Some (slides page !! widget_slide w) →
              (∀ k, k ∈ named_flags w → get_flag (flags_of w s') k = false) ∧
              (∀ i, widget_cell page w i = true → i ∉ selected s') ∧
              overlay_of w s' = hidden_overlay).
Proof.
  intros Hn. split; [by apply originalGoToSlide_out_of_range|].
  rewrite goToSlide_unfold, originalGoToSlide_out_of_range by done.
  eexists. split; [reflexivity|]. split; [reflexivity|].
  pose proof (after_resets_outside n s) as (Hc & Hr & Ha & _ & Hp & Hq & _)%outside_fields.
  split; [done|]. split; [done|]. split; [done|]. split; [done|]. split; [done|].
  split.
  - intros H10 H11. unfold after_resets.
    rewrite (proj2 (Z.eqb_neq _ _) H10). simpl.
    by rewrite (proj2 (Z.eqb_neq _ _) H11).
  - intros w Hw Hsl.
    assert (n ≠ widget_slide w) as Hne.
    { unfold totalSlides in Hn. destruct w; simpl; lia. }
    rewrite (after_resets_leaving w n s Hw Hne).
    destruct (resetInteractiveOn_own w s Hsl) as (Rf & Rs & Ro).
    change (flags_of w (updateClickRevealIndicator page ?t)) with (flags_of w t).
    change (overlay_of w (updateClickRevealIndicator page ?t)) with (overlay_of w t).
    change (selected (updateClickRevealIndicator page ?t)) with (selected t).
    split; [|split].
    + intros k Hk. rewrite Rf. by apply reset_flags_false.
    + intros i Hi. rewrite Rs, elem_of_filter. intros [Hi' _]. congruence.
    + done.
Qed.

(** *** The slide index *)

Lemma goToSlide_current_cases n s :
  currentSlide (state_of (goToSlide page n s)) = currentSlide s ∨
  1 ≤ currentSlide (state_of (goToSlide page n s)) ≤ totalSlides.
Proof.
  rewrite goToSlide_current.
  destruct (Z.ltb_spec n 1); [by left|].
  destruct (Z.ltb_spec totalSlides n); [by left|]. right. simpl. lia.
Qed.

Lemma reveal_or_advance_current s :
  currentSlide (reveal_or_advance page s) = currentSlide s ∨
  1 ≤ currentSlide (reveal_or_advance page s) ≤ totalSlides.
Proof.
  unfold reveal_or_advance, nextSlide.
  case_match; [|apply goToSlide_current_cases].
  left. unfold revealNextElement. by repeat case_match.
Qed.

Lemma step_current e s :
  currentSlide (step page e s) = currentSlide s ∨
  1 ≤ currentSlide (step page e s) ≤ totalSlides.
Proof.
  destruct e; simpl; try (by left); try apply goToSlide_current_cases.
  - rewrite keydown_after_handleKeydown.
    assert (currentSlide (handleKeydown page k s) = currentSlide s ∨
            1 ≤ currentSlide (handleKeydown page k s) ≤ totalSlides) as H.
    { unfold handleKeydown, prevSlide.
      destruct k; try (by left); try apply reveal_or_advance_current;
        try apply goToSlide_current_cases.
      left. unfold hideLastRevealedElement. by repeat case_match. }
    by destruct (is_escape k).
  - unfold handleTouchEnd, handleSwipe, prevSlide. repeat case_match; try (by left).
    + apply (reveal_or_advance_current (set_touchEndX x s)).
    + apply (goToSlide_current_cases _ (set_touchEndX x s)).
  - repeat case_match; try (by left). apply goToSlide_current_cases.
  - left. unfold handleSlideContainerClick, revealNextElement. by repeat case_match.
  - left. by pose proof (click_cell_outside i s) as (H & _)%outside_fields.
  - left. unfold toggleSpeechBubble. by case_match.
  - left. by case_match.
  - left. unfold fire, run_timer, animateSlide. by repeat case_match.
Qed.

(** The current slide of a reachable store lies within [1, totalSlides]. *)
Lemma reachable_current s :
  reachable page s → 1 ≤ currentSlide s ≤ totalSlides.
Proof.
  intros [es ->]. induction es as [|e es IH] using rev_ind.
  - simpl. unfold totalSlides. lia.
  - rewrite run_snoc. destruct (step_current e (run page es init_state)) as [H|H].
    + by rewrite H.
    + done.
Qed.

(** *** Checking a page *)

Lemma unique_in_scope_NoDup w :
  NoDup (fag <$> cells page) → unique_in_scope page w.
Proof.
  intros Hnd i j c d Hi Hj _ _ Heq.
  apply (NoDup_lookup _ i j (fag c) Hnd).
  - by rewrite list_lookup_fmap, Hi.
  - by rewrite list_lookup_fmap, Hj, Heq.
Qed.

Lemma two_levelsb_sound w : two_levelsb page = true → two_levels page w.
Proof.
  unfold two_levelsb. rewrite forallb_forall.
  intros H i j c d p Hi _ Hreq Hp Hj _ Hfag.
  specialize (H c). rewrite Hreq in H.
  apply list_elem_of_lookup_2, list_elem_of_In in Hi, Hj.
  apply H, orb_true_iff in Hi as [Hi|Hi].
  - by apply String.eqb_eq in Hi.
  - rewrite forallb_forall in Hi.
    apply Hi, orb_true_iff in Hj as [Hj|Hj].
    + apply negb_true_iff, String.eqb_neq in Hj. done.
    + by apply bool_decide_eq_true in Hj.
Qed.

End Properties.

(** ** Where the specification and the script part *)

(** C4, counterexample.  "Once the counter equals the element count,
    the same input advances the slide by one" fails on the last slide: the
    last slide of the sample page is reveal-enabled, its one element is
    revealed, and a forward key, like a left swipe, leaves the current
    slide at 14. *)
Lemma forward_input_on_last_slide_stays :
  let s := run sample_page [Keydown End_; Keydown ArrowRight] init_state in
  isCurrentSlideClickReveal sample_page s = true ∧
  counter s = element_count sample_page (currentSlide s) ∧
  currentSlide s = 14 ∧
  is_forward (Keydown ArrowRight) s = true ∧
  currentSlide (step sample_page (Keydown ArrowRight) s) = 14 ∧
  is_forward (TouchEnd (-60)) s = true ∧
  currentSlide (step sample_page (TouchEnd (-60)) s) = 14.
Proof. vm_compute. repeat split. Qed.

(** C5, counterexample.  "goToSlide(n) is silently ignored" fails for
    the [goToSlide] the callers reach.  On the last slide of the sample
    page, its one element revealed by a key, the indicator is still on;
    the call for slide 15, which a further forward key makes, turns it
    off.  And on slide 10 with Fysikk 1 selected, a call for slide 0
    clears the flag, the mark and nothing else of the slide number. *)
Lemma goToSlide_out_of_range_not_ignored :
  (let s := run sample_page [Keydown End_; Keydown ArrowRight] init_state in
   let s' := state_of (goToSlide sample_page 15 s) in
   currentSlide s = 14 ∧ indicator s = true ∧
   goToSlide sample_page 15 s = Returned s' ∧
   currentSlide s' = 14 ∧ indicator s' = false ∧
   step sample_page (Keydown ArrowRight) s = s') ∧
  (let s := run sample_page [ClickMenu (Some 10); ClickCell 0] init_state in
   let s' := state_of (goToSlide sample_page 0 s) in
   currentSlide s = 10 ∧
   get_flag (flags_of Slide10 s) "fysikk1" = true ∧ selected s = {[ 0%nat ]} ∧
   goToSlide sample_page 0 s = Returned s' ∧
   currentSlide s' = 10 ∧
   get_flag (flags_of Slide10 s') "fysikk1" = false ∧ selected s' = ∅).
Proof. vm_compute. repeat split. Qed.

(** C8, counterexample.  "While a modal or bubble is open, the cancel
    key does not also reverse a reveal step in the same keypress" fails:
    with a speech bubble and the QR modal open on slide 2 after one
    reveal step, one Escape press hides the revealed element, takes the
    counter from 1 to 0 and closes the bubble and the modal. *)
Lemma escape_steps_back_under_open_popups :
  let s := run sample_page
             [Keydown ArrowRight; Keydown ArrowRight; ToggleBubble 0; OpenQr]
             init_state in
  let s' := step sample_page (Keydown Escape) s in
  (bubbles s = {[ 0%nat ]} ∧ qrModal s = true) ∧
  (currentSlide s = 2 ∧ counter s = 1 ∧ visible s = {[ (2, 0%nat) ]}) ∧
  (currentSlide s' = 2 ∧ counter s' = 0 ∧ visible s' = ∅) ∧
  (bubbles s' = ∅ ∧ qrModal s' = false).
Proof. vm_compute. repeat split. Qed.

(** C9, counterexample.  "Navigating away ... resets that slide's
    reveal counter" fails: slide 10 of the sample page is reveal-enabled.
    Once the first slide has animated, the menu leads to slide 10, its
    entry animation creates the counter and a forward key reveals one
    element; the counter is 1, and it is still 1, with the element still
    visible, after leaving for slide 9 and after coming back. *)
Lemma reveal_counter_survives_leaving :
  let visited := run sample_page
                   [Fire 0; Fire 0; Fire 0; ClickMenu (Some 10); Fire 0;
                    Keydown ArrowRight] init_state in
  let left := step sample_page (Keydown ArrowLeft) visited in
  let back := step sample_page (Keydown ArrowRight) left in
  (currentSlide visited = 10 ∧ clickRevealState visited !! 10 = Some 1
   ∧ visible visited = {[ (1, 0%nat); (1, 1%nat); (10, 0%nat) ]}) ∧
  (currentSlide left = 9 ∧ clickRevealState left !! 10 = Some 1
   ∧ visible left = visible visited) ∧
  (currentSlide back = 10 ∧ clickRevealState back !! 10 = Some 1
   ∧ visible back = visible visited).
Proof. vm_compute. repeat split. Qed.

(** ** The theorems at work on the sample page *)

(** The widget scenario of the spec on slide 10: Fysikk 2 before
    Fysikk 1 is rejected; Fysikk 1 then Fysikk 2 shows the arrow and the
    result box; deselecting Fysikk 1 hides them and unsets Fysikk 2. *)
Example widget_scenario :
  let s1 := step sample_page (ClickCell 1) init_state in
  let s2 := run sample_page [ClickCell 0; ClickCell 1] s1 in
  let s3 := step sample_page (ClickCell 0) s2 in
  s1 = init_state ∧
  (interactiveState s2 =
     [("fysikk1", true); ("fysikk2", true); ("r1", false); ("r2", false)]
   ∧ overlay10 s2 = Overlay true true false false
   ∧ selected s2 = {[ 0%nat; 1%nat ]}) ∧
  (interactiveState s3 = interactiveState init_state
   ∧ overlay10 s3 = hidden_overlay
   ∧ selected s3 = ∅).
Proof. vm_compute. repeat split. Qed.

(** The sample page gives every unit its own id. *)
Lemma sample_page_unique w : unique_in_scope sample_page w.
Proof. apply unique_in_scope_NoDup. compute_done. Qed.

(** Its prerequisites are one level deep. *)
Lemma sample_page_two_levels w : two_levels sample_page w.
Proof. apply two_levelsb_sound. reflexivity. Qed.

(** Its ids are plain. *)
Lemma sample_page_plain : plain_ids sample_page.
Proof.
  intros w i c Hi Hw.
  pose proof (lookup_lt_Some _ _ _ Hi) as Hlt.
  do 8 (destruct i as [|i];
        [injection Hi as <-;
         (split; [split; [by apply (bool_decide_unpack _)|reflexivity]|]);
         intros p Hp; first [discriminate Hp | injection Hp as <-];
         by apply (bool_decide_unpack _)|]).
  simpl in Hlt. lia.
Qed.

(** C1 at work: Fysikk 2 is clicked too early, then selected after
    Fysikk 1, then Fysikk 1 is deselected; Fysikk 2 ends unset and
    unmarked. *)
Lemma prerequisite_never_bypassed_witness :
  let s := run sample_page (ClickCell <$> [1; 0; 1; 0]%nat) init_state in
  get_flag (flags_of Slide10 s) "fysikk1" = false ∧
  get_flag (flags_of Slide10 s) "fysikk2" = false ∧
  1%nat ∉ selected s.
Proof.
  intros s.
  pose proof (prerequisite_never_bypassed sample_page Slide10 [1; 0; 1; 0]%nat 1%nat
                (Cell 10 true "fysikk2" (Some "fysikk1")) "fysikk1"
                (sample_page_unique Slide10) (sample_page_two_levels Slide10)
                sample_page_plain eq_refl eq_refl eq_refl) as H.
  cbv zeta in H. fold s in H.
  destruct H as (_ & H & _); [done|].
  split; [reflexivity|]. apply H. reflexivity.
Defined.

(** C2 at work: with Fysikk 1 and Fysikk 2 selected, a click on Fysikk 1
    unsets and unmarks both. *)
Lemma deselecting_cascades_witness :
  let s := run sample_page (ClickCell <$> [0; 1]%nat) init_state in
  let s' := handleFagClickOn sample_page Slide10 0 (Cell 10 true "fysikk1" None) s in
  get_flag (flags_of Slide10 s) "fysikk2" = true ∧
  get_flag (flags_of Slide10 s') "fysikk1" = false ∧
  get_flag (flags_of Slide10 s') "fysikk2" = false ∧
  1%nat ∉ selected s'.
Proof.
  intros s s'.
  destruct (sample_page_plain Slide10 0%nat (Cell 10 true "fysikk1" None)
              eq_refl eq_refl) as [P0 R0].
  destruct (sample_page_plain Slide10 1%nat (Cell 10 true "fysikk2" (Some "fysikk1"))
              eq_refl eq_refl) as [P1 _].
  pose proof (deselecting_cascades_to_dependents sample_page Slide10 s 0%nat
                (Cell 10 true "fysikk1" None)
                (sample_page_unique Slide10) eq_refl P0 R0
                (clicks_keep_keys_plain sample_page Slide10 [0; 1]%nat sample_page_plain)
                eq_refl eq_refl) as H.
  cbv zeta in H. fold s' in H. destruct H as (H1 & _ & _ & H3).
  destruct (H3 1%nat (Cell 10 true "fysikk2" (Some "fysikk1")) eq_refl I eq_refl P1)
    as [G1 G2].
  split; [reflexivity|]. split; [exact H1|]. split; [exact G1|].
  apply G2. compute_done.
Defined.

(** C3 at work: on the fully revealed last slide a further reveal
    fails; after one step forward and one back the counter is 0 and a
    further step back fails. *)
Lemma reveal_counter_within_bounds_witness :
  (let s := run sample_page [Keydown End_; Keydown ArrowRight] init_state in
   counter s = 1 ∧ revealNextElement sample_page s = (false, s)) ∧
  (let s := foldl (apply_reveal_op sample_page)
              (run sample_page [Keydown ArrowRight] init_state)
              [RevealNext; RevealPrevious] in
   counter s = 0 ∧ hideLastRevealedElement sample_page s = (false, s)).
Proof.
  split; intros s.
  - split; [reflexivity|].
    pose proof (reveal_counter_within_bounds sample_page
                  [Keydown End_; Keydown ArrowRight] []) as H.
    cbv zeta in H. destruct H as (_ & _ & H & _). apply H. reflexivity.
  - split; [reflexivity|].
    pose proof (reveal_counter_within_bounds sample_page
                  [Keydown ArrowRight] [RevealNext; RevealPrevious]) as H.
    cbv zeta in H. destruct H as (_ & _ & _ & H). apply H. reflexivity.
Defined.

(** C4 at work: on slide 2, with ordinals 0, 1, 2, a key, a swipe and a
    key reveal the three elements in order and a fourth input moves on to
    slide 3. *)
Lemma forward_input_witness :
  let s := run sample_page [Keydown ArrowRight] init_state in
  let s1 := step sample_page (Keydown ArrowRight) s in
  let s2 := step sample_page (TouchEnd (-100)) s1 in
  let s3 := step sample_page (Keydown Space) s2 in
  let s4 := step sample_page (Keydown PageDown) s3 in
  currentSlide s = 2 ∧
  visible s1 = visible s ∪ {[ (currentSlide s, 0%nat) ]} ∧
  visible s2 = visible s1 ∪ {[ (currentSlide s, 1%nat) ]} ∧
  visible s3 = visible s2 ∪ {[ (currentSlide s, 2%nat) ]} ∧
  currentSlide s3 = currentSlide s ∧
  currentSlide s4 = currentSlide s + 1.
Proof.
  intros s s1 s2 s3 s4.
  destruct (forward_input_reveals_before_advancing sample_page (Keydown ArrowRight) s
              (Slide true [Some 0; Some 1; Some 2]) eq_refl eq_refl eq_refl)
    as (_ & _ & H).
  destruct (H (TouchEnd (-100)) (Keydown Space) (Keydown PageDown)
              0%nat 1%nat 2%nat) as (V1 & V2 & V3 & C3 & C4);
    try reflexivity.
  split; [reflexivity|]. split; [exact V1|]. split; [exact V2|].
  split; [exact V3|]. split; [exact C3|].
  apply C4. split; [vm_compute; discriminate|reflexivity].
Defined.

(** C5 at work: slides 15 and 0 are not gone to; asked for slide 0 on
    slide 10 with Fysikk 1 selected, the wrapper stays on slide 10 and
    resets the widget. *)
Lemma goToSlide_out_of_range_witness :
  originalGoToSlide sample_page 15 init_state = Returned init_state ∧
  currentSlide (state_of (goToSlide sample_page 0 init_state)) = 1 ∧
  (let s := run sample_page [ClickMenu (Some 10); ClickCell 0] init_state in
   let s' := state_of (goToSlide sample_page 0 s) in
   get_flag (flags_of Slide10 s) "fysikk1" = true ∧
   currentSlide s' = 10 ∧
   get_flag (flags_of Slide10 s') "fysikk1" = false ∧
   0%nat ∉ selected s').
Proof.
  split; [|split].
  - by destruct (goToSlide_out_of_range_keeps_slide sample_page 15 init_state
                   (or_intror eq_refl)) as [H _].
  - destruct (goToSlide_out_of_range_keeps_slide sample_page 0 init_state
                (or_introl eq_refl)) as (_ & s' & Hs & _ & Hc & _).
    rewrite Hs. exact Hc.
  - intros s s'.
    destruct (goToSlide_out_of_range_keeps_slide sample_page 0 s
                (or_introl eq_refl))
      as (_ & t & Ht & _ & Hc & _ & _ & _ & _ & _ & Hw).
    assert (s' = t) as -> by (unfold s'; by rewrite Ht).
    destruct (Hw Slide10 eq_refl) as (Hf & Hs & _).
    { exists (Slide true [Some 0; Some 1]). reflexivity. }
    split; [reflexivity|]. split; [rewrite Hc; reflexivity|]. split.
    + apply Hf. compute_done.
    + apply Hs. reflexivity.
Defined.

(** C6 at work: selecting Fysikk 2 after Fysikk 1 completes the first
    pair of slide 10. *)
Lemma overlay_shows_complete_pairs_witness :
  let s := run sample_page [ClickMenu (Some 10); ClickCell 0] init_state in
  let s' := handleFagClickOn sample_page Slide10 1
              (Cell 10 true "fysikk2" (Some "fysikk1")) s in
  overlay_matches Slide10 s ∧ overlay_matches Slide10 s' ∧
  positioned s' = (positioned s ++ newly_complete Slide10 s s')%list.
Proof.
  assert (is_Some (slides sample_page !! widget_slide Slide10)) as Hsl.
  { exists (Slide true [Some 0; Some 1]). reflexivity. }
  destruct (overlay_shows_complete_pairs sample_page Slide10
              [ClickMenu (Some 10); ClickCell 0] 1%nat
              (Cell 10 true "fysikk2" (Some "fysikk1"))
              Hsl sample_page_plain eq_refl eq_refl) as (_ & _ & H).
  exact H.
Defined.

(** C7 at work: with three units of slide 10 selected, going to slide
    11 and back finds the widget as at load. *)
Lemma leaving_widget_slide_resets_witness :
  let s := run sample_page
             [ClickMenu (Some 10); ClickCell 0; ClickCell 1; ClickCell 2] init_state in
  let left := state_of (goToSlide sample_page 11 s) in
  let back := state_of (goToSlide sample_page 10 left) in
  currentSlide s = 10 ∧
  widget_view sample_page Slide10 left = widget_view sample_page Slide10 init_state ∧
  widget_view sample_page Slide10 back = widget_view sample_page Slide10 left.
Proof.
  intros s left back.
  assert (is_Some (slides sample_page !! widget_slide Slide10)) as Hsl.
  { exists (Slide true [Some 0; Some 1]). reflexivity. }
  pose proof (leaving_widget_slide_resets sample_page Slide10 s 11 Hsl eq_refl) as H.
  cbv zeta in H. fold left in H. fold back in H.
  destruct H as (_ & _ & _ & Hb & Hv); [done|].
  split; [reflexivity|]. split; [|exact Hb].
  apply Hv. reflexivity.
Defined.

(** C8 at work: with a bubble and the QR modal open on slide 2, Escape
    takes the reveal counter back by one and closes both. *)
Lemma escape_steps_back_then_closes_popups_witness :
  let s := run sample_page
             [Keydown ArrowRight; Keydown ArrowRight; ToggleBubble 0; OpenQr]
             init_state in
  let s' := keydown sample_page Escape s in
  popups s = ({[ 0%nat ]}, false, true) ∧
  popups s' = (∅, false, false) ∧
  counter s' = counter s - 1.
Proof.
  intros s s'.
  pose proof (escape_steps_back_then_closes_popups sample_page s
                (Slide true [Some 0; Some 1; Some 2])) as H.
  cbv zeta in H. fold s' in H. destruct H as (_ & _ & Hp & _ & Hr).
  split; [reflexivity|]. split; [exact Hp|].
  by destruct Hr as [Hr _].
Defined.

(** C9 at work: entering slide 10 creates no counter; the entry
    animation, second among the pending timers, creates it at 0; no
    navigation from the initial store creates or changes one. *)
Lemma reveal_counter_lazy_and_kept_witness :
  let entered := state_of (goToSlide sample_page 10 init_state) in
  clickRevealState entered = ∅ ∧
  clickRevealState (fire sample_page 1 entered) = <[10 := 0]> ∅ ∧
  ∀ m, clickRevealState (state_of (goToSlide sample_page m init_state)) = ∅.
Proof.
  intros entered.
  pose proof (reveal_counter_lazy_and_kept sample_page 10 init_state
                (Slide true [Some 0; Some 1]) eq_refl eq_refl) as H.
  cbv zeta in H. fold entered in H.
  destruct H as (_ & (H1 & _ & H2) & H3 & _); [done|].
  split; [exact H1|]. split; [exact H2|exact H3].
Defined.

(** C10 at work: slide 5 has ordinals 0 and 2; with the counter at 1 a
    forward key raises it to 2 and shows nothing. *)
Lemma reveal_consumes_gap_witness :
  let s := run sample_page [ClickMenu (Some 5); Keydown ArrowRight] init_state in
  let s' := step sample_page (Keydown Space) s in
  counter s = 1 ∧
  (revealNextElement sample_page s).1 = true ∧
  currentSlide s' = currentSlide s ∧ counter s' = counter s + 1 ∧
  visible s' = visible s.
Proof.
  intros s s'.
  destruct (reveal_consumes_gap sample_page s (Slide true [Some 0; Some 2])
              eq_refl eq_refl) as (H1 & _ & _ & H2).
  destruct H2 as [_ H2]; [compute_done|].
  destruct (H2 (Keydown Space) eq_refl eq_refl) as (G1 & G2 & G3).
  split; [reflexivity|]. split; [exact H1|]. split; [exact G1|]. split; [exact G2|exact G3].
Defined.

(** ** Further properties of the script *)

Section Further.

Variable page : markup.

(** *** Navigation *)

Lemma after_resets_fields n s :
  currentSlide (after_resets page n s) = currentSlide s ∧
  reveal_part (after_resets page n s) = reveal_part s ∧
  active (after_resets page n s) = active s ∧
  indicator (after_resets page n s) = indicator s ∧
  popups (after_resets page n s) = popups s ∧
  pending (after_resets page n s) = pending s.
Proof.
  pose proof (after_resets_outside page n s)
    as (H1 & H2 & H3 & H4 & H5 & H6 & _)%outside_fields.
  done.
Qed.

Lemma goToSlide_present n s sl :
  1 ≤ n ≤ totalSlides → slides page !! n = Some sl →
  goToSlide page n s =
  Returned
    (updateClickRevealIndicator page
       (schedule (TAnimate n)
          (set_active (Some n)
             (set_currentSlide n (set_active None (after_resets page n s)))))).
Proof.
  intros Hn Hsl. rewrite goToSlide_unfold. unfold originalGoToSlide.
  by rewrite (proj2 (Z.ltb_ge _ _)), (proj2 (Z.ltb_ge _ _)), Hsl by lia.
Qed.

Lemma goToSlide_missing n s :
  1 ≤ n ≤ totalSlides → slides page !! n = None →
  goToSlide page n s =
  Threw (set_currentSlide n (set_active None (after_resets page n s))).
Proof.
  intros Hn Hsl. rewrite goToSlide_unfold. unfold originalGoToSlide.
  by rewrite (proj2 (Z.ltb_ge _ _)), (proj2 (Z.ltb_ge _ _)), Hsl by lia.
Qed.

(** X1: a call of [goToSlide] for a slide number in range whose slide is
    on the page returns normally; the target is then the current and the
    active slide, exactly one entry animation has joined the pending
    timers, reveal counters, visible elements and pop-ups are as before,
    and the click-reveal indicator shows exactly when the target is
    reveal-enabled with a counter below its element count. *)
Theorem goToSlide_enters (n : Z) (s : state) (sl : slide_el) :
  1 ≤ n ≤ totalSlides →
  slides page !! n = Some sl →
  ∃ s', goToSlide page n s = Returned s' ∧
        currentSlide s' = n ∧ active s' = Some n ∧
        pending s' = (pending s ++ [TAnimate n])%list ∧
        reveal_part s' = reveal_part s ∧ popups s' = popups s ∧
        indicator s' =
          click_reveal sl && negb (Z.of_nat (length (delays sl)) <=? counter_of s n).
Proof.
  intros Hn Hsl. rewrite (goToSlide_present n s sl Hn Hsl).
  destruct (after_resets_fields n s) as (Hc & Hr & Ha & Hi & Hp & Hq).
  eexists. split; [reflexivity|]. simpl.
  repeat split; try done.
  - by rewrite Hq.
  - unfold updateClickRevealIndicator, isCurrentSlideClickReveal, allElementsRevealed,
      counter, counter_of. simpl. rewrite Hsl.
    injection Hr as Hr _. by rewrite Hr.
Qed.

(** X2: a call of [goToSlide] for a slide number in range whose slide
    is not on the page dies on the missing element after the index has
    moved: the current slide is the target, no slide is active, no
    animation is scheduled and the indicator is not refreshed. *)
Theorem goToSlide_missing_slide (n : Z) (s : state) :
  1 ≤ n ≤ totalSlides →
  slides page !! n = None →
  ∃ s', goToSlide page n s = Threw s' ∧
        currentSlide s' = n ∧ active s' = None ∧
        pending s' = pending s ∧ indicator s' = indicator s ∧
        reveal_part s' = reveal_part s ∧ popups s' = popups s.
Proof.
  intros Hn Hsl. rewrite (goToSlide_missing n s Hn Hsl).
  destruct (after_resets_fields n s) as (Hc & Hr & Ha & Hi & Hp & Hq).
  eexists. split; [reflexivity|]. simpl. done.
Qed.

Lemma run_cons e es s : run page (e :: es) s = run page es (step page e s).
Proof. reflexivity. Qed.

Lemma step_next_current s :
  1 ≤ currentSlide s ≤ totalSlides →
  currentSlide (step page ClickNext s) = Z.min (currentSlide s + 1) totalSlides.
Proof.
  intros H. simpl. unfold nextSlide. rewrite goToSlide_current.
  rewrite (proj2 (Z.ltb_ge _ _)) by lia. simpl.
  destruct (Z.ltb_spec totalSlides (currentSlide s + 1)); lia.
Qed.

Lemma step_prev_current s :
  1 ≤ currentSlide s ≤ totalSlides →
  currentSlide (step page ClickPrev s) = Z.max (currentSlide s - 1) 1.
Proof.
  intros H. simpl. unfold prevSlide. rewrite goToSlide_current.
  destruct (Z.ltb_spec (currentSlide s - 1) 1); simpl; [lia|].
  rewrite (proj2 (Z.ltb_ge _ _)) by lia. lia.
Qed.

(** X3: from a slide within [1, totalSlides], pressing the next button
    [k] times leads to slide min(current + k, totalSlides), and pressing
    the previous button [k] times to slide max(current - k, 1): the
    buttons saturate at the last and the first slide. *)
Theorem buttons_saturate (k : nat) (s : state) :
  1 ≤ currentSlide s ≤ totalSlides →
  currentSlide (run page (replicate k ClickNext) s) =
    Z.min (currentSlide s + Z.of_nat k) totalSlides ∧
  currentSlide (run page (replicate k ClickPrev) s) =
    Z.max (currentSlide s - Z.of_nat k) 1.
Proof.
  intros H. split.
  - revert s H. induction k as [|k IH]; intros s H.
    + simpl. lia.
    + cbn [replicate]. rewrite run_cons, IH, step_next_current by
        (rewrite ?step_next_current by done; lia).
      lia.
  - revert s H. induction k as [|k IH]; intros s H.
    + simpl. lia.
    + cbn [replicate]. rewrite run_cons, IH, step_prev_current by
        (rewrite ?step_prev_current by done; unfold totalSlides in *; lia).
      lia.
Qed.

Lemma backward_step e s :
  is_backward e s = true →
  ∃ s0, step page e s = state_of (prevSlide page s0) ∧
        currentSlide s0 = currentSlide s ∧ reveal_part s0 = reveal_part s.
Proof.
  destruct e as [k|x|x| | | | | | | | | | | | |]; simpl; try done; intros H.
  - exists s. rewrite keydown_after_handleKeydown. by destruct k.
  - exists (set_touchEndX x s). split; [|done].
    unfold handleTouchEnd, handleSwipe. simpl.
    apply Z.ltb_lt in H.
    rewrite (proj2 (Z.ltb_lt 50 (Z.abs (touchStartX s - x)))) by lia.
    by rewrite (proj2 (Z.ltb_ge 0 (touchStartX s - x))) by lia.
  - by exists s.
Qed.

(** X4: a backward input (a backward key, the previous button, a swipe
    to the right beyond the threshold) never takes a reveal step back:
    counters and visible elements are as before; it moves to the previous
    slide, and changes no slide number on the first slide. *)
Theorem backward_input_keeps_reveals (e : event) (s : state) :
  is_backward e s = true →
  reveal_part (step page e s) = reveal_part s ∧
  (2 ≤ currentSlide s ≤ totalSlides →
   currentSlide (step page e s) = currentSlide s - 1) ∧
  (currentSlide s ≤ 1 → currentSlide (step page e s) = currentSlide s).
Proof.
  intros He. destruct (backward_step e s He) as (s0 & -> & Hc & Hr).
  unfold prevSlide. rewrite goToSlide_reveal_part, goToSlide_current, Hc.
  split; [done|]. split; intros H.
  - by rewrite (proj2 (Z.ltb_ge _ _)), (proj2 (Z.ltb_ge _ _)) by (unfold totalSlides in *; lia).
  - by rewrite (proj2 (Z.ltb_lt _ _)) by lia.
Qed.

(** X5: a touch that ends within the threshold of 50 pixels of where it
    started, 50 included, is no swipe: only the recorded end position
    changes. *)
Theorem short_touch_ignored (x : Z) (s : state) :
  Z.abs (touchStartX s - x) ≤ 50 →
  step page (TouchEnd x) s = set_touchEndX x s.
Proof.
  intros H. simpl. unfold handleTouchEnd, handleSwipe. simpl.
  by rewrite (proj2 (Z.ltb_ge _ _)) by lia.
Qed.

(** X6: a click on a menu item goes to the item's slide when its
    [data-goto] parses to a number within [1, totalSlides]; otherwise
    (no number, or one out of range) the store is left exactly as it
    was, widgets included. *)
Theorem menu_click_guarded (g : option Z) (s : state) :
  (∀ n, g = Some n → 1 ≤ n ≤ totalSlides →
        step page (ClickMenu g) s = state_of (goToSlide page n s)
        ∧ currentSlide (step page (ClickMenu g) s) = n) ∧
  ((g = None ∨ ∃ n, g = Some n ∧ (n < 1 ∨ totalSlides < n)) →
   step page (ClickMenu g) s = s).
Proof.
  split.
  - intros n -> Hn. simpl.
    rewrite (proj2 (Z.leb_le 1 n)), (proj2 (Z.leb_le n totalSlides)) by lia. simpl.
    split; [done|]. rewrite goToSlide_current.
    by rewrite (proj2 (Z.ltb_ge _ _)), (proj2 (Z.ltb_ge _ _)) by lia.
  - intros [->|(n & -> & Hn)]; simpl; [done|].
    destruct (Z.leb_spec 1 n); [|done].
    destruct (Z.leb_spec n totalSlides); [lia|done].
Qed.

(** *** The sequencer and what is visible *)

Lemma sequencer_ok_same s s' :
  sequencer_view s' = sequencer_view s →
  sequencer_ok page s → sequencer_ok page s'.
Proof.
  unfold sequencer_view, sequencer_ok, counters_in_range, active_is_current,
    shows_only_auto, revealed_below_counter.
  intros [= -> -> -> -> ->]. done.
Qed.

Lemma find_delay_Some_last ds idx j :
  find_delay ds idx = Some j →
  ds !! j = Some (Some idx) ∧ ∀ k, (j < k)%nat → ds !! k ≠ Some (Some idx).
Proof.
  intros H. split; [by apply find_delay_some|].
  intros k Hk Hidx.
  assert (∃ m, ds !! m = Some (Some idx) ∧
               ∀ k', (m < k')%nat → ds !! k' ≠ Some (Some idx)) as (m & Hm & Hlast).
  { clear H j Hk.
    assert (∃ m, ds !! m = Some (Some idx)) as Hex by eauto. clear Hidx k.
    induction ds as [|d rest IH] using rev_ind.
    - destruct Hex as [m Hm]. by rewrite lookup_nil in Hm.
    - destruct (decide (d = Some idx)) as [->|Hd].
      + exists (length rest). split; [by rewrite list_lookup_middle|].
        intros k' Hk'. rewrite lookup_ge_None_2; [done|].
        rewrite length_app. simpl. lia.
      + destruct Hex as [m Hm].
        assert (m < length rest)%nat as Hlt.
        { pose proof (lookup_lt_Some _ _ _ Hm) as Hlen.
          rewrite length_app in Hlen. simpl in Hlen.
          destruct (decide (m = length rest)) as [->|]; [|lia].
          rewrite list_lookup_middle in Hm by done. congruence. }
        rewrite lookup_app_l in Hm by done.
        destruct (IH (ex_intro _ m Hm)) as (m' & Hm' & Hlast).
        exists m'. split.
        * rewrite lookup_app_l; [done|]. by eapply lookup_lt_Some.
        * intros k' Hk'. destruct (decide (k' < length rest)%nat).
          -- rewrite lookup_app_l by done. by apply Hlast.
          -- destruct (decide (k' = length rest)) as [->|].
             ++ rewrite list_lookup_middle by done. congruence.
             ++ rewrite lookup_ge_None_2; [done|]. rewrite length_app. simpl. lia. }
  rewrite (find_delay_last ds idx m Hm Hlast) in H. injection H as <-.
  by apply (Hlast k).
Qed.

Lemma find_delay_inj ds d d' j :
  find_delay ds d = Some j → find_delay ds d' = Some j → d = d'.
Proof. intros H%find_delay_some H'%find_delay_some. congruence. Qed.

Lemma revealNextElement_ok s :
  isCurrentSlideClickReveal page s = true →
  sequencer_ok page s → sequencer_ok page (revealNextElement page s).2.
Proof.
  intros Hcr Hok. pose proof Hok as (Hrange & Hact & Hauto & Hvis).
  pose proof (counter_in_range page s Hrange) as Hc.
  unfold isCurrentSlideClickReveal in Hcr.
  destruct (slides page !! currentSlide s) as [sl|] eqn:Hsl; [|done].
  destruct (Z.le_gt_cases (Z.of_nat (length (delays sl))) (counter s)) as [Hle|Hlt].
  { rewrite revealNextElement_exhausted; [exact Hok|].
    unfold element_count. by rewrite Hsl. }
  pose proof (revealNextElement_in_range page s Hrange) as Hrange'.
  rewrite (revealNextElement_steps page s sl Hsl) in * by lia.
  split; [done|]. split; [|split].
  - by destruct (find_delay (delays sl) (counter s)).
  - by destruct (find_delay (delays sl) (counter s)).
  - intros n sl' j Hn Hcr'. simpl.
    replace (visible (match find_delay (delays sl) (counter s) with
                      | Some j0 => set_visible (visible s ∪ {[(currentSlide s, j0)]}) s
                      | None => s end))
      with (match find_delay (delays sl) (counter s) with
            | Some j0 => visible s ∪ {[(currentSlide s, j0)]}
            | None => visible s end)
      by by destruct (find_delay (delays sl) (counter s)).
    replace (clickRevealState (match find_delay (delays sl) (counter s) with
                      | Some j0 => set_visible (visible s ∪ {[(currentSlide s, j0)]}) s
                      | None => s end))
      with (clickRevealState s)
      by by destruct (find_delay (delays sl) (counter s)).
    rewrite lookup_insert. case_decide as Hcur.
    + subst n. assert (sl' = sl) as -> by congruence. simpl.
      specialize (Hvis (currentSlide s) sl j Hsl Hcr'). fold (counter s) in Hvis.
      destruct (find_delay (delays sl) (counter s)) as [j0|] eqn:Hfind.
      * rewrite elem_of_union, elem_of_singleton, Hvis. split.
        -- intros [(d & Hd & Hj)|[= <-]].
           ++ exists d. split; [lia|done].
           ++ exists (counter s). split; [lia|done].
        -- intros (d & Hd & Hj).
           destruct (decide (d = counter s)) as [->|Hne].
           ++ right. congruence.
           ++ left. exists d. split; [lia|done].
      * rewrite Hvis. split.
        -- intros (d & Hd & Hj). exists d. split; [lia|done].
        -- intros (d & Hd & Hj). exists d. split; [|done].
           destruct (decide (d = counter s)) as [->|Hne]; [congruence|lia].
    + specialize (Hvis n sl' j Hn Hcr').
      destruct (find_delay (delays sl) (counter s)) as [j0|]; [|done].
      rewrite elem_of_union, elem_of_singleton, Hvis.
      split; [|by left]. intros [H|[= ? _]]; [done|congruence].
Qed.

Lemma hideLastRevealedElement_ok s :
  sequencer_ok page s → sequencer_ok page (hideLastRevealedElement page s).2.
Proof.
  intros Hok. pose proof Hok as (Hrange & Hact & Hauto & Hvis).
  pose proof (counter_in_range page s Hrange) as Hc.
  pose proof (hideLastRevealedElement_in_range page s Hrange) as Hrange'.
  unfold hideLastRevealedElement, active_slide in *.
  unfold active_is_current in Hact.
  destruct (active s) as [a|] eqn:Ha; [|exact Hok].
  destruct Hact as [?|[= ->]]; [done|].
  destruct (slides page !! currentSlide s) as [sl|] eqn:Hsl; [|exact Hok].
  destruct (click_reveal sl) eqn:Hcr; simpl in *; [|exact Hok].
  destruct (Z.leb_spec (counter s) 0) as [|Hpos]; [exact Hok|]. simpl in *.
  split; [done|]. split; [|split].
  - unfold active_is_current.
    by destruct (find_delay (delays sl) (counter s - 1)); simpl; rewrite Ha; right.
  - by destruct (find_delay (delays sl) (counter s - 1)).
  - intros n sl' j Hn Hcr'. simpl.
    replace (visible (match find_delay (delays sl) (counter s - 1) with
                      | Some j0 => set_visible (visible s ∖ {[(currentSlide s, j0)]}) s
                      | None => s end))
      with (match find_delay (delays sl) (counter s - 1) with
            | Some j0 => visible s ∖ {[(currentSlide s, j0)]}
            | None => visible s end)
      by by destruct (find_delay (delays sl) (counter s - 1)).
    replace (clickRevealState (match find_delay (delays sl) (counter s - 1) with
                      | Some j0 => set_visible (visible s ∖ {[(currentSlide s, j0)]}) s
                      | None => s end))
      with (clickRevealState s)
      by by destruct (find_delay (delays sl) (counter s - 1)).
    rewrite lookup_insert. case_decide as Hcur.
    + subst n. assert (sl' = sl) as -> by congruence. simpl.
      specialize (Hvis (currentSlide s) sl j Hsl Hcr'). fold (counter s) in Hvis.
      destruct (find_delay (delays sl) (counter s - 1)) as [j0|] eqn:Hfind.
      * rewrite elem_of_difference, elem_of_singleton, Hvis. split.
        -- intros [(d & Hd & Hj) Hne]. exists d. split; [|done].
           destruct (decide (d = counter s - 1)) as [->|]; [|lia].
           destruct Hne. congruence.
        -- intros (d & Hd & Hj). split; [exists d; split; [lia|done]|].
           intros [= <-]. pose proof (find_delay_inj _ _ _ _ Hj Hfind). lia.
      * rewrite Hvis. split.
        -- intros (d & Hd & Hj). exists d. split; [|done].
           destruct (decide (d = counter s - 1)) as [->|]; [congruence|lia].
        -- intros (d & Hd & Hj). exists d. split; [lia|done].
    + specialize (Hvis n sl' j Hn Hcr').
      destruct (find_delay (delays sl) (counter s - 1)) as [j0|]; [|done].
      rewrite elem_of_difference, elem_of_singleton, Hvis.
      split; [by intros [? _]|]. intros H. split; [done|]. intros [= ? _]. congruence.
Qed.

Lemma sequencer_ok_nav s s' :
  clickRevealState s' = clickRevealState s → visible s' = visible s →
  active_is_current s' →
  (∀ n i, TShow n i ∈ pending s' → TShow n i ∈ pending s) →
  sequencer_ok page s → sequencer_ok page s'.
Proof.
  intros Hc Hv Ha Hp (Hrange & _ & Hauto & Hvis).
  split; [by apply (counters_in_range_same page s)|]. split; [done|]. split.
  - intros n i Hin. by apply (Hauto n i), Hp.
  - intros n sl j Hn Hcr. rewrite Hc, Hv. by apply (Hvis n sl j).
Qed.

Lemma goToSlide_ok n s :
  sequencer_ok page s → sequencer_ok page (state_of (goToSlide page n s)).
Proof.
  intros Hok. pose proof Hok as (_ & Hact & _).
  destruct (after_resets_fields n s) as (Hc & Hr & Ha & _ & _ & Hq).
  injection Hr as Hr1 Hr2.
  destruct (decide (1 ≤ n ≤ totalSlides)) as [Hn|Hn].
  - destruct (slides page !! n) as [sl|] eqn:Hsl.
    + rewrite (goToSlide_present n s sl Hn Hsl). simpl.
      apply (sequencer_ok_nav s); simpl; try done.
      * by right.
      * intros m i. rewrite Hq, elem_of_app, list_elem_of_singleton.
        by intros [?|?].
    + rewrite (goToSlide_missing n s Hn Hsl). simpl.
      apply (sequencer_ok_nav s); simpl; try done.
      * by left.
      * intros m i. by rewrite Hq.
  - rewrite goToSlide_unfold, originalGoToSlide_out_of_range by lia. simpl.
    apply (sequencer_ok_nav s); simpl; try done.
    + unfold active_is_current. simpl. by rewrite Ha, Hc.
    + intros m i. by rewrite Hq.
Qed.

Lemma animateSlide_ok n s :
  sequencer_ok page s → sequencer_ok page (animateSlide page n s).
Proof.
  intros Hok. pose proof Hok as (Hrange & Hact & Hauto & Hvis).
  pose proof (animateSlide_in_range page n s Hrange) as Hrange'.
  unfold animateSlide in *.
  destruct (slides page !! n) as [sl|] eqn:Hsl; [|exact Hok].
  destruct (click_reveal sl) eqn:Hcr.
  - destruct (clickRevealState s !! n) eqn:Hcnt; [exact Hok|].
    split; [done|]. split; [done|]. split; [done|].
    intros m sl' j Hm Hcr'. simpl. rewrite lookup_insert.
    case_decide as E; [|by apply (Hvis m sl' j)].
    subst m. specialize (Hvis n sl' j Hm Hcr'). by rewrite Hcnt in Hvis.
  - split; [done|]. split; [done|]. split; [|done].
    intros m i. simpl. rewrite elem_of_app. intros [Hin|Hin]; [by apply (Hauto m i)|].
    apply list_elem_of_lookup in Hin as [k Hk].
    rewrite list_lookup_imap in Hk.
    destruct (delays sl !! k); simpl in Hk; [|done].
    injection Hk as <- <-. eauto.
Qed.

Lemma fire_ok k s :
  sequencer_ok page s → sequencer_ok page (fire page k s).
Proof.
  intros Hok. unfold fire.
  destruct (pending s !! k) as [t|] eqn:Hk; [|exact Hok].
  assert (sequencer_ok page (set_pending (delete k (pending s)) s)) as Hok'.
  { apply (sequencer_ok_nav s); simpl; try done; [by destruct Hok as (_ & ? & _)|].
    intros n i Hin. eapply elem_of_submseteq; [exact Hin|].
    apply sublist_submseteq, sublist_delete. }
  destruct t as [|n|n i]; simpl.
  - destruct (active s); [by apply animateSlide_ok|done].
  - by apply animateSlide_ok.
  - destruct Hok as (_ & _ & Hauto & _).
    destruct (Hauto n i) as (sl & Hsl & Hcr); [by eapply list_elem_of_lookup_2|].
    destruct Hok' as (H1 & H2 & H3 & H4).
    split; [done|]. split; [done|]. split; [done|].
    intros m sl' j Hm Hcr'. simpl in *.
    rewrite elem_of_union, elem_of_singleton, <- (H4 m sl' j Hm Hcr').
    split; [|by left]. intros [?|[= -> ->]]; [done|congruence].
Qed.

Lemma reveal_or_advance_ok s :
  sequencer_ok page s → sequencer_ok page (reveal_or_advance page s).
Proof.
  intros Hok. unfold reveal_or_advance, nextSlide.
  destruct (isCurrentSlideClickReveal page s) eqn:Hcr; simpl.
  - case_match; [by apply revealNextElement_ok|by apply goToSlide_ok].
  - by apply goToSlide_ok.
Qed.

Lemma handleKeydown_ok k s :
  sequencer_ok page s → sequencer_ok page (handleKeydown page k s).
Proof.
  intros Hok. unfold handleKeydown, prevSlide.
  destruct k; try done; try (by apply reveal_or_advance_ok);
    try (by apply goToSlide_ok).
  destruct (isCurrentSlideClickReveal page s); [|done].
  pose proof (hideLastRevealedElement_ok s Hok) as H.
  destruct (hideLastRevealedElement page s).1; [|done].
  by apply (sequencer_ok_same (hideLastRevealedElement page s).2).
Qed.

Lemma step_ok e s :
  sequencer_ok page s → sequencer_ok page (step page e s).
Proof.
  intros Hok. destruct e; simpl; try (by apply goToSlide_ok); try done.
  - rewrite keydown_after_handleKeydown.
    pose proof (handleKeydown_ok k s Hok) as H.
    destruct (is_escape k); [|done].
    by apply (sequencer_ok_same (handleKeydown page k s)).
  - unfold handleTouchEnd, handleSwipe, prevSlide.
    assert (sequencer_ok page (set_touchEndX x s)) as Hok'
      by by apply (sequencer_ok_same s).
    repeat case_match; try done.
    + by apply reveal_or_advance_ok.
    + by apply goToSlide_ok.
  - repeat case_match; try done. by apply goToSlide_ok.
  - unfold handleSlideContainerClick.
    destruct (isCurrentSlideClickReveal page s) eqn:Hcr; simpl; [|done].
    repeat case_match; try done.
    apply (sequencer_ok_same (revealNextElement page s).2); [done|].
    by apply revealNextElement_ok.
  - apply (sequencer_ok_same s); [|done].
    pose proof (click_cell_outside page i s)
      as (H1 & H2 & H3 & _ & _ & H6 & _)%outside_fields.
    injection H2 as H2 H2'. unfold sequencer_view. congruence.
  - unfold toggleSpeechBubble. by case_match.
  - by case_match.
  - by apply fire_ok.
Qed.

Lemma reachable_ok s : reachable page s → sequencer_ok page s.
Proof.
  intros [es ->]. induction es as [|e es IH] using rev_ind.
  - split; [|split; [|split]].
    + intros n v. simpl. by rewrite lookup_empty.
    + by right.
    + intros n i. simpl. rewrite list_elem_of_singleton. done.
    + intros n sl j _ _. simpl. rewrite lookup_empty. simpl. split.
      * by intros ?%elem_of_empty.
      * intros (d & Hd & _). lia.
  - rewrite run_snoc. by apply step_ok.
Qed.

(** X7: in every reachable store, on every reveal-enabled slide, an
    element is visible exactly when it is the element the sequencer
    picks for an ordinal below the slide's counter (for each ordinal,
    the last element that carries it). *)
Theorem revealed_elements_match_counter (es : list event) (n : Z)
    (sl : slide_el) (j : nat) :
  slides page !! n = Some sl →
  click_reveal sl = true →
  let s := run page es init_state in
  (n, j) ∈ visible s ↔
  ∃ d, 0 ≤ d < counter_of s n ∧ find_delay (delays sl) d = Some j.
Proof.
  intros Hsl Hcr s.
  assert (sequencer_ok page s) as (_ & _ & _ & H) by (apply reachable_ok; by exists es).
  by apply H.
Qed.

(** X8: when two elements of a reveal-enabled slide carry the same
    ordinal, the earlier one in document order is never visible, in any
    reachable store: the sequencer reveals only the last one. *)
Theorem shadowed_element_never_visible (es : list event) (n : Z)
    (sl : slide_el) (j j' : nat) (d : Z) :
  slides page !! n = Some sl →
  click_reveal sl = true →
  delays sl !! j = Some (Some d) →
  delays sl !! j' = Some (Some d) →
  (j < j')%nat →
  (n, j) ∉ visible (run page es init_state).
Proof.
  intros Hsl Hcr Hj Hj' Hlt Hvis.
  assert (sequencer_ok page (run page es init_state)) as (_ & _ & _ & H)
    by (apply reachable_ok; by exists es).
  apply (H n sl j Hsl Hcr) in Hvis as (d' & _ & Hfind).
  apply find_delay_Some_last in Hfind as [Hd Hlast].
  assert (d' = d) as -> by congruence.
  by apply (Hlast j').
Qed.

(** X9: in every reachable store the class [active] sits on the current
    slide or on none; a reveal step back therefore works on the slide
    whose counter it reads. *)
Theorem active_slide_is_current (es : list event) :
  let s := run page es init_state in
  active s = None ∨ active s = Some (currentSlide s).
Proof.
  intros s.
  assert (sequencer_ok page s) as (_ & H & _) by (apply reachable_ok; by exists es).
  exact H.
Qed.

Lemma forward_step_state e s :
  is_forward e s = true →
  ∃ s0, step page e s = reveal_or_advance page s0 ∧
        (s0 = s ∨ ∃ x, s0 = set_touchEndX x s).
Proof.
  destruct e; simpl; try done; intros H.
  - exists s. rewrite keydown_after_handleKeydown. split; [by destruct k|by left].
  - exists (set_touchEndX x s). split; [|right; by exists x].
    unfold handleTouchEnd, handleSwipe. simpl.
    apply Z.ltb_lt in H.
    rewrite (proj2 (Z.ltb_lt 50 (Z.abs (touchStartX s - x)))) by lia.
    by rewrite (proj2 (Z.ltb_lt 0 (touchStartX s - x))) by lia.
Qed.

Lemma reveal_or_advance_step s sl :
  slides page !! currentSlide s = Some sl →
  click_reveal sl = true →
  counter s < Z.of_nat (length (delays sl)) →
  reveal_or_advance page s =
  set_clickRevealState
    (<[currentSlide s := counter s + 1]> (clickRevealState s))
    match find_delay (delays sl) (counter s) with
    | Some j => set_visible (visible s ∪ {[ (currentSlide s, j) ]}) s
    | None => s
    end.
Proof.
  intros Hsl Hcr Hlt. unfold reveal_or_advance, isCurrentSlideClickReveal, allElementsRevealed.
  rewrite Hsl, Hcr, (proj2 (Z.leb_gt _ _) Hlt). simpl.
  by rewrite (revealNextElement_steps page s sl Hsl Hlt).
Qed.

(** X10: the keyboard and the swipe reveal an element without
    refreshing the click-reveal indicator: after a forward input that
    performs a reveal step the indicator is as it was, also when the
    step revealed the last element of the slide. *)
Theorem forward_reveal_keeps_indicator (e : event) (s : state) (sl : slide_el) :
  is_forward e s = true →
  slides page !! currentSlide s = Some sl →
  click_reveal sl = true →
  counter s < Z.of_nat (length (delays sl)) →
  indicator (step page e s) = indicator s ∧
  counter (step page e s) = counter s + 1.
Proof.
  intros He Hsl Hcr Hlt.
  destruct (forward_reveal page e s sl He Hsl Hcr Hlt) as (_ & Hk & _).
  split; [|done].
  destruct (forward_step_state e s He) as (s0 & -> & [->|[x ->]]).
  - rewrite (reveal_or_advance_step s sl Hsl Hcr Hlt). simpl.
    by destruct (find_delay (delays sl) (counter s)).
  - rewrite (reveal_or_advance_step (set_touchEndX x s) sl Hsl Hcr Hlt). simpl.
    by destruct (find_delay (delays sl) (counter (set_touchEndX x s))).
Qed.

(** X11: a click on the slides container never changes the current
    slide; on a reveal-enabled slide with elements left, and away from
    the interactive elements, it performs one reveal step and sets the
    indicator to whether elements are still left; in every other case
    it leaves the store as it was (so it never advances the slide). *)
Theorem container_click_reveals_only (b : bool) (s : state) :
  currentSlide (step page (ClickContainer b) s) = currentSlide s ∧
  (b = true ∨ isCurrentSlideClickReveal page s = false
   ∨ allElementsRevealed page s = true →
   step page (ClickContainer b) s = s) ∧
  (∀ sl, b = false →
         slides page !! currentSlide s = Some sl → click_reveal sl = true →
         counter s < Z.of_nat (length (delays sl)) →
         counter (step page (ClickContainer b) s) = counter s + 1 ∧
         visible (step page (ClickContainer b) s) =
           match find_delay (delays sl) (counter s) with
           | Some j => visible s ∪ {[ (currentSlide s, j) ]}
           | None => visible s
           end ∧
         indicator (step page (ClickContainer b) s) =
           negb (Z.of_nat (length (delays sl)) <=? counter s + 1)).
Proof.
  simpl. unfold handleSlideContainerClick. split; [|split].
  - unfold revealNextElement. by repeat case_match.
  - intros [->|[->|H]]; [by case_match|done|].
    rewrite H. by repeat case_match.
  - intros sl -> Hsl Hcr Hlt.
    unfold isCurrentSlideClickReveal, allElementsRevealed.
    rewrite Hsl, Hcr, (proj2 (Z.leb_gt _ _) Hlt). simpl.
    rewrite (revealNextElement_steps page s sl Hsl Hlt). simpl.
    unfold updateClickRevealIndicator, isCurrentSlideClickReveal, allElementsRevealed,
      counter.
    destruct (find_delay (delays sl) (default 0 (clickRevealState s !! currentSlide s)));
      simpl; rewrite Hsl, Hcr, lookup_insert_eq; done.
Qed.

(** X12: in a reachable store whose current slide is reveal-enabled,
    active and not fully revealed, a forward key followed by Escape
    brings every counter back to the value it reads as and the visible
    elements back to what they were, on the same slide. *)
Theorem escape_undoes_forward_key (es : list event) (k : key) (sl : slide_el) :
  let s := run page es init_state in
  forward_key k = true →
  slides page !! currentSlide s = Some sl →
  click_reveal sl = true →
  active s = Some (currentSlide s) →
  counter s < Z.of_nat (length (delays sl)) →
  let s' := run page [Keydown k; Keydown Escape] s in
  currentSlide s' = currentSlide s ∧
  visible s' = visible s ∧
  ∀ n, counter_of s' n = counter_of s n.
Proof.
  intros s Hk Hsl Hcr Hact Hlt s'.
  assert (sequencer_ok page s) as (Hrange & _ & _ & Hvis)
    by (apply reachable_ok; by exists es).
  pose proof (counter_in_range page s Hrange) as [Hc0 _].
  assert (step page (Keydown k) s = reveal_or_advance page s) as Hstep.
  { simpl. rewrite keydown_after_handleKeydown. by destruct k. }
  unfold s'. rewrite run_cons. cbn [run foldl]. rewrite Hstep.
  rewrite (reveal_or_advance_step s sl Hsl Hcr Hlt).
  set (r := set_clickRevealState _ _).
  assert (currentSlide r = currentSlide s) as Hrc
    by (unfold r; by destruct (find_delay (delays sl) (counter s))).
  assert (active r = Some (currentSlide s)) as Hra
    by (unfold r; simpl; by destruct (find_delay (delays sl) (counter s))).
  assert (counter r = counter s + 1) as Hrk.
  { unfold counter at 1. rewrite Hrc. unfold r. simpl. by rewrite lookup_insert_eq. }
  simpl. rewrite keydown_after_handleKeydown. simpl.
  unfold handleKeydown, isCurrentSlideClickReveal, hideLastRevealedElement, active_slide.
  rewrite Hra, Hrc, Hsl, Hcr, Hrk. simpl.
  rewrite (proj2 (Z.leb_gt _ _)) by lia. simpl.
  replace (counter s + 1 - 1) with (counter s) by lia.
  assert (∀ j, find_delay (delays sl) (counter s) = Some j →
               (currentSlide s, j) ∉ visible s) as Hfresh.
  { intros j Hj Hin. apply (Hvis _ sl j Hsl Hcr) in Hin as (d & Hd & Hfd).
    pose proof (find_delay_inj _ _ _ _ Hj Hfd). fold (counter s) in Hd. lia. }
  unfold r. destruct (find_delay (delays sl) (counter s)) as [j|] eqn:Hfind; simpl.
  - split; [done|]. split.
    + specialize (Hfresh j eq_refl). apply set_eq. intros x.
      rewrite elem_of_difference, elem_of_union, elem_of_singleton. split.
      * intros [[?| ->] ?]; done.
      * intros Hx. split; [by left|]. intros ->. done.
    + intros n. unfold counter_of. simpl. rewrite !lookup_insert.
      case_decide as E; [|done]. subst n. by fold (counter s).
  - split; [done|]. split; [done|].
    intros n. unfold counter_of. simpl. rewrite !lookup_insert.
    case_decide as E; [|done]. subst n. by fold (counter s).
Qed.

(** *** Timers *)

(** X13: a timer that goes off stays local: it never changes the current
    or the active slide, the indicator, the widgets or the pop-ups, it
    never hides an element, and it leaves every reveal counter at the
    value it reads as (the entry animation can only create a missing
    counter at 0). *)
Theorem timer_is_local (k : nat) (s : state) :
  currentSlide (fire page k s) = currentSlide s ∧
  active (fire page k s) = active s ∧
  indicator (fire page k s) = indicator s ∧
  widgets (fire page k s) = widgets s ∧
  popups (fire page k s) = popups s ∧
  visible s ⊆ visible (fire page k s) ∧
  ∀ n, counter_of (fire page k s) n = counter_of s n.
Proof.
  assert (∀ n t,
            currentSlide (animateSlide page n t) = currentSlide t ∧
            active (animateSlide page n t) = active t ∧
            indicator (animateSlide page n t) = indicator t ∧
            widgets (animateSlide page n t) = widgets t ∧
            popups (animateSlide page n t) = popups t ∧
            visible t ⊆ visible (animateSlide page n t) ∧
            ∀ m, counter_of (animateSlide page n t) m = counter_of t m) as Hanim.
  { intros n t. unfold animateSlide.
    destruct (slides page !! n) as [sl|]; [|done].
    destruct (click_reveal sl); [|done].
    destruct (clickRevealState t !! n) eqn:Hcnt; [done|].
    repeat split; try done. intros m. unfold counter_of. simpl.
    rewrite lookup_insert. case_decide; [|done]. subst m. by rewrite Hcnt. }
  unfold fire. destruct (pending s !! k) as [t|]; [|done].
  destruct t as [|n|n i]; simpl.
  - destruct (active s) as [a|] eqn:Ha; [|done].
    destruct (Hanim a (set_pending (delete k (pending s)) s))
      as (H1 & H2 & H3 & H4 & H5 & H6 & H7).
    simpl in H2. by rewrite Ha in H2.
  - apply (Hanim n (set_pending (delete k (pending s)) s)).
  - repeat split; try done. apply union_subseteq_l.
Qed.

Lemma fire_shows_block (n : Z) (idxs : list nat) (p : list timer) (t : state) :
  pending t = (p ++ (TShow n <$> idxs))%list →
  let t' := Nat.iter (length idxs) (fire page (length p)) t in
  visible t' = visible t ∪ list_to_set ((λ i, (n, i)) <$> idxs) ∧
  pending t' = p ∧
  clickRevealState t' = clickRevealState t ∧
  currentSlide t' = currentSlide t.
Proof.
  revert t. induction idxs as [|i idxs IH]; intros t Hp.
  - simpl in *. rewrite app_nil_r in Hp.
    repeat split; try done. symmetry. apply (right_id_L ∅ (∪)).
  - cbn [length]. rewrite Nat.iter_succ_r.
    assert (fire page (length p) t =
            set_visible (visible t ∪ {[ (n, i) ]})
              (set_pending (p ++ (TShow n <$> idxs)) t)) as Hfire.
    { unfold fire. rewrite Hp, fmap_cons.
      by rewrite list_lookup_middle, delete_middle. }
    rewrite Hfire.
    destruct (IH (set_visible (visible t ∪ {[ (n, i) ]})
                    (set_pending (p ++ (TShow n <$> idxs)) t)) eq_refl)
      as (H1 & H2 & H3 & H4).
    repeat split; try done.
    rewrite H1. simpl. rewrite <- (assoc_L (∪)). f_equal.
Qed.

(** X14: on a slide that is not reveal-enabled the entry animation
    schedules one timer per tagged element, behind the timers already
    pending; once these have gone off every tagged element of the slide
    is visible, next to what was visible before, and counters and the
    earlier timers are untouched.  On a reveal-enabled slide it
    schedules nothing and shows nothing. *)
Theorem entry_animation_shows_all (n : Z) (s : state) (sl : slide_el) :
  slides page !! n = Some sl →
  (click_reveal sl = false →
   let s1 := animateSlide page n s in
   let s2 := Nat.iter (length (delays sl)) (fire page (length (pending s))) s1 in
   length (pending s1) = (length (pending s) + length (delays sl))%nat ∧
   visible s1 = visible s ∧
   visible s2 = visible s ∪ slide_elements n (delays sl) ∧
   pending s2 = pending s ∧
   clickRevealState s2 = clickRevealState s) ∧
  (click_reveal sl = true →
   pending (animateSlide page n s) = pending s ∧
   visible (animateSlide page n s) = visible s).
Proof.
  intros Hsl. split.
  - intros Hcr s1 s2.
    assert (s1 = set_pending (pending s ++ (TShow n <$> seq 0 (length (delays sl)))) s)
      as Hs1.
    { unfold s1, animateSlide. rewrite Hsl, Hcr. by rewrite imap_seq_0. }
    destruct (fire_shows_block n (seq 0 (length (delays sl))) (pending s) s1)
      as (H1 & H2 & H3 & _); [by rewrite Hs1|].
    rewrite length_seq in H1, H2, H3. fold s2 in H1, H2, H3.
    split; [|split; [|split; [|split]]].
    + rewrite Hs1. simpl. by rewrite length_app, length_fmap, length_seq.
    + by rewrite Hs1.
    + rewrite H1, Hs1. done.
    + done.
    + rewrite H3, Hs1. done.
  - intros Hcr. unfold animateSlide. rewrite Hsl, Hcr. by case_match.
Qed.

(** *** Speech bubbles *)

Lemma step_bubbles e s :
  bubbles (step page e s) = bubbles s ∨ bubbles (step page e s) = ∅ ∨
  (∃ b, bubbles (step page e s) = {[ b ]}) ∨
  ∃ b, bubbles (step page e s) = bubbles s ∖ {[ b ]}.
Proof.
  assert (∀ t t', popups t' = popups t → bubbles t' = bubbles t) as Hpop.
  { intros t t'. unfold popups. by intros [= ? _ _]. }
  destruct e; simpl; try (by left).
  - rewrite keydown_after_handleKeydown.
    destruct (is_escape k); [right; by left|].
    left. apply Hpop, handleKeydown_popups.
  - left. unfold handleTouchEnd, handleSwipe, prevSlide. repeat case_match; try done.
    + apply (Hpop (set_touchEndX x s)).
      apply (handleKeydown_popups page ArrowRight (set_touchEndX x s)).
    + apply (Hpop (set_touchEndX x s)), goToSlide_popups.
  - left. apply Hpop, goToSlide_popups.
  - left. apply Hpop, goToSlide_popups.
  - left. repeat case_match; try done. apply Hpop, goToSlide_popups.
  - left. unfold handleSlideContainerClick, revealNextElement. by repeat case_match.
  - left. pose proof (click_cell_outside page i s) as (_ & _ & _ & _ & H & _)%outside_fields.
    by apply Hpop.
  - unfold toggleSpeechBubble. case_decide.
    + right; right; right. by exists b.
    + right; right; left. by exists b.
  - right; right; right. by exists b.
  - destruct inside_info; [by left|right; by left].
  - left. unfold fire, run_timer, animateSlide. by repeat case_match.
Qed.

(** X15: in every reachable store at most one speech bubble is open;
    toggling a bubble there closes it if it is the open one, and
    otherwise leaves it as the only open bubble. *)
Theorem one_bubble_at_a_time (es : list event) (b : nat) :
  let s := run page es init_state in
  at_most_one_bubble s ∧
  bubbles (step page (ToggleBubble b) s) =
    (if decide (b ∈ bubbles s) then ∅ else {[ b ]}).
Proof.
  intros s.
  assert (at_most_one_bubble s) as Hone.
  { unfold s. clear s. induction es as [|e es IH] using rev_ind.
    - intros a c []%elem_of_empty.
    - rewrite run_snoc. intros a c.
      destruct (step_bubbles e (run page es init_state)) as [->|[->|[[x ->]|[x ->]]]].
      + apply IH.
      + by intros []%elem_of_empty.
      + rewrite !elem_of_singleton. congruence.
      + rewrite !elem_of_difference. intros [? _] [? _]. by apply IH. }
  split; [done|]. simpl. unfold toggleSpeechBubble.
  destruct (decide (b ∈ bubbles s)) as [Hin|Hout]; simpl; [|done].
  apply set_eq. intros x. rewrite elem_of_difference, elem_of_singleton. split.
  - intros [Hx Hne]. destruct Hne. by apply Hone.
  - by intros ?%elem_of_empty.
Qed.

(** *** The widgets *)

Lemma click_cell_widget w i c s :
  cells page !! i = Some c → widget_cell page w i = true →
  click_cell page i s = handleFagClickOn page w i c s.
Proof.
  intros Hi Hw. unfold click_cell, handleFagClick, handleFagClickSlide11. rewrite Hi.
  destruct (widget_cell page Slide10 i) eqn:H10.
  - by rewrite (widget_cell_exclusive page w Slide10 i Hw H10).
  - destruct w; [congruence|]. by rewrite Hw.
Qed.

Lemma handleFagClickOn_other_fields w w' i c s :
  w ≠ w' →
  flags_of w' (handleFagClickOn page w i c s) = flags_of w' s ∧
  overlay_of w' (handleFagClickOn page w i c s) = overlay_of w' s.
Proof.
  intros Hne. rewrite handleFagClickOn_unfold.
  destruct (unmet (requires c) (flags_of w s)); [done|].
  rewrite updateFordypningVisualsOn_flags, updateFordypningVisualsOn_other by done.
  destruct (toggle_cell_rest page w i c s) as (T1 & T2 & _ & Tf).
  split; [by apply Tf|]. destruct w'; simpl; congruence.
Qed.

(** X16: a click on a cell stays inside its widget: it never changes
    the current slide, the reveal state, the indicator, the pop-ups or
    the timers, and it leaves the flags and the overlay of the other
    widget as they were; a click on a cell that belongs to neither
    widget changes nothing. *)
Theorem cell_click_is_local (i : nat) (s : state) :
  outside_widgets (step page (ClickCell i) s) = outside_widgets s ∧
  (∀ w w', widget_cell page w i = true → w ≠ w' →
           flags_of w' (step page (ClickCell i) s) = flags_of w' s ∧
           overlay_of w' (step page (ClickCell i) s) = overlay_of w' s) ∧
  (widget_cell page Slide10 i = false → widget_cell page Slide11 i = false →
   step page (ClickCell i) s = s).
Proof.
  split; [apply click_cell_outside|]. split.
  - intros w w' Hw Hne. simpl.
    destruct (cells page !! i) as [c|] eqn:Hi.
    + rewrite (click_cell_widget w i c s Hi Hw). by apply handleFagClickOn_other_fields.
    + unfold widget_cell in Hw. by rewrite Hi in Hw.
  - intros H10 H11. simpl. unfold click_cell. rewrite H10, H11. by case_match.
Qed.

Lemma cascade_keys w fagId ks st :
  (∀ key, key ∈ ks → key ∈ keys (flags_of w st)) →
  keys (flags_of w (foldl (deselect_if_requires page w fagId) st ks)) =
  keys (flags_of w st).
Proof.
  revert st. induction ks as [|key ks IH]; intros st Hks; cbn [foldl]; [done|].
  assert (keys (flags_of w (deselect_if_requires page w fagId st key)) =
          keys (flags_of w st)) as Hstep.
  { unfold deselect_if_requires.
    destruct (query_fag page w key) as [[j o]|]; [|done].
    destruct (same_string (requires o) fagId); [|done].
    unfold unmark.
    replace (flags_of w (set_selected _ _))
      with (set_flag key false (flags_of w st)) by by destruct w.
    apply keys_set_flag_in, Hks, list_elem_of_here. }
  rewrite IH, Hstep; [done|].
  intros key' Hin. rewrite Hstep. by apply Hks, list_elem_of_further.
Qed.

Lemma toggle_cell_keys w i c s :
  fag c ∈ keys (flags_of w s) →
  keys (flags_of w (toggle_cell page w i c s)) = keys (flags_of w s).
Proof.
  intros Hin. unfold toggle_cell. case_match.
  - replace (flags_of w (unmark i (set_flags_of w (set_flag (fag c) false (flags_of w s)) s)))
      with (set_flag (fag c) false (flags_of w s)) by by destruct w.
    rewrite cascade_keys.
    + replace (flags_of w (unmark i (set_flags_of w (set_flag (fag c) false (flags_of w s)) s)))
        with (set_flag (fag c) false (flags_of w s)) by by destruct w.
      by apply keys_set_flag_in.
    + intros key Hkey.
      replace (flags_of w (unmark i (set_flags_of w (set_flag (fag c) false (flags_of w s)) s)))
        with (set_flag (fag c) false (flags_of w s)) by by destruct w.
      done.
  - replace (flags_of w (mark i (set_flags_of w (set_flag (fag c) true (flags_of w s)) s)))
      with (set_flag (fag c) true (flags_of w s)) by by destruct w.
    by apply keys_set_flag_in.
Qed.

Lemma resetInteractiveOn_flags w s :
  flags_of w (resetInteractiveOn page w s) =
  set_flag (second_pair w).2 false
    (set_flag (second_pair w).1 false
       (set_flag (first_pair w).2 false
          (set_flag (first_pair w).1 false (flags_of w s)))).
Proof. unfold resetInteractiveOn. destruct w; by case_match. Qed.

Lemma reset_keys w w' s :
  keys (flags_of w s) = named_flags w →
  keys (flags_of w (resetInteractiveOn page w' s)) = named_flags w.
Proof.
  intros Hk. destruct (decide (w' = w)) as [->|Hne].
  - rewrite resetInteractiveOn_flags.
    assert (∀ obj k, keys obj = named_flags w → k ∈ named_flags w →
                     keys (set_flag k false obj) = named_flags w) as Hset.
    { intros obj k Hobj Hin. rewrite keys_set_flag_in; [done|by rewrite Hobj]. }
    repeat apply Hset; try done; unfold named_flags; rewrite !elem_of_cons; auto 10.
  - destruct (resetInteractiveOn_other page w' w s Hne) as (-> & _). done.
Qed.

(** X17: when the selectable units of a widget are named after its four
    flags, the widget's state object has exactly its four keys, in their
    order, in every reachable store: no click adds a key. *)
Theorem state_object_keeps_keys (w : widget) (es : list event) :
  named_cells page w →
  keys (flags_of w (run page es init_state)) = named_flags w.
Proof.
  intros Hnamed.
  apply (widgets_invariant page (λ s, keys (flags_of w s) = named_flags w)).
  - intros s s' H Hs. destruct (widgets_fields w s s' H) as (-> & _). done.
  - intros n s Hs. unfold after_resets, resetInteractiveSlide10, resetInteractiveSlide11.
    repeat case_match; auto using reset_keys.
  - intros i s Hs. unfold click_cell, handleFagClick, handleFagClickSlide11.
    destruct (cells page !! i) as [c|] eqn:Hi; [|done].
    assert (∀ w0, widget_cell page w0 i = true →
                  keys (flags_of w (handleFagClickOn page w0 i c s)) = named_flags w)
      as Hclick.
    { intros w0 Hw0. destruct (decide (w0 = w)) as [->|Hne].
      - rewrite handleFagClickOn_unfold. case_match; [done|].
        rewrite updateFordypningVisualsOn_flags, toggle_cell_keys; [done|].
        rewrite Hs. by apply (Hnamed i c).
      - destruct (handleFagClickOn_other_fields w0 w i c s Hne) as [-> _]. done. }
    destruct (widget_cell page Slide10 i) eqn:H10; [by apply Hclick|].
    destruct (widget_cell page Slide11 i) eqn:H11; [by apply Hclick|done].
  - by destruct w.
  - by exists es.
Qed.

Lemma reset_keeps_prerequisites w w' s :
  named_cells page w → is_Some (slides page !! widget_slide w) →
  marks_follow_flags page w s ∧ flags_respect_prerequisites page w s →
  marks_follow_flags page w (resetInteractiveOn page w' s) ∧
  flags_respect_prerequisites page w (resetInteractiveOn page w' s).
Proof.
  intros Hnamed Hsl [Hmarks Hpre]. destruct (decide (w' = w)) as [->|Hne].
  - destruct (resetInteractiveOn_own page w s Hsl) as (Hf & Hs & _). split.
    + intros i c Hi Hw. rewrite Hs, elem_of_filter. intros [E _]. congruence.
    + intros i c p Hi Hw _ _. rewrite Hf, reset_flags_false; [done|].
      by apply (Hnamed i c).
  - destruct (resetInteractiveOn_other page w' w s Hne) as (Hf & _ & Hs). split.
    + intros i c Hi Hw Hin. rewrite Hf. apply (Hmarks i c Hi Hw).
      assert (i ∈ filter (λ i, widget_cell page w i = true)
                    (selected (resetInteractiveOn page w' s))) as Hin'
        by by apply elem_of_filter.
      rewrite Hs in Hin'. by apply elem_of_filter in Hin' as [_ ?].
    + intros i c p Hi Hw Hreq Hp. rewrite Hf. by apply (Hpre i c p).
Qed.

Lemma reachable_keeps_prerequisites w s :
  unique_in_scope page w → two_levels page w → named_cells page w →
  is_Some (slides page !! widget_slide w) →
  reachable page s →
  marks_follow_flags page w s ∧ flags_respect_prerequisites page w s.
Proof.
  intros HU HD Hnamed Hsl.
  apply (widgets_invariant page
           (λ s, marks_follow_flags page w s ∧ flags_respect_prerequisites page w s)).
  - intros t t' H [H1 H2]. destruct (widgets_fields w t t' H) as (Hf & Hs & _).
    unfold marks_follow_flags, flags_respect_prerequisites. by rewrite Hf, Hs.
  - intros n t Ht. unfold after_resets, resetInteractiveSlide10, resetInteractiveSlide11.
    repeat case_match; auto using reset_keeps_prerequisites.
  - intros j t [H1 H2]. by apply click_cell_keeps_prerequisites.
  - apply (clicks_keep_prerequisites page w [] HU HD).
Qed.

(** X18: on a page that names the selectable units of a widget after its
    four flags, gives every unit its own id, keeps prerequisites one
    level deep and uses plain ids (no [data-requires] names an inherited
    member of the state object), the widget's slide being on the page:
    in every reachable store, navigation and resets included, every key
    of the state object is plain, and a unit that declares a
    prerequisite has neither its flag set nor the [selected] mark while
    the prerequisite's flag is false. *)
Theorem prerequisite_holds_along_every_run (w : widget) (es : list event)
    (i : nat) (c : cell_el) (p : string) :
  unique_in_scope page w → two_levels page w → named_cells page w →
  plain_ids page →
  is_Some (slides page !! widget_slide w) →
  cells page !! i = Some c → widget_cell page w i = true →
  requires c = Some p → p ≠ "" →
  let s := run page es init_state in
  Forall plain_key (keys (flags_of w s)) ∧
  (get_flag (flags_of w s) p = false →
   get_flag (flags_of w s) (fag c) = false ∧ i ∉ selected s).
Proof.
  intros HU HD Hnamed Hplain Hsl Hi Hw Hreq Hp s.
  split; [apply (reachable_keys_plain page); [done|by exists es]|].
  intros Hflag.
  destruct (reachable_keeps_prerequisites w s HU HD Hnamed Hsl) as [Hmarks Hpre];
    [by exists es|].
  assert (get_flag (flags_of w s) (fag c) = false) as Hc.
  { destruct (get_flag (flags_of w s) (fag c)) eqn:E; [|done].
    rewrite (Hpre i c p Hi Hw Hreq Hp E) in Hflag. done. }
  split; [done|]. intros Hsel. rewrite (Hmarks i c Hi Hw Hsel) in Hc. done.
Qed.

Lemma get_set_flag_false_true key obj k :
  get_flag (set_flag key false obj) k = true → get_flag obj k = true.
Proof. rewrite get_set_flag. by case_decide. Qed.

Lemma reset_flags_have_cells w w' s :
  flags_have_cells page w s → flags_have_cells page w (resetInteractiveOn page w' s).
Proof.
  intros H k. destruct (decide (w' = w)) as [->|Hne].
  - rewrite resetInteractiveOn_flags. intros Hk.
    do 4 apply get_set_flag_false_true in Hk. by apply H.
  - destruct (resetInteractiveOn_other page w' w s Hne) as (-> & _). apply H.
Qed.

Lemma handleFagClickOn_flags_have_cells w w' i c s :
  cells page !! i = Some c → widget_cell page w' i = true →
  flags_have_cells page w s → flags_have_cells page w (handleFagClickOn page w' i c s).
Proof.
  intros Hi Hw' H. destruct (decide (w' = w)) as [->|Hne].
  - rewrite handleFagClickOn_unfold. case_match; [done|].
    intros k. rewrite updateFordypningVisualsOn_flags.
    destruct (get_flag (flags_of w s) (fag c)) eqn:E.
    + rewrite toggle_cell_deselect_flag by done. intros (_ & Hk & _). by apply H.
    + destruct (toggle_cell_select page w i c s E) as [-> _].
      rewrite get_set_flag. case_decide as Ek.
      * intros _. by exists i, c.
      * apply H.
  - intros k. destruct (handleFagClickOn_other_fields w' w i c s Hne) as [-> _]. apply H.
Qed.

Lemma reachable_flags_have_cells w s :
  reachable page s → flags_have_cells page w s.
Proof.
  apply (widgets_invariant page (flags_have_cells page w)).
  - intros t t' H Ht. destruct (widgets_fields w t t' H) as (Hf & _).
    unfold flags_have_cells. by rewrite Hf.
  - intros n t Ht. unfold after_resets, resetInteractiveSlide10, resetInteractiveSlide11.
    repeat case_match; auto using reset_flags_have_cells.
  - intros i t Ht. unfold click_cell, handleFagClick, handleFagClickSlide11.
    destruct (cells page !! i) as [c|] eqn:Hi; [|done].
    destruct (widget_cell page Slide10 i) eqn:H10;
      [by apply handleFagClickOn_flags_have_cells|].
    destruct (widget_cell page Slide11 i) eqn:H11;
      [by apply handleFagClickOn_flags_have_cells|done].
  - intros k. rewrite get_flag_all_false; [done|]. destruct w; repeat constructor.
Qed.

Lemma run_app es es' s : run page (es ++ es') s = run page es' (run page es s).
Proof. unfold run. by rewrite foldl_app. Qed.

(** X19: selecting a unit and deselecting it again is a round trip.  On
    a page that names the units of the widget after its four flags,
    gives every unit its own id and keeps prerequisites one level deep,
    in any reachable store in which the unit (with a non-empty id) is
    not selected and its prerequisite is met, two clicks on the unit
    leave every flag, every mark on a selectable unit of the widget and
    the overlay as they were: the cascade of the second click removes
    nothing that the first click did not add. *)
Theorem select_then_deselect_restores (w : widget) (es : list event)
    (i : nat) (c : cell_el) :
  unique_in_scope page w → two_levels page w → named_cells page w →
  is_Some (slides page !! widget_slide w) →
  cells page !! i = Some c → widget_cell page w i = true → fag c ≠ "" →
  let s := run page es init_state in
  get_flag (flags_of w s) (fag c) = false →
  unmet (requires c) (flags_of w s) = false →
  let s2 := run page [ClickCell i; ClickCell i] s in
  (∀ k, get_flag (flags_of w s2) k = get_flag (flags_of w s) k) ∧
  (∀ j, widget_cell page w j = true → (j ∈ selected s2 ↔ j ∈ selected s)) ∧
  overlay_of w s2 = overlay_of w s.
Proof.
  intros HU HD Hnamed Hsl Hi Hw Hx s Hoff Hmet s2.
  assert (reachable page s) as Hreach by by exists es.
  destruct (reachable_keeps_prerequisites w s HU HD Hnamed Hsl Hreach) as [Hmarks Hpre].
  pose proof (reachable_flags_have_cells w s Hreach) as Hcells.
  set (s1 := updateFordypningVisualsOn page w (toggle_cell page w i c s)).
  assert (step page (ClickCell i) s = s1) as E1.
  { simpl. rewrite (click_cell_widget w i c s Hi Hw), handleFagClickOn_unfold.
    by rewrite Hmet. }
  destruct (toggle_cell_select page w i c s Hoff) as [Hf1 Hs1].
  assert (flags_of w s1 = set_flag (fag c) true (flags_of w s)) as HF1
    by (unfold s1; by rewrite updateFordypningVisualsOn_flags).
  assert (selected s1 = selected s ∪ {[ i ]}) as HS1
    by (unfold s1; by rewrite updateFordypningVisualsOn_selected).
  assert (get_flag (flags_of w s1) (fag c) = true) as Hon
    by (rewrite HF1; apply get_set_flag_eq).
  assert (unmet (requires c) (flags_of w s1) = false) as Hmet1.
  { revert Hmet. unfold unmet. destruct (requires c) as [r|]; [|done].
    rewrite HF1, get_set_flag. case_decide; [|done].
    intros _. by rewrite andb_false_r. }
  assert (s2 = updateFordypningVisualsOn page w (toggle_cell page w i c s1)) as E2.
  { unfold s2. change [ClickCell i; ClickCell i] with ([ClickCell i] ++ [ClickCell i])%list.
    rewrite run_snoc. change (run page [ClickCell i] s) with (step page (ClickCell i) s).
    rewrite E1. simpl.
    rewrite (click_cell_widget w i c s1 Hi Hw), handleFagClickOn_unfold. by rewrite Hmet1. }
  assert (∀ o j, get_flag (flags_of w s) (fag o) = true →
                 cells page !! j = Some o → widget_cell page w j = true →
                 same_string (requires o) (fag c) = true → False) as Hnodep.
  { intros o j Hk Hj Hwj Hreq. unfold same_string in Hreq.
    destruct (requires o) as [r|] eqn:Hr; [|done].
    apply String.eqb_eq in Hreq. subst r.
    rewrite (Hpre j o (fag c) Hj Hwj Hr Hx Hk) in Hoff. done. }
  assert (∀ k, get_flag (flags_of w s2) k = get_flag (flags_of w s) k) as Hflags.
  { intros k. rewrite E2, updateFordypningVisualsOn_flags.
    apply Bool.eq_iff_eq_true.
    rewrite (toggle_cell_deselect_flag page w i c s1 k Hon), HF1. split.
    - intros (Hne & Hk & _). by rewrite get_set_flag_ne in Hk.
    - intros Hk. assert (k ≠ fag c) as Hne by (intros ->; congruence).
      split; [done|]. split; [by rewrite get_set_flag_ne|].
      unfold depends_on. destruct (query_fag page w k) as [[j o]|] eqn:Hq; [|done].
      destruct (same_string (requires o) (fag c)) eqn:Hreq; [|done]. exfalso.
      destruct (Hcells k Hk) as (j' & o' & Hj' & Hwj' & Hk').
      pose proof (query_fag_unique page w j' o' HU Hj'
                    (widget_cell_in_scope page w j' o' Hj' Hwj')) as Hq'.
      rewrite Hk', Hq in Hq'. injection Hq' as -> ->.
      apply (Hnodep o' j'); try done. by rewrite Hk'. }
  split; [done|]. split.
  - intros j Hwj. rewrite E2, updateFordypningVisualsOn_selected.
    rewrite (toggle_cell_deselect_selected page w i c s1 j Hon), HS1.
    rewrite elem_of_union, elem_of_singleton. split.
    + intros (Hne & [Hin|Hin] & _); done.
    + intros Hin.
      assert (j ≠ i) as Hne.
      { intros ->. rewrite (Hmarks i c Hi Hw Hin) in Hoff. done. }
      split; [done|]. split; [by left|].
      intros (key & o & _ & Hq & Hreq).
      apply query_fag_Some in Hq as (Hj & _ & _).
      apply (Hnodep o j); try done. by apply (Hmarks j o).
  - assert (overlay_matches w s) as Hm by by apply (reachable_overlay_matches page).
    assert (overlay_matches w s2) as Hm2.
    { apply (reachable_overlay_matches page); [done|].
      exists (es ++ [ClickCell i; ClickCell i])%list. unfold s2, s. by rewrite run_app. }
    rewrite Hm, Hm2. unfold pair_complete. by rewrite !Hflags.
Qed.

(** *** Where a run can be *)

(** X20: whatever the inputs, the current slide number is always one of
    the slides 1 .. totalSlides: no key, swipe, button, menu entry or
    timer takes the deck off its ends. *)
Theorem current_slide_in_range (es : list event) :
  1 ≤ currentSlide (run page es init_state) ≤ totalSlides.
Proof. apply (reachable_current page). by exists es. Qed.

(** X21: Home goes to the first slide and End to the last one from any
    store, whether the slide left is reveal-enabled or not; neither
    touches the reveal counters, the revealed elements or the pop-ups. *)
Theorem home_and_end_keys (s : state) :
  let s1 := step page (Keydown Home) s in
  let s2 := step page (Keydown End_) s in
  currentSlide s1 = 1 ∧ currentSlide s2 = totalSlides ∧
  reveal_part s1 = reveal_part s ∧ reveal_part s2 = reveal_part s ∧
  popups s1 = popups s ∧ popups s2 = popups s.
Proof.
  simpl. rewrite !keydown_after_handleKeydown. simpl.
  rewrite !goToSlide_current, !goToSlide_reveal_part, !goToSlide_popups. done.
Qed.

End Further.

(** ** The further properties at work *)

(** The sample page names its selectable units after the flags. *)
Lemma sample_page_named w : named_cells sample_page w.
Proof.
  intros i c Hi Hw.
  pose proof (lookup_lt_Some _ _ _ Hi) as Hlt.
  destruct w;
    do 8 (destruct i as [|i];
          [injection Hi as <-; first [by vm_compute in Hw | compute_done]|]);
    simpl in Hlt; lia.
Qed.

(** X1 at work: going to slide 5 of the sample page, reveal-enabled and
    with nothing revealed yet, shows the indicator. *)
Lemma goToSlide_enters_witness :
  ∃ s', goToSlide sample_page 5 init_state = Returned s' ∧
        currentSlide s' = 5 ∧ active s' = Some 5 ∧ indicator s' = true.
Proof.
  destruct (goToSlide_enters sample_page 5 init_state (Slide true [Some 0; Some 2]))
    as (s' & H1 & H2 & H3 & _ & _ & _ & H7).
  - unfold totalSlides. lia.
  - reflexivity.
  - exists s'. split; [exact H1|]. split; [exact H2|]. split; [exact H3|].
    rewrite H7. reflexivity.
Defined.

(** X2 at work: on the page without slide 3, going to slide 3 dies with
    the index moved and no slide active. *)
Lemma goToSlide_missing_slide_witness :
  ∃ s', goToSlide page_missing_slide 3 init_state = Threw s' ∧
        currentSlide s' = 3 ∧ active s' = None.
Proof.
  destruct (goToSlide_missing_slide page_missing_slide 3 init_state)
    as (s' & H1 & H2 & H3 & _).
  - unfold totalSlides. lia.
  - reflexivity.
  - exists s'. split; [exact H1|]. split; [exact H2|exact H3].
Defined.

(** X3 at work: twenty presses of next end on slide 14, three presses
    of previous stay on slide 1. *)
Lemma buttons_saturate_witness :
  currentSlide (run sample_page (replicate 20 ClickNext) init_state) = 14 ∧
  currentSlide (run sample_page (replicate 3 ClickPrev) init_state) = 1.
Proof.
  assert (1 ≤ currentSlide init_state ≤ totalSlides) as H
    by (unfold totalSlides; simpl; lia).
  split.
  - destruct (buttons_saturate sample_page 20 init_state H) as [H1 _].
    rewrite H1. reflexivity.
  - destruct (buttons_saturate sample_page 3 init_state H) as [_ H2].
    rewrite H2. reflexivity.
Defined.

(** X4 at work: on slide 2 with one element revealed, ArrowLeft goes to
    slide 1 and takes no reveal step back. *)
Lemma backward_input_keeps_reveals_witness :
  let s := run sample_page [Keydown ArrowRight; Keydown ArrowRight] init_state in
  counter s = 1 ∧
  reveal_part (step sample_page (Keydown ArrowLeft) s) = reveal_part s ∧
  currentSlide (step sample_page (Keydown ArrowLeft) s) = 1.
Proof.
  intros s.
  destruct (backward_input_keeps_reveals sample_page (Keydown ArrowLeft) s eq_refl)
    as (H1 & H2 & _).
  split; [reflexivity|]. split; [exact H1|].
  rewrite H2; [reflexivity|].
  change (currentSlide s) with 2. unfold totalSlides. lia.
Defined.

(** X5 at work: a touch from 100 to 50 is no swipe. *)
Lemma short_touch_ignored_witness :
  let s := step sample_page (TouchStart 100) init_state in
  step sample_page (TouchEnd 50) s = set_touchEndX 50 s.
Proof.
  intros s. apply short_touch_ignored.
  change (touchStartX s) with 100. lia.
Defined.

(** X6 at work: the menu goes to slide 7, and ignores slide 20 and an
    item without a number. *)
Lemma menu_click_guarded_witness :
  currentSlide (step sample_page (ClickMenu (Some 7)) init_state) = 7 ∧
  step sample_page (ClickMenu (Some 20)) init_state = init_state ∧
  step sample_page (ClickMenu None) init_state = init_state.
Proof.
  split; [|split].
  - destruct (menu_click_guarded sample_page (Some 7) init_state) as [H _].
    destruct (H 7 eq_refl) as [_ Hc]; [unfold totalSlides; lia|exact Hc].
  - destruct (menu_click_guarded sample_page (Some 20) init_state) as [_ H].
    apply H. right. exists 20. split; [reflexivity|]. right. unfold totalSlides. lia.
  - destruct (menu_click_guarded sample_page None init_state) as [_ H].
    apply H. left. reflexivity.
Defined.

(** X7 at work: on slide 2 with a counter of 2 the first element is
    visible and the third is not. *)
Lemma revealed_elements_match_counter_witness :
  let s := run sample_page
             [Keydown ArrowRight; Keydown ArrowRight; Keydown ArrowRight] init_state in
  (2, 0%nat) ∈ visible s ∧ (2, 2%nat) ∉ visible s.
Proof.
  intros s.
  pose proof (revealed_elements_match_counter sample_page
                [Keydown ArrowRight; Keydown ArrowRight; Keydown ArrowRight] 2
                (Slide true [Some 0; Some 1; Some 2])) as H.
  subst s.
  assert (counter_of (run sample_page
            [Keydown ArrowRight; Keydown ArrowRight; Keydown ArrowRight] init_state) 2
          = 2) as E by reflexivity.
  split.
  - apply (H 0%nat eq_refl eq_refl). exists 0.
    rewrite E. split; [lia|reflexivity].
  - intros Hin. apply (H 2%nat eq_refl eq_refl) in Hin as (d & Hd & Hf).
    rewrite E in Hd.
    assert (d = 0 ∨ d = 1) as [-> | ->] by lia; discriminate Hf.
Defined.

(** X8 at work: on the page whose first slide has two elements with
    ordinal 0, the first of them stays hidden. *)
Lemma shadowed_element_never_visible_witness :
  (1, 0%nat) ∉ visible (run page_shared_ordinal
                           [Keydown ArrowRight; Keydown ArrowRight] init_state).
Proof.
  apply (shadowed_element_never_visible page_shared_ordinal
           [Keydown ArrowRight; Keydown ArrowRight] 1
           (Slide true [Some 0; Some 0; Some 1]) 0 1 0); try reflexivity.
  lia.
Defined.

(** X10 at work: on the last slide, whose one element a key reveals, the
    indicator stays on although nothing is left to reveal. *)
Lemma forward_reveal_keeps_indicator_witness :
  let s := run sample_page [ClickMenu (Some 14)] init_state in
  let s' := step sample_page (Keydown Space) s in
  indicator s = true ∧ indicator s' = true ∧ allElementsRevealed sample_page s' = true.
Proof.
  intros s s'.
  destruct (forward_reveal_keeps_indicator sample_page (Keydown Space) s
              (Slide true [Some 0]) eq_refl eq_refl eq_refl) as [H1 _];
    [reflexivity|].
  split; [reflexivity|]. split; [|reflexivity].
  subst s'; subst s. rewrite H1. reflexivity.
Defined.

(** X11 at work: on the last slide a click on the container reveals the
    one element and turns the indicator off; a click on an interactive
    element does nothing. *)
Lemma container_click_reveals_only_witness :
  let s := run sample_page [ClickMenu (Some 14)] init_state in
  counter (step sample_page (ClickContainer false) s) = 1 ∧
  indicator (step sample_page (ClickContainer false) s) = false ∧
  step sample_page (ClickContainer true) s = s.
Proof.
  intros s.
  destruct (container_click_reveals_only sample_page false s) as (_ & _ & H).
  destruct (H (Slide true [Some 0]) eq_refl eq_refl eq_refl) as (H1 & _ & H3);
    [reflexivity|].
  destruct (container_click_reveals_only sample_page true s) as (_ & H' & _).
  split; [rewrite H1; reflexivity|]. split; [rewrite H3; reflexivity|].
  apply H'. left. reflexivity.
Defined.

(** X12 at work: on slide 2 with one element revealed, Space and then
    Escape leave the slide as it was. *)
Lemma escape_undoes_forward_key_witness :
  let s := run sample_page [Keydown ArrowRight; Keydown ArrowRight] init_state in
  let s' := run sample_page [Keydown Space; Keydown Escape] s in
  currentSlide s' = 2 ∧ visible s' = visible s.
Proof.
  intros s s'.
  pose proof (escape_undoes_forward_key sample_page
                [Keydown ArrowRight; Keydown ArrowRight] Space
                (Slide true [Some 0; Some 1; Some 2])) as H.
  cbv zeta in H.
  destruct H as (H1 & H2 & _); try reflexivity.
  subst s'; subst s. split; [rewrite H1; reflexivity|exact H2].
Defined.

(** X14 at work: at load, the entry animation of slide 1 and its two
    timers show both elements of the slide. *)
Lemma entry_animation_shows_all_witness :
  visible (Nat.iter 2 (fire sample_page 1) (animateSlide sample_page 1 init_state)) =
  visible init_state ∪ slide_elements 1 [Some 0; Some 1].
Proof.
  destruct (entry_animation_shows_all sample_page 1 init_state
              (Slide false [Some 0; Some 1]) eq_refl) as [H _].
  specialize (H eq_refl). cbv zeta in H.
  destruct H as (_ & _ & H3 & _). exact H3.
Defined.

(** X16 at work: a click on Fysikk 1 leaves the flags of slide 11 as
    they were. *)
Lemma cell_click_is_local_witness :
  flags_of Slide11 (step sample_page (ClickCell 0) init_state) =
  flags_of Slide11 init_state.
Proof.
  destruct (cell_click_is_local sample_page 0 init_state) as (_ & H & _).
  destruct (H Slide10 Slide11 eq_refl) as [Hf _]; [discriminate|exact Hf].
Defined.

(** X17 at work: after clicks on slide 10 and a jump to the last slide
    the state object of slide 10 has its four keys. *)
Lemma state_object_keeps_keys_witness :
  keys (flags_of Slide10
          (run sample_page
             [ClickMenu (Some 10); ClickCell 0; ClickCell 1; Keydown End_] init_state)) =
  ["fysikk1"; "fysikk2"; "r1"; "r2"].
Proof.
  exact (state_object_keeps_keys sample_page Slide10
           [ClickMenu (Some 10); ClickCell 0; ClickCell 1; Keydown End_]
           (sample_page_named Slide10)).
Defined.

(** X18 at work: with Fysikk 1 and Fysikk 2 selected, leaving slide 10
    and coming back finds Fysikk 2 unset and unmarked. *)
Lemma prerequisite_holds_along_every_run_witness :
  let s := run sample_page
             [ClickMenu (Some 10); ClickCell 0; ClickCell 1; ClickNext; ClickPrev]
             init_state in
  currentSlide s = 10 ∧
  get_flag (flags_of Slide10 s) "fysikk2" = false ∧ 1%nat ∉ selected s.
Proof.
  intros s. split; [reflexivity|].
  assert (is_Some (slides sample_page !! widget_slide Slide10)) as Hsl.
  { exists (Slide true [Some 0; Some 1]). reflexivity. }
  destruct (prerequisite_holds_along_every_run sample_page Slide10
              [ClickMenu (Some 10); ClickCell 0; ClickCell 1; ClickNext; ClickPrev]
              1%nat (Cell 10 true "fysikk2" (Some "fysikk1")) "fysikk1"
              (sample_page_unique Slide10) (sample_page_two_levels Slide10)
              (sample_page_named Slide10) sample_page_plain Hsl
              eq_refl eq_refl eq_refl) as [_ H]; [discriminate|].
  apply H. reflexivity.
Defined.

(** X19 at work: with Fysikk 1 and R1 selected, selecting and
    deselecting Fysikk 2 leaves the overlay and the flag as before. *)
Lemma select_then_deselect_restores_witness :
  let s := run sample_page [ClickCell 0; ClickCell 2] init_state in
  let s2 := run sample_page [ClickCell 1; ClickCell 1] s in
  get_flag (flags_of Slide10 s2) "fysikk1" = true ∧
  overlay_of Slide10 s2 = overlay_of Slide10 s.
Proof.
  intros s s2.
  pose proof (select_then_deselect_restores sample_page Slide10
                [ClickCell 0; ClickCell 2] 1%nat
                (Cell 10 true "fysikk2" (Some "fysikk1"))
                (sample_page_unique Slide10) (sample_page_two_levels Slide10)
                (sample_page_named Slide10)) as H.
  cbv zeta in H.
  destruct H as (Hf & _ & Ho); try reflexivity.
  - exists (Slide true [Some 0; Some 1]). reflexivity.
  - discriminate.
  - subst s2; subst s. split; [|exact Ho]. rewrite Hf. reflexivity.
Defined.
